(** * Fulcrum to Google Drive export: reconciliation and transfer engine

    A shallow embedding of [fulcrum_to_google_drive.py] (class
    [FulcrumToDriveExporter]) and the properties of its photo transfer
    pipeline, orphan reconciler, approval gate, checkpoint store and
    orchestrator.

    Conventions of the embedding.
    - The exporter object is a record [Exporter]; every method is a function
      that takes the object and returns the updated object next to its
      result.  Loops of a method are recursive functions of their own, named
      after what they iterate over.
    - Python dicts and sets used as maps and sets are [gmap] and [gset];
      lists and dicts whose order the code observes stay lists.
    - A [str] is kept as its UTF-8 bytes.  [strip] removes the white space
      of Unicode that Python removes, and [lower] agrees with Python on
      every test the program makes of a lowered text.  The classes of
      [isalnum] and [isdigit] are those of ASCII: [sanitize] and
      [isdigit] are the source's on form names and arguments in ASCII.
    - The outside world (Fulcrum, Drive, Slack, the clock) is the [Remote]
      part of the state together with a [World] of oracles: the answer of
      the n-th network call is [oracle n].  Every theorem quantifies over
      the oracles, so it holds whatever the network does.  The calls to
      Drive and Slack and the fetches of single photos are logged in the
      trace of [Remote]; the queries to Fulcrum for records, metadata pages
      and layers are counted but not logged.
    - Listings and folder lookups of Drive are taken to succeed; creations,
      deletions and fetches may fail as the oracles say.
    - The worker pool of a batch is run one job after the other; an oracle
      says which jobs the dispatcher saw complete before its deadline.
    - Time is counted in milliseconds ([time.time()] is a float in the
      source; only comparisons and additions of it are used).
    - Credential refresh, the signal and exit handlers, [logger] calls and
      the [tqdm] progress bar are dropped.  Of [export_form] the part up to
      the branch for a form without records and the photo part are
      embedded; the texts of its CSV, GeoJSON and summary files are not. *)

From Stdlib Require Import String Ascii List Arith NArith Lia Bool.
From stdpp Require Import base gmap strings list pretty sorting.

Open Scope string_scope.
Open Scope nat_scope.
Open Scope list_scope.

(** ** Strings *)

(** [c in s] for a single character. *)
Fixpoint has_char (c : ascii) (s : string) : bool :=
  match s with
  | EmptyString => false
  | String a r => Ascii.eqb a c || has_char c r
  end.

(** [s.rsplit(c, 1)[0]]: what precedes the last [c]; all of [s] when [c]
    does not occur. *)
Fixpoint rsplit1_head (c : ascii) (s : string) : string :=
  match s with
  | EmptyString => EmptyString
  | String a r =>
      if has_char c r then String a (rsplit1_head c r)
      else if Ascii.eqb a c then EmptyString
      else String a r
  end.

(** [needle in hay] for strings. *)
Fixpoint str_contains (needle hay : string) : bool :=
  String.prefix needle hay
  || match hay with
     | EmptyString => false
     | String _ r => str_contains needle r
     end.

(** A [str] is kept as its UTF-8 bytes; [utf8] writes a code point by its
    bytes. *)
Definition utf8 (bytes : list nat) : string :=
  string_of_list_ascii (ascii_of_nat <$> bytes).

Definition lower_char (c : ascii) : ascii :=
  let n := nat_of_ascii c in
  if (65 <=? n) && (n <=? 90) then ascii_of_nat (n + 32) else c.

(** [str.lower()].  The letters A to Z are lowered; so are the two code
    points outside ASCII whose lower-case form has an ASCII letter in it:
    U+212A KELVIN SIGN becomes k, and U+0130 becomes i followed by U+0307.
    Every other code point outside ASCII is left in place, where Python
    puts its lower-case form, which is again outside ASCII: the tests the
    program makes on a lowered text, equality with an ASCII word and
    occurrence of one, come out the same. *)
Fixpoint lower (s : string) : string :=
  match s with
  | EmptyString => EmptyString
  | String c r =>
      let plain := String (lower_char c) (lower r) in
      match r with
      | String c2 r2 =>
          if (nat_of_ascii c =? 196) && (nat_of_ascii c2 =? 176) then
            "i" +:+ utf8 [204; 135] +:+ lower r2
          else
            match r2 with
            | String c3 r3 =>
                if (nat_of_ascii c =? 226) && (nat_of_ascii c2 =? 132)
                   && (nat_of_ascii c3 =? 170)
                then String "k" (lower r3)
                else plain
            | EmptyString => plain
            end
      | EmptyString => plain
      end
  end.

(** The white space [str.strip()] removes, by the length of its UTF-8
    form: U+0009 to U+000D and U+001C to U+0020; U+0085 and U+00A0;
    U+1680, U+2000 to U+200A, U+2028, U+2029, U+202F, U+205F and U+3000. *)
Definition is_space (c : ascii) : bool :=
  let n := nat_of_ascii c in
  ((9 <=? n) && (n <=? 13)) || ((28 <=? n) && (n <=? 32)).

Definition is_space2 (a b : ascii) : bool :=
  (nat_of_ascii a =? 194) && ((nat_of_ascii b =? 133) || (nat_of_ascii b =? 160)).

Definition is_space3 (a b c : ascii) : bool :=
  let '(a, b, c) := (nat_of_ascii a, nat_of_ascii b, nat_of_ascii c) in
  ((a =? 225) && (b =? 154) && (c =? 128))
  || ((a =? 226) && (b =? 128)
      && (((128 <=? c) && (c <=? 138)) || (c =? 168) || (c =? 169) || (c =? 175)))
  || ((a =? 226) && (b =? 129) && (c =? 159))
  || ((a =? 227) && (b =? 128) && (c =? 128)).

(** White space is taken off the front of [s]; with [backwards] set, [s]
    is a text read from its end, and so is every code point in it. *)
Fixpoint drop_spaces (backwards : bool) (s : string) : string :=
  match s with
  | EmptyString => EmptyString
  | String a r =>
      if is_space a then drop_spaces backwards r
      else
        match r with
        | String b r2 =>
            if (if backwards then is_space2 b a else is_space2 a b)
            then drop_spaces backwards r2
            else
              match r2 with
              | String c r3 =>
                  if (if backwards then is_space3 c b a else is_space3 a b c)
                  then drop_spaces backwards r3
                  else s
              | EmptyString => s
              end
        | EmptyString => s
        end
  end.

Definition reversed (s : string) : string :=
  string_of_list_ascii (rev (list_ascii_of_string s)).

Definition lstrip (s : string) : string := drop_spaces false s.

Definition rstrip (s : string) : string :=
  reversed (drop_spaces true (reversed s)).

Definition strip (s : string) : string := rstrip (lstrip s).

Definition str_in (s : string) (l : list string) : bool :=
  existsb (String.eqb s) l.

(** ** Data model *)

(** One entry of the batch photo metadata ([/photos.json]); [deleted_at] is
    [None] for JSON null or a missing key. *)
Record PhotoData := {
  deleted_at : option string;
  stored : bool;
  processed : bool;
  content_type : string
}.

(** A photo dict: the reference found in a record ([extract_photo_ids])
    and the keys ['success'], ['error'], ['photo_data'], ['filename'] that
    [_process_single_photo] and the dispatcher write into it ([None] while
    a key is absent). *)
Record Photo := {
  photo_id : string;
  record_id : string;
  field_path : string;
  caption : string;
  success : option bool;
  error : option string;
  photo_data : option PhotoData;
  filename : option string
}.

Record Form := {
  form_id : string;
  form_name : string;
  form_is_active : bool
}.

(** An entry of a Drive folder listing. *)
Record DriveItem := {
  item_id : string;
  item_name : string;
  item_mime : string;
  item_parent : string
}.

Definition folder_mime : string := "application/vnd.google-apps.folder".

(** A message of [conversations.history]. *)
Record SlackMsg := {
  msg_bot : bool;
  msg_ts : string;
  msg_text : string
}.

(** The texts the exporter posts to Slack. *)
Inductive SlackNote :=
| NoteAutoDelete (n : nat) (form : string)
| NotePreApproved (n : nat) (form : string)
| NoteApprovalRequired (form : string) (n : nat)
| NoteSkipped (form : string)
| NoteEnded
| NoteTimeout (form : string) (n : nat)
| NoteDeleting (n : nat) (form : string)
| NoteResuming (form_index : nat)
| NoteStarted
| NotePaused (form_index total remaining : nat)
| NoteFinal (status : string).

(** [self._skipped_forms] entries. *)
Record SkippedForm := {
  sf_form : string;
  sf_reason : string;
  sf_photos : nat
}.

(** [export_state.json]. *)
Record ExportState := {
  es_form_index : nat;
  es_total_forms : nat;
  es_stats : gmap string nat;
  es_needs_continuation : bool
}.

(** Outcome of [files().create(...).execute()]. *)
Inductive create_outcome :=
| Created
| HttpError (status : nat)
| ConnError.

(** Outcome of an HTTP GET on the source. *)
Inductive fetch_outcome (A : Type) :=
| FetchOk (a : A)
| FetchConnError (msg : string)
| FetchError (msg : string).
Arguments FetchOk {A} a.
Arguments FetchConnError {A} msg.
Arguments FetchError {A} msg.

(** What becomes of a job handed to the worker pool of
    [_download_and_upload_photos]: it completes before the [as_completed]
    deadline; or the deadline passes while it runs (the dispatcher marks it
    failed, [future.cancel()] cannot stop it and the pool's shutdown waits
    for it); or the deadline passes before it starts and the cancel
    succeeds. *)
Inductive dispatch_status :=
| Completed
| StalledRunning
| Cancelled.

(** The network calls the exporter makes, as observed from outside. *)
Inductive Event :=
| EvList (folder : string)
| EvQueryFolder (name parent : string)
| EvCreateFolder (parent name id : string)
| EvCreate (parent name mime : string) (resumable : bool) (outcome : create_outcome)
| EvDelete (file_id : string) (name : string) (ok : bool)
| EvFetchMeta (photo : string)
| EvFetchPhoto (photo : string)
| EvSlackSend (note : SlackNote) (ts : option string)
| EvSlackPoll (oldest : string).

(** The answers of the outside world, by call number. *)
Record World := {
  drive_create_outcome : nat -> create_outcome;
  drive_delete_ok : nat -> bool;
  drive_fresh_id : nat -> string;
  source_photo : string -> nat -> fetch_outcome (list Byte.byte);
  source_meta : string -> nat -> fetch_outcome PhotoData;
  pool_dispatch : nat -> dispatch_status;
  slack_post : nat -> option string;
  slack_history : nat -> list SlackMsg;
  latency : nat -> N
}.

(** The state of the outside world. *)
Record Remote := {
  drive : list DriveItem;
  tick : nat;     (* network calls made so far *)
  now : N;        (* time.time(), in milliseconds *)
  jobs : nat;     (* jobs submitted to worker pools so far *)
  trace : list Event
}.

(** The constructor arguments and environment of the exporter. *)
Record Config := {
  skip_deletions : bool;
  auto_delete : bool;
  quick_check : bool;
  slack_enabled : bool;
  pre_approved_forms : gset string;
  active_forms_id : string;
  inactive_forms_id : string
}.

(** The mutable fields of [FulcrumToDriveExporter], the two checkpoint files
    and the outside world. *)
Record Exporter := {
  config : Config;
  folder_cache : gmap string string;
  contents_cache : gmap string (gset string);
  new_folders : gset string;
  stats : gmap string nat;
  export_cancelled : bool;
  skipped_forms : list SkippedForm;
  uploaded_photos : gset string;
  export_start_time : option N;
  current_form_index : nat;
  progress_file : option (gset string);
  state_file : option ExportState;
  remote : Remote
}.

Definition set_folder_cache (v : gmap string string) (e : Exporter) : Exporter :=
  {| config := config e; folder_cache := v; contents_cache := contents_cache e;
     new_folders := new_folders e; stats := stats e;
     export_cancelled := export_cancelled e; skipped_forms := skipped_forms e;
     uploaded_photos := uploaded_photos e; export_start_time := export_start_time e;
     current_form_index := current_form_index e; progress_file := progress_file e;
     state_file := state_file e; remote := remote e |}.

Definition set_contents_cache (v : gmap string (gset string)) (e : Exporter) : Exporter :=
  {| config := config e; folder_cache := folder_cache e; contents_cache := v;
     new_folders := new_folders e; stats := stats e;
     export_cancelled := export_cancelled e; skipped_forms := skipped_forms e;
     uploaded_photos := uploaded_photos e; export_start_time := export_start_time e;
     current_form_index := current_form_index e; progress_file := progress_file e;
     state_file := state_file e; remote := remote e |}.

Definition set_new_folders (v : gset string) (e : Exporter) : Exporter :=
  {| config := config e; folder_cache := folder_cache e; contents_cache := contents_cache e;
     new_folders := v; stats := stats e;
     export_cancelled := export_cancelled e; skipped_forms := skipped_forms e;
     uploaded_photos := uploaded_photos e; export_start_time := export_start_time e;
     current_form_index := current_form_index e; progress_file := progress_file e;
     state_file := state_file e; remote := remote e |}.

Definition set_stats (v : gmap string nat) (e : Exporter) : Exporter :=
  {| config := config e; folder_cache := folder_cache e; contents_cache := contents_cache e;
     new_folders := new_folders e; stats := v;
     export_cancelled := export_cancelled e; skipped_forms := skipped_forms e;
     uploaded_photos := uploaded_photos e; export_start_time := export_start_time e;
     current_form_index := current_form_index e; progress_file := progress_file e;
     state_file := state_file e; remote := remote e |}.

Definition set_export_cancelled (v : bool) (e : Exporter) : Exporter :=
  {| config := config e; folder_cache := folder_cache e; contents_cache := contents_cache e;
     new_folders := new_folders e; stats := stats e;
     export_cancelled := v; skipped_forms := skipped_forms e;
     uploaded_photos := uploaded_photos e; export_start_time := export_start_time e;
     current_form_index := current_form_index e; progress_file := progress_file e;
     state_file := state_file e; remote := remote e |}.

Definition set_skipped_forms (v : list SkippedForm) (e : Exporter) : Exporter :=
  {| config := config e; folder_cache := folder_cache e; contents_cache := contents_cache e;
     new_folders := new_folders e; stats := stats e;
     export_cancelled := export_cancelled e; skipped_forms := v;
     uploaded_photos := uploaded_photos e; export_start_time := export_start_time e;
     current_form_index := current_form_index e; progress_file := progress_file e;
     state_file := state_file e; remote := remote e |}.

Definition set_uploaded_photos (v : gset string) (e : Exporter) : Exporter :=
  {| config := config e; folder_cache := folder_cache e; contents_cache := contents_cache e;
     new_folders := new_folders e; stats := stats e;
     export_cancelled := export_cancelled e; skipped_forms := skipped_forms e;
     uploaded_photos := v; export_start_time := export_start_time e;
     current_form_index := current_form_index e; progress_file := progress_file e;
     state_file := state_file e; remote := remote e |}.

Definition set_export_start_time (v : option N) (e : Exporter) : Exporter :=
  {| config := config e; folder_cache := folder_cache e; contents_cache := contents_cache e;
     new_folders := new_folders e; stats := stats e;
     export_cancelled := export_cancelled e; skipped_forms := skipped_forms e;
     uploaded_photos := uploaded_photos e; export_start_time := v;
     current_form_index := current_form_index e; progress_file := progress_file e;
     state_file := state_file e; remote := remote e |}.

Definition set_current_form_index (v : nat) (e : Exporter) : Exporter :=
  {| config := config e; folder_cache := folder_cache e; contents_cache := contents_cache e;
     new_folders := new_folders e; stats := stats e;
     export_cancelled := export_cancelled e; skipped_forms := skipped_forms e;
     uploaded_photos := uploaded_photos e; export_start_time := export_start_time e;
     current_form_index := v; progress_file := progress_file e;
     state_file := state_file e; remote := remote e |}.

Definition set_progress_file (v : option (gset string)) (e : Exporter) : Exporter :=
  {| config := config e; folder_cache := folder_cache e; contents_cache := contents_cache e;
     new_folders := new_folders e; stats := stats e;
     export_cancelled := export_cancelled e; skipped_forms := skipped_forms e;
     uploaded_photos := uploaded_photos e; export_start_time := export_start_time e;
     current_form_index := current_form_index e; progress_file := v;
     state_file := state_file e; remote := remote e |}.

Definition set_state_file (v : option ExportState) (e : Exporter) : Exporter :=
  {| config := config e; folder_cache := folder_cache e; contents_cache := contents_cache e;
     new_folders := new_folders e; stats := stats e;
     export_cancelled := export_cancelled e; skipped_forms := skipped_forms e;
     uploaded_photos := uploaded_photos e; export_start_time := export_start_time e;
     current_form_index := current_form_index e; progress_file := progress_file e;
     state_file := v; remote := remote e |}.

Definition set_remote (v : Remote) (e : Exporter) : Exporter :=
  {| config := config e; folder_cache := folder_cache e; contents_cache := contents_cache e;
     new_folders := new_folders e; stats := stats e;
     export_cancelled := export_cancelled e; skipped_forms := skipped_forms e;
     uploaded_photos := uploaded_photos e; export_start_time := export_start_time e;
     current_form_index := current_form_index e; progress_file := progress_file e;
     state_file := state_file e; remote := v |}.

(** ** The outside world *)

(** A network call: it is logged, takes [latency] and uses up one call
    number. *)
Definition net_call (w : World) (ev : Event) (r : Remote) : Remote :=
  {| drive := drive r; tick := S (tick r); now := (now r + latency w (tick r))%N;
     jobs := jobs r; trace := trace r ++ [ev] |}.

Definition with_drive (d : list DriveItem) (r : Remote) : Remote :=
  {| drive := d; tick := tick r; now := now r; jobs := jobs r; trace := trace r |}.

(** [time.sleep]. *)
Definition sleep_ms (ms : N) (r : Remote) : Remote :=
  {| drive := drive r; tick := tick r; now := (now r + ms)%N; jobs := jobs r;
     trace := trace r |}.

Definition next_job (r : Remote) : Remote :=
  {| drive := drive r; tick := tick r; now := now r; jobs := S (jobs r);
     trace := trace r |}.

Definition call (w : World) (ev : Event) (e : Exporter) : Exporter :=
  set_remote (net_call w ev (remote e)) e.

Definition sleep (ms : N) (e : Exporter) : Exporter :=
  set_remote (sleep_ms ms (remote e)) e.

(** The untrashed items whose parent is [folder]. *)
Definition children (folder : string) (d : list DriveItem) : list DriveItem :=
  filter (fun it => item_parent it = folder) d.

Definition remove_item (id : string) (d : list DriveItem) : list DriveItem :=
  filter (fun it => item_id it <> id) d.

(** [d[k] = v] on a dict kept in insertion order. *)
Fixpoint alist_set (k v : string) (m : list (string * string)) : list (string * string) :=
  match m with
  | [] => [(k, v)]
  | (k', v') :: rest =>
      if String.eqb k' k then (k, v) :: rest else (k', v') :: alist_set k v rest
  end.

(** Python truthiness of an optional string. *)
Definition truthy (s : option string) : bool :=
  match s with
  | Some s => negb (String.eqb s "")
  | None => false
  end.

(** [stats[key] += n]. *)
Definition stats_add (key : string) (n : nat) (e : Exporter) : Exporter :=
  set_stats (<[key := default 0 (stats e !! key) + n]> (stats e)) e.

Section Engine.

Context (w : World).

(** ** Target location cache *)

Definition _get_or_create_folder (name parent_id : string) (e : Exporter)
  : string * Exporter :=
  let cache_key := parent_id +:+ "/" +:+ name in
  match folder_cache e !! cache_key with
  | Some id => (id, e)
  | None =>
      let e1 := call w (EvQueryFolder name parent_id) e in
      match List.filter
              (fun it => String.eqb (item_name it) name
                         && String.eqb (item_mime it) folder_mime)
              (children parent_id (drive (remote e1))) with
      | it :: _ =>
          (item_id it,
           set_folder_cache (<[cache_key := item_id it]> (folder_cache e1)) e1)
      | [] =>
          let id := drive_fresh_id w (tick (remote e1)) in
          let e2 := call w (EvCreateFolder parent_id name id) e1 in
          let folder := {| item_id := id; item_name := name;
                           item_mime := folder_mime; item_parent := parent_id |} in
          let e3 := set_remote (with_drive (drive (remote e2) ++ [folder]) (remote e2)) e2 in
          let e4 := set_folder_cache (<[cache_key := id]> (folder_cache e3)) e3 in
          (id, set_new_folders ({[id]} ∪ new_folders e4) e4)
      end
  end.

Definition _list_drive_folder_contents (folder_id : string) (use_cache : bool)
    (e : Exporter) : gset string * Exporter :=
  match (if use_cache then contents_cache e !! folder_id else None) with
  | Some names => (names, e)
  | None =>
      if decide (folder_id ∈ new_folders e) then
        (∅, set_contents_cache (<[folder_id := ∅]> (contents_cache e)) e)
      else
        let e1 := call w (EvList folder_id) e in
        let all_files : gset string :=
          list_to_set (item_name <$> children folder_id (drive (remote e1))) in
        (all_files,
         if use_cache
         then set_contents_cache (<[folder_id := all_files]> (contents_cache e1)) e1
         else e1)
  end.

(** ** Mutations of a Drive folder *)

(** The retry loop of [_upload_to_drive]; [attempt] counts up while
    [remaining] counts the iterations [range(max_retries)] has left. *)
Fixpoint upload_attempts (remaining attempt max_retries : nat)
    (content : list Byte.byte) (filename parent_id mime_type : string)
    (e : Exporter) : bool * Exporter :=
  match remaining with
  | 0 => (false, e)
  | S remaining' =>
      let use_resumable := (5 * 1024 * 1024 <=? N.of_nat (length content))%N in
      let outcome := drive_create_outcome w (tick (remote e)) in
      let id := drive_fresh_id w (tick (remote e)) in
      let e1 := call w (EvCreate parent_id filename mime_type use_resumable outcome) e in
      match outcome with
      | Created =>
          let file := {| item_id := id; item_name := filename;
                         item_mime := mime_type; item_parent := parent_id |} in
          (true, set_remote (with_drive (drive (remote e1) ++ [file]) (remote e1)) e1)
      | HttpError status =>
          if existsb (Nat.eqb status) [429; 403; 500; 503] then
            upload_attempts remaining' (S attempt) max_retries content filename
              parent_id mime_type
              (sleep (1000 * 2 ^ N.of_nat attempt + 500 * N.of_nat attempt)%N e1)
          else (false, e1)
      | ConnError =>
          if attempt <? max_retries - 1 then
            upload_attempts remaining' (S attempt) max_retries content filename
              parent_id mime_type (sleep (1000 * (N.of_nat attempt + 1))%N e1)
          else (false, e1)
      end
  end.

(** The per-thread Drive services ([use_thread_service]) carry no state of
    their own here: every call goes to the one [Remote]. *)
Definition _upload_to_drive (content : list Byte.byte)
    (filename parent_id mime_type : string) (max_retries : nat) (e : Exporter)
  : bool * Exporter :=
  upload_attempts max_retries 0 max_retries content filename parent_id mime_type e.

(** The name-to-id dict [delete_photos_from_drive] builds from the listing. *)
Definition build_file_id_map (filenames_to_delete : gset string)
    (listing : list DriveItem) : list (string * string) :=
  fold_left
    (fun m f =>
       if decide (item_name f ∈ filenames_to_delete)
       then alist_set (item_name f) (item_id f) m else m)
    listing [].

Fixpoint delete_by_id (file_id_map : list (string * string)) (deleted : nat)
    (e : Exporter) : nat * Exporter :=
  match file_id_map with
  | [] => (deleted, e)
  | (filename, file_id) :: rest =>
      let ok := drive_delete_ok w (tick (remote e)) in
      let e1 := call w (EvDelete file_id filename ok) e in
      if ok then
        delete_by_id rest (S deleted)
          (set_remote (with_drive (remove_item file_id (drive (remote e1))) (remote e1)) e1)
      else delete_by_id rest deleted e1
  end.

Definition delete_photos_from_drive (filenames : list string)
    (photos_folder_id : string) (e : Exporter) : nat * Exporter :=
  let filenames_to_delete : gset string := list_to_set filenames in
  let e1 := call w (EvList photos_folder_id) e in
  let file_id_map :=
    build_file_id_map filenames_to_delete
      (children photos_folder_id (drive (remote e1))) in
  let '(deleted, e2) := delete_by_id file_id_map 0 e1 in
  (deleted, set_contents_cache (delete photos_folder_id (contents_cache e2)) e2).

(** The loop of [_clear_folder_contents] over the listed items; [clear] is
    the recursive call on a subfolder. *)
Fixpoint clear_items (clear : string -> Exporter -> option (nat * Exporter))
    (all_items : list DriveItem) (deleted : nat) (e : Exporter)
  : option (nat * Exporter) :=
  match all_items with
  | [] => Some (deleted, e)
  | f :: rest =>
      match (if String.eqb (item_mime f) folder_mime
             then clear (item_id f) e else Some (0, e)) with
      | None => None
      | Some (inner, e1) =>
          let ok := drive_delete_ok w (tick (remote e1)) in
          let e2 := call w (EvDelete (item_id f) (item_name f) ok) e1 in
          if ok then
            clear_items clear rest (S (deleted + inner))
              (set_remote
                 (with_drive (remove_item (item_id f) (drive (remote e2))) (remote e2)) e2)
          else clear_items clear rest (deleted + inner) e2
      end
  end.

(** [_clear_folder_contents] recurses into subfolders; [fuel] bounds the
    nesting depth and [None] means it ran out. *)
Fixpoint _clear_folder_contents (fuel : nat) (folder_id : string) (e : Exporter)
  : option (nat * Exporter) :=
  match fuel with
  | 0 => None
  | S fuel' =>
      let e1 := call w (EvList folder_id) e in
      let all_items := children folder_id (drive (remote e1)) in
      match clear_items (_clear_folder_contents fuel') all_items 0 e1 with
      | None => None
      | Some (deleted, e2) =>
          Some (deleted,
                set_contents_cache (delete folder_id (contents_cache e2)) e2)
      end
  end.

(** ** Orphan reconciler *)

(** The loop of [identify_orphaned_photos] over the listed names. *)
Fixpoint orphan_scan (valid_photo_ids : gset string) (existing_in_drive : list string)
  : list string :=
  match existing_in_drive with
  | [] => []
  | filename :: rest =>
      if has_char "." filename then
        let photo_id := rsplit1_head "." filename in
        if decide (photo_id ∈ valid_photo_ids)
        then orphan_scan valid_photo_ids rest
        else filename :: orphan_scan valid_photo_ids rest
      else orphan_scan valid_photo_ids rest
  end.

Definition identify_orphaned_photos (photos_folder_id : string)
    (photo_metadata_cache : gmap string PhotoData) (e : Exporter)
  : list string * Exporter :=
  let '(existing_in_drive, e1) := _list_drive_folder_contents photos_folder_id true e in
  if decide (existing_in_drive = ∅) then ([], e1)
  else (orphan_scan (dom photo_metadata_cache) (elements existing_in_drive), e1).

(** ** Approval gate *)

Inductive approval_response := Approve | Skip | End_ | Timeout_.

Inductive cleanup_action := Approved | Skipped | Ended.

Definition send_slack_message (note : SlackNote) (e : Exporter)
  : option string * Exporter :=
  if slack_enabled (config e) then
    let ts := slack_post w (tick (remote e)) in
    (ts, call w (EvSlackSend note ts) e)
  else (None, e).

Definition get_slack_messages_since (oldest_ts : string) (e : Exporter)
  : list SlackMsg * Exporter :=
  if slack_enabled (config e) then
    (slack_history w (tick (remote e)), call w (EvSlackPoll oldest_ts) e)
  else ([], e).

(** The [for msg in messages] loop of [wait_for_slack_approval]: the first
    qualifying reply, if any. *)
Fixpoint scan_replies (message_ts : string) (messages : list SlackMsg)
  : option approval_response :=
  match messages with
  | [] => None
  | msg :: rest =>
      if msg_bot msg || String.eqb (msg_ts msg) message_ts then
        scan_replies message_ts rest
      else
        let text := lower (strip (msg_text msg)) in
        if str_in text ["y"; "yes"] then Some Approve
        else if str_in text ["s"; "skip"] then Some Skip
        else if str_in text ["e"; "end"] then Some End_
        else scan_replies message_ts rest
  end.

Definition poll_interval_ms : N := 5000.

(** The [while time.time() - start_time < timeout_seconds] loop.  Every
    iteration sleeps [poll_interval], so [fuel] iterations suffice once
    [fuel * poll_interval] exceeds the timeout. *)
Fixpoint wait_polls (fuel : nat) (start_time timeout_ms : N) (message_ts : string)
    (e : Exporter) : approval_response * Exporter :=
  if (now (remote e) - start_time <? timeout_ms)%N then
    match fuel with
    | 0 => (Timeout_, e)
    | S fuel' =>
        let '(messages, e1) := get_slack_messages_since message_ts e in
        match scan_replies message_ts messages with
        | Some r => (r, e1)
        | None =>
            wait_polls fuel' start_time timeout_ms message_ts
              (sleep poll_interval_ms e1)
        end
    end
  else (Timeout_, e).

Definition wait_for_slack_approval (message_ts : string) (timeout_minutes : nat)
    (e : Exporter) : approval_response * Exporter :=
  if negb (slack_enabled (config e)) then (Approve, e)
  else
    let start_time := now (remote e) in
    let timeout_seconds := timeout_minutes * 60 in
    wait_polls (timeout_seconds / 5 + 1) start_time (N.of_nat timeout_seconds * 1000)%N
      message_ts e.

Definition record_skipped (form reason : string) (photos : nat) (e : Exporter)
  : Exporter :=
  set_skipped_forms
    (skipped_forms e ++ [{| sf_form := form; sf_reason := reason; sf_photos := photos |}])
    e.

(** [deleted_count = self.delete_photos_from_drive(...); return deleted_count, 'approved'],
    the tail shared by every approving path of [cleanup_deleted_photos]. *)
Definition delete_approved (orphaned_files : list string) (photos_folder_id : string)
    (e : Exporter) : (nat * cleanup_action) * Exporter :=
  let '(deleted_count, e') :=
    delete_photos_from_drive orphaned_files photos_folder_id e in
  ((deleted_count, Approved), e').

Definition cleanup_deleted_photos (photos_folder_id : string)
    (photo_metadata_cache : gmap string PhotoData) (form_name : string)
    (e : Exporter) : (nat * cleanup_action) * Exporter :=
  let '(orphaned_files, e1) :=
    identify_orphaned_photos photos_folder_id photo_metadata_cache e in
  let n := length orphaned_files in
  match orphaned_files with
  | [] => ((0, Approved), e1)
  | _ :: _ =>
      if skip_deletions (config e1) then ((0, Skipped), e1)
      else if auto_delete (config e1) then
        delete_approved orphaned_files photos_folder_id
          (snd (send_slack_message (NoteAutoDelete n form_name) e1))
      else if decide (form_name ∈ pre_approved_forms (config e1)) then
        delete_approved orphaned_files photos_folder_id
          (snd (send_slack_message (NotePreApproved n form_name) e1))
      else if slack_enabled (config e1) then
        let '(msg_ts, e2) :=
          send_slack_message (NoteApprovalRequired form_name n) e1 in
        if truthy msg_ts then
          let '(response, e3) := wait_for_slack_approval (default "" msg_ts) 5 e2 in
          match response with
          | Skip =>
              let e4 := record_skipped form_name "user requested" n e3 in
              ((0, Skipped), snd (send_slack_message (NoteSkipped form_name) e4))
          | End_ =>
              let e4 := snd (send_slack_message NoteEnded e3) in
              ((0, Ended), set_export_cancelled true e4)
          | Timeout_ =>
              let e4 := record_skipped form_name "no response" n e3 in
              ((0, Skipped), snd (send_slack_message (NoteTimeout form_name n) e4))
          | Approve =>
              delete_approved orphaned_files photos_folder_id
                (snd (send_slack_message (NoteDeleting n form_name) e3))
          end
        else delete_approved orphaned_files photos_folder_id e2
      else delete_approved orphaned_files photos_folder_id e1
  end.

(** ** Asset transfer pipeline *)

(** [(content, ext, error, photo_data)], each [None] as in the source. *)
Definition Download : Type :=
  option (list Byte.byte) * option string * option string * option PhotoData.

Definition download_failed (error : string) : Download :=
  (None, None, Some error, None).

(** The three metadata checks shared by both download functions. *)
Definition validate_photo (photo_data : PhotoData) : option string :=
  if truthy (deleted_at photo_data) then Some "Photo deleted"
  else if negb (stored photo_data) then Some "Photo not stored"
  else if negb (processed photo_data) then Some "Photo not processed"
  else None.

(** [ext = 'png' if 'png' in content_type else 'jpg']. *)
Definition ext_of (content_type : string) : string :=
  if str_contains "png" content_type then "png" else "jpg".

Definition retries_exhausted (max_retries : nat) (last_error : option string)
  : Download :=
  download_failed
    ("SSL/Connection error after " +:+ pretty max_retries +:+ " retries: "
     +:+ default "None" last_error).

(** The [for attempt in range(max_retries)] loop of
    [download_photo_with_metadata]. *)
Fixpoint direct_download_attempts (remaining attempt max_retries : nat)
    (last_error : option string) (photo_id ext : string) (photo_data : PhotoData)
    (e : Exporter) : Download * Exporter :=
  match remaining with
  | 0 => (retries_exhausted max_retries last_error, e)
  | S remaining' =>
      let response := source_photo w photo_id (tick (remote e)) in
      let e1 := call w (EvFetchPhoto photo_id) e in
      match response with
      | FetchOk content => ((Some content, Some ext, None, Some photo_data), e1)
      | FetchConnError msg =>
          direct_download_attempts remaining' (S attempt) max_retries (Some msg)
            photo_id ext photo_data
            (if attempt <? max_retries - 1 then sleep (1000 * (N.of_nat attempt + 1))%N e1 else e1)
      | FetchError msg => (download_failed msg, e1)
      end
  end.

Definition download_photo_with_metadata (photo_id : string) (photo_data : PhotoData)
    (max_retries : nat) (e : Exporter) : Download * Exporter :=
  match validate_photo photo_data with
  | Some reason => (download_failed reason, e)
  | None =>
      let ext := ext_of (content_type photo_data) in
      direct_download_attempts max_retries 0 max_retries None photo_id ext photo_data e
  end.

(** The loop of [download_photo_to_memory]: metadata first, then the
    bytes, both inside one [try]. *)
Fixpoint fallback_download_attempts (remaining attempt max_retries : nat)
    (last_error : option string) (photo_id : string) (e : Exporter)
  : Download * Exporter :=
  match remaining with
  | 0 => (retries_exhausted max_retries last_error, e)
  | S remaining' =>
      let retry (msg : string) (e1 : Exporter) :=
        fallback_download_attempts remaining' (S attempt) max_retries (Some msg)
          photo_id
          (if attempt <? max_retries - 1 then sleep (1000 * (N.of_nat attempt + 1))%N e1 else e1) in
      let meta := source_meta w photo_id (tick (remote e)) in
      let e1 := call w (EvFetchMeta photo_id) e in
      match meta with
      | FetchOk photo_data =>
          match validate_photo photo_data with
          | Some reason => (download_failed reason, e1)
          | None =>
              let ext := ext_of (content_type photo_data) in
              let response := source_photo w photo_id (tick (remote e1)) in
              let e2 := call w (EvFetchPhoto photo_id) e1 in
              match response with
              | FetchOk content =>
                  ((Some content, Some ext, None, Some photo_data), e2)
              | FetchConnError msg => retry msg e2
              | FetchError msg => (download_failed msg, e2)
              end
          end
      | FetchConnError msg => retry msg e1
      | FetchError msg => (download_failed msg, e1)
      end
  end.

Definition download_photo_to_memory (photo_id : string) (max_retries : nat)
    (e : Exporter) : Download * Exporter :=
  fallback_download_attempts max_retries 0 max_retries None photo_id e.

(** ** Checkpoint store: the transferred-photo set *)

(** The write is taken to succeed; a failed write is only logged. *)
Definition _save_photo_progress (e : Exporter) : Exporter :=
  set_progress_file (Some (uploaded_photos e)) e.

Definition _record_photo_uploaded (photo_id : string) (e : Exporter) : Exporter :=
  let e1 := set_uploaded_photos ({[photo_id]} ∪ uploaded_photos e) e in
  if size (uploaded_photos e1) mod 100 =? 0 then _save_photo_progress e1 else e1.

Definition _is_photo_uploaded (photo_id : string) (e : Exporter) : bool :=
  bool_decide (photo_id ∈ uploaded_photos e).

(** [photo['error'] = error; photo['success'] = False]. *)
Definition mark_failed (error_text : string) (photo : Photo) : Photo :=
  {| photo_id := photo_id photo; record_id := record_id photo;
     field_path := field_path photo; caption := caption photo;
     success := Some false; error := Some error_text;
     photo_data := photo_data photo; filename := filename photo |}.

Definition mark_success (data : option PhotoData) (name : string) (photo : Photo)
  : Photo :=
  {| photo_id := photo_id photo; record_id := record_id photo;
     field_path := field_path photo; caption := caption photo;
     success := Some true; error := error photo;
     photo_data := data; filename := Some name |}.

(** [result.get('success', False)]. *)
Definition succeeded (photo : Photo) : bool := default false (success photo).

(** A job of the worker pool.  When the download reports an empty error
    text with no content, the source goes on to [len(None)], which raises
    inside the job; the dispatcher then records the exception text. *)
Definition _process_single_photo (photo : Photo) (photos_folder_id : string)
    (photo_metadata_cache : gmap string PhotoData) (e : Exporter)
  : Photo * Exporter :=
  let id := photo_id photo in
  let '((content, ext, error_text, data), e1) :=
    match photo_metadata_cache !! id with
    | Some cached => download_photo_with_metadata id cached 3 e
    | None => download_photo_to_memory id 3 e
    end in
  if truthy error_text then (mark_failed (default "" error_text) photo, e1)
  else
    match content, ext with
    | Some content, Some ext =>
        let name := id +:+ "." +:+ ext in
        let mime_type := if String.eqb ext "png" then "image/png" else "image/jpeg" in
        let '(ok, e2) := _upload_to_drive content name photos_folder_id mime_type 3 e1 in
        if ok then (mark_success data name photo, _record_photo_uploaded id e2)
        else (mark_failed "Upload failed" photo, e2)
    | _, _ =>
        (mark_failed "object of type 'NoneType' has no len()" photo, e1)
    end.

Definition stalled_text : string := "Stalled (worker hung)".

(** A job that was still running at the deadline: the dispatcher has marked
    the dict failed, and the job, finishing later, writes its own keys over
    that (a success leaves the ['error'] key of the dispatcher in place). *)
Definition overwrite_stalled (job_result : Photo) : Photo :=
  if succeeded job_result then
    {| photo_id := photo_id job_result; record_id := record_id job_result;
       field_path := field_path job_result; caption := caption job_result;
       success := success job_result; error := Some stalled_text;
       photo_data := photo_data job_result; filename := filename job_result |}
  else job_result.

(** What the dispatcher of [_download_and_upload_photos] collects for one
    submitted job: the dict it appends to [all_results] and whether it also
    appends it to [failed].  The jobs are run one after the other in
    submission order; [pool_dispatch] says which of them the dispatcher saw
    complete. *)
Definition collect_job (photo : Photo) (photos_folder_id : string)
    (photo_metadata_cache : gmap string PhotoData) (e : Exporter)
  : Photo * bool * Exporter :=
  let status := pool_dispatch w (jobs (remote e)) in
  let e0 := set_remote (next_job (remote e)) e in
  match status with
  | Completed =>
      let '(result, e1) :=
        _process_single_photo photo photos_folder_id photo_metadata_cache e0 in
      (result, negb (succeeded result), e1)
  | StalledRunning =>
      let '(result, e1) :=
        _process_single_photo photo photos_folder_id photo_metadata_cache e0 in
      (overwrite_stalled result, true, e1)
  | Cancelled => (mark_failed stalled_text photo, true, e0)
  end.

(** Returns [(all_results, failed)]. *)
Fixpoint _download_and_upload_photos (photos : list Photo) (photos_folder_id : string)
    (photo_metadata_cache : gmap string PhotoData) (e : Exporter)
  : (list Photo * list Photo) * Exporter :=
  match photos with
  | [] => (([], []), e)
  | photo :: rest =>
      let '(entry, is_failed, e1) :=
        collect_job photo photos_folder_id photo_metadata_cache e in
      let '((all_results, failed), e2) :=
        _download_and_upload_photos rest photos_folder_id photo_metadata_cache e1 in
      ((entry :: all_results, if is_failed then entry :: failed else failed), e2)
  end.

(** One iteration of the retry loop of [export_form], kept for the
    record: what was submitted and what came back failed. *)
Record RetryRound := {
  rr_submitted : list Photo;
  rr_still_failed : list Photo
}.

Record Transfer := {
  tr_uploaded : nat;
  tr_failed_photos : list Photo;
  tr_all_photo_results : list Photo;
  tr_rounds : list RetryRound
}.

(** The [while failed_photos and retry_count < 3] loop; [remaining] is
    [3 - retry_count].  On [break] the list [failed_photos] is not
    reassigned: it still holds the dicts submitted to this round, as this
    round left them, which is [retry_results]. *)
Fixpoint retry_failed (remaining retry_count previous_failed_count uploaded : nat)
    (failed_photos all_photo_results : list Photo) (rounds : list RetryRound)
    (photos_folder_id : string) (photo_metadata_cache : gmap string PhotoData)
    (e : Exporter) : Transfer * Exporter :=
  match failed_photos, remaining with
  | [], _ | _, 0 =>
      ({| tr_uploaded := uploaded; tr_failed_photos := failed_photos;
          tr_all_photo_results := all_photo_results; tr_rounds := rounds |}, e)
  | _ :: _, S remaining' =>
      let retry_count := S retry_count in
      let '((retry_results, still_failed), e1) :=
        _download_and_upload_photos failed_photos photos_folder_id
          photo_metadata_cache e in
      let newly_uploaded := length failed_photos - length still_failed in
      let uploaded := uploaded + newly_uploaded in
      let all_photo_results :=
        all_photo_results ++ List.filter succeeded retry_results in
      let rounds :=
        rounds ++ [{| rr_submitted := failed_photos; rr_still_failed := still_failed |}] in
      if previous_failed_count <=? length still_failed then
        if 2 <=? retry_count then
          ({| tr_uploaded := uploaded; tr_failed_photos := retry_results;
              tr_all_photo_results := all_photo_results; tr_rounds := rounds |}, e1)
        else
          retry_failed remaining' retry_count previous_failed_count uploaded
            still_failed all_photo_results rounds photos_folder_id
            photo_metadata_cache e1
      else
        retry_failed remaining' retry_count (length still_failed) uploaded
          still_failed all_photo_results rounds photos_folder_id
          photo_metadata_cache e1
  end.

(** [if photos_to_download: ...] of [export_form]: the first attempt and
    the retry loop. *)
Definition transfer_photos (photos_to_download : list Photo) (photos_folder_id : string)
    (photo_metadata_cache : gmap string PhotoData) (e : Exporter)
  : Transfer * Exporter :=
  match photos_to_download with
  | [] =>
      ({| tr_uploaded := 0; tr_failed_photos := []; tr_all_photo_results := [];
          tr_rounds := [] |}, e)
  | _ :: _ =>
      let '((all_photo_results, failed_photos), e1) :=
        _download_and_upload_photos photos_to_download photos_folder_id
          photo_metadata_cache e in
      let uploaded := length photos_to_download - length failed_photos in
      retry_failed 3 0 (length failed_photos) uploaded failed_photos
        all_photo_results [] photos_folder_id photo_metadata_cache e1
  end.

(** The skip rule of [export_form]: is the photo still to be downloaded? *)
Definition to_download (existing_photos : gset string) (e : Exporter) (photo : Photo)
  : bool :=
  let id := photo_id photo in
  if bool_decide (id +:+ ".jpg" ∈ existing_photos)
     || bool_decide (id +:+ ".png" ∈ existing_photos) then false
  else if _is_photo_uploaded id e then false
  else true.

(** What [export_form] returns, as far as the photos go. *)
Record FormResult := {
  fr_form : string;
  fr_photos_uploaded : nat;
  fr_photos_skipped : nat;
  fr_photos_failed : nat;
  fr_photos_deleted : nat;
  fr_export_ended : bool
}.

Record PhotoPhase := {
  pp_backlog : list Photo;
  pp_transfer : Transfer;
  pp_result : FormResult
}.

(** The photo part of [export_form] for a form that has records: the
    photos folder, the skip rule, the orphan cleanup, the transfer with its
    retries and the counters.  [all_photos] is what [extract_photo_ids]
    found in the records and [photo_metadata_cache] what
    [get_photos_metadata_batch] returned.  The CSV, GeoJSON and summary
    uploads of the same function go to other folders and are left out. *)
Definition export_form_photos (form_name form_folder_id : string)
    (all_photos : list Photo) (photo_metadata_cache : gmap string PhotoData)
    (e : Exporter) : PhotoPhase * Exporter :=
  let '(photos_folder_id, e1) := _get_or_create_folder "photos" form_folder_id e in
  let '(existing_photos, e2) := _list_drive_folder_contents photos_folder_id true e1 in
  let photos_to_download := List.filter (to_download existing_photos e2) all_photos in
  let skipped := length all_photos - length photos_to_download in
  let '((deleted_count, cleanup), e3) :=
    cleanup_deleted_photos photos_folder_id photo_metadata_cache form_name e2 in
  match cleanup with
  | Ended =>
      ({| pp_backlog := photos_to_download;
          pp_transfer := {| tr_uploaded := 0; tr_failed_photos := [];
                            tr_all_photo_results := []; tr_rounds := [] |};
          pp_result := {| fr_form := form_name; fr_photos_uploaded := 0;
                          fr_photos_skipped := skipped; fr_photos_failed := 0;
                          fr_photos_deleted := 0; fr_export_ended := true |} |}, e3)
  | _ =>
      let '(transfer, e4) :=
        transfer_photos photos_to_download photos_folder_id photo_metadata_cache e3 in
      let failed := length (tr_failed_photos transfer) in
      let e5 :=
        stats_add "photos_deleted" deleted_count
          (stats_add "photos_failed" failed
             (stats_add "photos_skipped" skipped
                (stats_add "photos_uploaded" (tr_uploaded transfer)
                   (stats_add "forms_processed" 1 e4)))) in
      ({| pp_backlog := photos_to_download; pp_transfer := transfer;
          pp_result := {| fr_form := form_name;
                          fr_photos_uploaded := tr_uploaded transfer;
                          fr_photos_skipped := skipped; fr_photos_failed := failed;
                          fr_photos_deleted := deleted_count;
                          fr_export_ended := false |} |}, e5)
  end.

End Engine.

(** ** Checkpoint store: the export state *)

(** 5 hours 45 minutes. *)
Definition WORKFLOW_TIMEOUT_SECONDS : N := 5 * 60 * 60 + 45 * 60.

Definition _check_timeout (e : Exporter) : bool :=
  match export_start_time e with
  | None => false
  | Some start => (WORKFLOW_TIMEOUT_SECONDS * 1000 <=? now (remote e) - start)%N
  end.

(** Both writes are taken to succeed; a failed write is only logged. *)
Definition _save_export_state (form_index total_forms : nat) (e : Exporter) : Exporter :=
  let state := {| es_form_index := form_index; es_total_forms := total_forms;
                  es_stats := stats e; es_needs_continuation := true |} in
  _save_photo_progress (set_state_file (Some state) e).

Definition _load_export_state (e : Exporter) : option ExportState :=
  match state_file e with
  | Some state => if es_needs_continuation state then Some state else None
  | None => None
  end.

Definition _load_photo_progress (e : Exporter) : Exporter :=
  match progress_file e with
  | Some ids => set_uploaded_photos ids e
  | None => e
  end.

Definition _clear_export_state (e : Exporter) : Exporter :=
  set_progress_file None (set_state_file None e).

(** [for key in prev_stats: if key in self.stats: self.stats[key] = prev_stats[key]]. *)
Definition restore_stats (prev_stats current : gmap string nat) : gmap string nat :=
  map_imap (fun key v => Some (default v (prev_stats !! key))) current.

(** ** Orchestrator *)

(** [c.isalnum()] for a character of ASCII. *)
Definition is_alnum (c : ascii) : bool :=
  let n := nat_of_ascii c in
  ((48 <=? n) && (n <=? 57)) || ((65 <=? n) && (n <=? 90))
  || ((97 <=? n) && (n <=? 122)).

(** The folder name of a form: the sanitized name and the form id.  A
    name in ASCII is sanitized as in the source; of a character outside
    ASCII, which the source keeps when it is a letter or a digit and
    replaces by one underscore otherwise, every byte is replaced. *)
Fixpoint sanitize (s : string) : string :=
  match s with
  | EmptyString => EmptyString
  | String c r =>
      String (if is_alnum c || existsb (Ascii.eqb c) [" "; "-"; "_"]%char
              then c else "_"%char)
             (sanitize r)
  end.

Definition safe_name (form : Form) : string :=
  sanitize (form_name form) +:+ "_" +:+ form_id form.

(** What a call of [export_form] comes to: its result dict, an
    [ssl.SSLError] or [OSError], or another exception. *)
Inductive FormOutcome :=
| FormOk (result : FormResult)
| FormConnError (msg : string)
| FormError (msg : string).

(** The collaborators of [export_all] that are taken as they come:
    credential handling, the forms query, the folder preload, the layer
    export and the export of one form.  [get_forms] answers [None] when the
    query raises. *)
Record Pipeline := {
  init_google_drive : Exporter -> bool * Exporter;
  _preload_existing_folders : Exporter -> Exporter;
  export_layers : Exporter -> Exporter;
  get_forms : option string -> Exporter -> option (list Form) * Exporter;
  export_form : Form -> Exporter -> FormOutcome * Exporter;
  _refresh_drive_token_if_needed : bool -> Exporter -> Exporter
}.

(** How the loop over the forms was left. *)
Inductive LoopExit :=
| Exhausted
| TimeoutBreak (form_index : nat)
| CancelledBreak (form_index : nat)
| EndedBreak (form_index : nat).

(** What the loop did with a form it did not skip as already processed. *)
Inductive RunStep :=
| QuickChecked (form_index : nat) (form : Form)
| Exported (form_index : nat) (form : Form) (attempts : list FormOutcome).



Inductive RunStatus := InitFailed | QueryFailed | Paused | EndedEarly | Complete.

Record RunReport := {
  rp_start_form_index : nat;
  rp_restored_stats : gmap string nat;   (* the counters once the checkpoint is loaded *)
  rp_forms : list Form;
  rp_exit : option LoopExit;
  rp_timeout_triggered : bool;
  rp_steps : list RunStep;
  rp_status : RunStatus;
  rp_cleared : bool                      (* was [_clear_export_state] called *)
}.

Section Orchestrator.

Context (w : World) (pl : Pipeline).

(** The [for attempt in range(3)] loop around [export_form]: the outcomes
    of the attempts made, the value of [result] and the exporter. *)
Fixpoint export_form_attempts (remaining attempt : nat) (form : Form) (e : Exporter)
  : list FormOutcome * option FormResult * Exporter :=
  match remaining with
  | 0 => ([], None, e)
  | S remaining' =>
      let '(outcome, e1) := export_form pl form e in
      match outcome with
      | FormOk result => ([outcome], Some result, e1)
      | FormConnError _ =>
          let e2 :=
            if attempt <? 2
            then _refresh_drive_token_if_needed pl true (sleep (5000 * (N.of_nat attempt + 1))%N e1)
            else e1 in
          let '(later, result, e3) := export_form_attempts remaining' (S attempt) form e2 in
          (outcome :: later, result, e3)
      | FormError _ => ([outcome], None, e1)
      end
  end.

(** The [for idx, form in enumerate(forms, 1)] loop; [index] is [idx - 1]
    for the head of [forms].  Returns how the loop ended, the value of
    [timeout_triggered] and the steps taken. *)
Fixpoint export_loop (start_form_index total index : nat) (forms : list Form)
    (steps : list RunStep) (e : Exporter)
  : (LoopExit * bool * list RunStep) * Exporter :=
  match forms with
  | [] => ((Exhausted, false, steps), e)
  | form :: rest =>
      if index <? start_form_index then
        export_loop start_form_index total (S index) rest steps e
      else
        let e1 := set_current_form_index index e in
        if _check_timeout e1 then
          let e2 := _save_export_state index total e1 in
          let e3 :=
            snd (send_slack_message w (NotePaused index total (total - index)) e2) in
          ((TimeoutBreak index, true, steps), e3)
        else
          let e2 := _refresh_drive_token_if_needed pl false e1 in
          if export_cancelled e2 then ((CancelledBreak index, false, steps), e2)
          else
            let parent_id :=
              if form_is_active form then active_forms_id (config e2)
              else inactive_forms_id (config e2) in
            let cache_key := parent_id +:+ "/" +:+ safe_name form in
            if quick_check (config e2)
               && bool_decide (is_Some (folder_cache e2 !! cache_key)) then
              export_loop start_form_index total (S index) rest
                (steps ++ [QuickChecked index form])
                (stats_add "forms_processed" 1 e2)
            else
              let '(attempts, result, e3) := export_form_attempts 3 0 form e2 in
              let steps := steps ++ [Exported index form attempts] in
              match result with
              | Some r =>
                  if fr_export_ended r then ((EndedBreak index, false, steps), e3)
                  else export_loop start_form_index total (S index) rest steps e3
              | None => export_loop start_form_index total (S index) rest steps e3
              end
  end.

Definition export_all (since_date : option string) (test_mode : bool)
    (max_forms : nat) (e : Exporter) : RunReport * Exporter :=
  let e := set_export_start_time (Some (now (remote e))) e in
  let previous_state := _load_export_state e in
  let start_form_index :=
    match previous_state with
    | Some state => es_form_index state
    | None => 0
    end in
  let e :=
    match previous_state with
    | Some state =>
        let e := set_stats (restore_stats (es_stats state) (stats e)) e in
        snd (send_slack_message w (NoteResuming start_form_index) e)
    | None => snd (send_slack_message w NoteStarted e)
    end in
  let restored := stats e in
  let e := _load_photo_progress e in
  let '(ok, e) := init_google_drive pl e in
  if negb ok then
    ({| rp_start_form_index := start_form_index; rp_restored_stats := restored;
        rp_forms := []; rp_exit := None; rp_timeout_triggered := false;
        rp_steps := []; rp_status := InitFailed; rp_cleared := false |}, e)
  else
    let e := _preload_existing_folders pl e in
    let e := if start_form_index =? 0 then export_layers pl e else e in
    let '(forms, e) := get_forms pl since_date e in
    match forms with
    | None =>
        ({| rp_start_form_index := start_form_index; rp_restored_stats := restored;
            rp_forms := []; rp_exit := None; rp_timeout_triggered := false;
            rp_steps := []; rp_status := QueryFailed; rp_cleared := false |}, e)
    | Some forms =>
        let forms := if test_mode then firstn max_forms forms else forms in
        let '((exit, timeout_triggered, steps), e) :=
          export_loop start_form_index (length forms) 0 forms [] e in
        let e := _save_photo_progress e in
        let status :=
          if timeout_triggered then Paused
          else if export_cancelled e then EndedEarly
          else Complete in
        let e :=
          match status with
          | Complete => _clear_export_state e
          | _ => e
          end in
        let e :=
          snd (send_slack_message w
                 (NoteFinal (match status with
                             | Paused => "Export Paused"
                             | EndedEarly => "Export Ended Early"
                             | _ => "Export Complete"
                             end)) e) in
        ({| rp_start_form_index := start_form_index; rp_restored_stats := restored;
            rp_forms := forms; rp_exit := Some exit;
            rp_timeout_triggered := timeout_triggered; rp_steps := steps;
            rp_status := status;
            rp_cleared := match status with Complete => true | _ => false end |}, e)
    end.

End Orchestrator.

(** ** Scenarios *)

(** A world in which every call succeeds at once and nobody answers on
    Slack. *)
Definition quiet_world : World :=
  {| drive_create_outcome := fun _ => Created;
     drive_delete_ok := fun _ => true;
     drive_fresh_id := fun n => "id" +:+ pretty n;
     source_photo := fun _ _ => FetchOk [];
     source_meta := fun _ _ => FetchError "404";
     pool_dispatch := fun _ => Completed;
     slack_post := fun _ => Some "100.0";
     slack_history := fun _ => [];
     latency := fun _ => 0%N |}.

Definition plain_config : Config :=
  {| skip_deletions := false; auto_delete := false; quick_check := false;
     slack_enabled := false; pre_approved_forms := ∅;
     active_forms_id := "active"; inactive_forms_id := "inactive" |}.

Definition initial_stats : gmap string nat :=
  list_to_map
    [("forms_processed", 0); ("photos_uploaded", 0); ("photos_skipped", 0);
     ("photos_failed", 0); ("photos_deleted", 0); ("geojson_uploaded", 0);
     ("total_records", 0); ("layers_uploaded", 0)].

(** The exporter as [__init__] leaves it, next to a given Drive. *)
Definition new_exporter (cfg : Config) (d : list DriveItem) : Exporter :=
  {| config := cfg; folder_cache := ∅; contents_cache := ∅; new_folders := ∅;
     stats := initial_stats; export_cancelled := false; skipped_forms := [];
     uploaded_photos := ∅; export_start_time := None; current_form_index := 0;
     progress_file := None; state_file := None;
     remote := {| drive := d; tick := 0; now := 0%N; jobs := 0; trace := [] |} |}.

Definition image (id name parent : string) : DriveItem :=
  {| item_id := id; item_name := name; item_mime := "image/jpeg";
     item_parent := parent |}.

Definition meta_ok (ctype : string) : PhotoData :=
  {| deleted_at := None; stored := true; processed := true; content_type := ctype |}.

Definition photo_ref (id : string) : Photo :=
  {| photo_id := id; record_id := "r1"; field_path := "photos[0]"; caption := "";
     success := None; error := None; photo_data := None; filename := None |}.

Definition abc_drive : list DriveItem :=
  [image "1" "A.jpg" "P"; image "2" "B.jpg" "P"; image "3" "C.png" "P"].

Definition abc_metadata : gmap string PhotoData :=
  {[ "A" := meta_ok "image/jpeg"; "C" := meta_ok "image/png" ]}.

(** ** Observations on the trace *)

(** The events [e'] has logged beyond those of [e]. *)
Definition emitted (e e' : Exporter) : list Event :=
  drop (length (trace (remote e))) (trace (remote e')).

Definition count_events (P : Event -> bool) (evs : list Event) : nat :=
  length (List.filter P evs).

(** [name] is one of the two deterministic keys of the asset [id]. *)
Definition is_key_of (id name : string) : bool :=
  String.eqb name (id +:+ ".jpg") || String.eqb name (id +:+ ".png").

(** A call of the object-creation endpoint for a key of [id] in [folder]. *)
Definition create_call_of (folder id : string) (ev : Event) : bool :=
  match ev with
  | EvCreate p n _ _ _ => String.eqb p folder && is_key_of id n
  | _ => false
  end.

(** Such a call that created the object. *)
Definition creation_of (folder id : string) (ev : Event) : bool :=
  match ev with
  | EvCreate p n _ _ Created => String.eqb p folder && is_key_of id n
  | _ => false
  end.

(** Any network work for the asset [id]: a fetch of its metadata or bytes,
    or a creation call for one of its keys. *)
Definition work_on (folder id : string) (ev : Event) : bool :=
  match ev with
  | EvFetchMeta i | EvFetchPhoto i => String.eqb i id
  | EvCreate p n _ _ _ => String.eqb p folder && is_key_of id n
  | _ => false
  end.

Definition is_delete (ev : Event) : bool :=
  match ev with
  | EvDelete _ _ _ => true
  | _ => false
  end.

(** How many of the photo dicts carry the id. *)
Definition occurrences (id : string) (photos : list Photo) : nat :=
  length (List.filter (fun p => String.eqb (photo_id p) id) photos).

(** The metadata marks the asset deleted, not stored or not processed. *)
Definition terminal (cache : gmap string PhotoData) (photo : Photo) : Prop :=
  exists data reason,
    cache !! photo_id photo = Some data /\ validate_photo data = Some reason.

(** [e'] has logged exactly [evs] beyond the events of [e]. *)
Definition emits (e e' : Exporter) (evs : list Event) : Prop :=
  trace (remote e') = trace (remote e) ++ evs.

Definition is_created (ev : Event) : bool :=
  match ev with
  | EvCreate _ _ _ _ Created => true
  | _ => false
  end.

(** The event is network work of the transfer of the asset [id]. *)
Definition about (folder id : string) (ev : Event) : Prop :=
  match ev with
  | EvFetchMeta i | EvFetchPhoto i => i = id
  | EvCreate p n _ _ _ => p = folder /\ (n = id +:+ ".jpg" \/ n = id +:+ ".png")
  | _ => False
  end.

(** The event is no fetch from the source and no object creation. *)
Definition no_transfer (ev : Event) : Prop :=
  match ev with
  | EvFetchMeta _ | EvFetchPhoto _ | EvCreate _ _ _ _ _ => False
  | _ => True
  end.

(** [data] is the metadata the pipeline consults for the asset: the entry
    of the batch metadata, or else an answer of the source to the
    per-photo query. *)
Definition consulted (w : World) (cache : gmap string PhotoData) (id : string)
    (data : PhotoData) : Prop :=
  cache !! id = Some data
  \/ (cache !! id = None /\ exists t, source_meta w id t = FetchOk data).

(** The shape of the retry rounds run from a loop state with [retry_count]
    rounds behind it and [failed_photos] pending: each round submits what
    the round before left failed, and a round that is at least the second
    and brings the failure count no lower is the last one. *)
Fixpoint rounds_ok (retry_count : nat) (failed_photos : list Photo)
    (rounds : list RetryRound) : Prop :=
  match rounds with
  | [] => True
  | r :: rest =>
      rr_submitted r = failed_photos
      /\ length (rr_still_failed r) <= length failed_photos
      /\ (1 <= retry_count ->
          length failed_photos <= length (rr_still_failed r) -> rest = [])
      /\ rounds_ok (S retry_count) (rr_still_failed r) rest
  end.

(** The events of the orphan cleanup: listings, Slack traffic, and
    deletions of files named in [names]. *)
Definition gate_event (names : list string) (ev : Event) : Prop :=
  match ev with
  | EvList _ | EvSlackSend _ _ | EvSlackPoll _ => True
  | EvDelete _ name _ => name ∈ names
  | _ => False
  end.

(** From [e] to [e'] only events of the orphan cleanup were logged. *)
Definition gated (names : list string) (e e' : Exporter) : Prop :=
  exists evs, emits e e' evs /\ Forall (gate_event names) evs.

Definition meta_deleted : PhotoData :=
  {| deleted_at := Some "2024-01-01T00:00:00Z"; stored := true; processed := true;
     content_type := "image/jpeg" |}.

(** Ten photo references, none of which has batch metadata; in
    [quiet_world] the per-photo metadata query fails for each of them. *)
Definition ten_photos : list Photo :=
  photo_ref <$> ["p0"; "p1"; "p2"; "p3"; "p4"; "p5"; "p6"; "p7"; "p8"; "p9"].

(** Creation calls are refused as malformed until the fourth network call
    has been made, and succeed from then on. *)
Definition refusing_drive_world : World :=
  {| drive_create_outcome := fun n => if n <? 4 then HttpError 400 else Created;
     drive_delete_ok := fun _ => true;
     drive_fresh_id := fun n => "id" +:+ pretty n;
     source_photo := fun _ _ => FetchOk [];
     source_meta := fun _ _ => FetchError "404";
     pool_dispatch := fun _ => Completed;
     slack_post := fun _ => Some "100.0";
     slack_history := fun _ => [];
     latency := fun _ => 0%N |}.

(** The batch deadline passes while the first job is still running. *)
Definition stalling_world : World :=
  {| drive_create_outcome := fun _ => Created;
     drive_delete_ok := fun _ => true;
     drive_fresh_id := fun n => "id" +:+ pretty n;
     source_photo := fun _ _ => FetchOk [];
     source_meta := fun _ _ => FetchError "404";
     pool_dispatch := fun n => if n =? 0 then StalledRunning else Completed;
     slack_post := fun _ => Some "100.0";
     slack_history := fun _ => [];
     latency := fun _ => 0%N |}.

Definition one_jpeg : gmap string PhotoData := {[ "a" := meta_ok "image/jpeg" ]}.

Definition one_deleted : gmap string PhotoData := {[ "a" := meta_deleted ]}.

(** ** Observations on the approval wait *)

(** The exporter after [k] polls of the approval wait that found no
    qualifying reply. *)
Fixpoint after_polls (w : World) (message_ts : string) (k : nat) (e : Exporter)
  : Exporter :=
  match k with
  | 0 => e
  | S k' =>
      after_polls w message_ts k'
        (sleep poll_interval_ms (call w (EvSlackPoll message_ts) e))
  end.






(** From [e] to [e'] the configuration, the replay list, the cancellation
    flag and the contents of Drive are untouched. *)
Definition undisturbed (e e' : Exporter) : Prop :=
  config e' = config e
  /\ skipped_forms e' = skipped_forms e
  /\ export_cancelled e' = export_cancelled e
  /\ drive (remote e') = drive (remote e).



(** ** Observations on a run *)






(** A pipeline for the scenarios: Drive is always reachable, the forms
    query answers [forms], and a form is exported by its photo phase alone,
    with the photo references and the metadata the source holds for it. *)
Definition model_pipeline (w : World) (forms : list Form)
    (photos_of : Form -> list Photo) (metadata_of : Form -> gmap string PhotoData)
  : Pipeline :=
  {| init_google_drive := fun e => (true, e);
     _preload_existing_folders := fun e => e;
     export_layers := fun e => e;
     get_forms := fun _ e => (Some forms, e);
     export_form := fun form e =>
       let parent_id :=
         if form_is_active form then active_forms_id (config e)
         else inactive_forms_id (config e) in
       let '(form_folder_id, e1) := _get_or_create_folder w (safe_name form) parent_id e in
       let '(phase, e2) :=
         export_form_photos w (form_name form) form_folder_id (photos_of form)
           (metadata_of form) e1 in
       (FormOk (pp_result phase), e2);
     _refresh_drive_token_if_needed := fun _ e => e |}.

Definition three_forms : list Form :=
  [{| form_id := "f0"; form_name := "Alpha"; form_is_active := true |};
   {| form_id := "f1"; form_name := "Beta"; form_is_active := true |};
   {| form_id := "f2"; form_name := "Gamma"; form_is_active := false |}].

(** The checkpoint of a run that was stopped before the form of index 1. *)
Definition checkpoint_at_1 : ExportState :=
  {| es_form_index := 1; es_total_forms := 3;
     es_stats := <["forms_processed" := 1]> (<["photos_uploaded" := 7]> initial_stats);
     es_needs_continuation := true |}.

(** A fresh process that finds the checkpoint on disk. *)
Definition resumed_exporter : Exporter :=
  set_state_file (Some checkpoint_at_1) (new_exporter plain_config []).



(** ** Further observations *)

(** A call of the object-creation endpoint. *)
Definition is_create_call (ev : Event) : bool :=
  match ev with
  | EvCreate _ _ _ _ _ => true
  | _ => false
  end.

(** A request for the history of the Slack channel. *)
Definition is_poll (ev : Event) : bool :=
  match ev with
  | EvSlackPoll _ => true
  | _ => false
  end.

Definition is_slack (ev : Event) : bool :=
  match ev with
  | EvSlackSend _ _ | EvSlackPoll _ => true
  | _ => false
  end.

(** [it] is a folder called [name] directly under [parent]. *)
Definition folder_named (name parent : string) (it : DriveItem) : Prop :=
  item_name it = name /\ item_mime it = folder_mime /\ item_parent it = parent.

Definition new_folder (id name parent : string) : DriveItem :=
  {| item_id := id; item_name := name; item_mime := folder_mime;
     item_parent := parent |}.

Definition new_file (id name mime parent : string) : DriveItem :=
  {| item_id := id; item_name := name; item_mime := mime; item_parent := parent |}.

(** The folders nested in [folder] go less than [depth] levels deep:
    [folder] itself counts for one level. *)
Fixpoint nesting_below (depth : nat) (folder : string) (d : list DriveItem) : bool :=
  match depth with
  | 0 => false
  | S depth' =>
      forallb
        (fun it =>
           negb (String.eqb (item_mime it) folder_mime)
           || nesting_below depth' (item_id it) d)
        (children folder d)
  end.

(** A form folder as an earlier export left it: a data file and a photos
    folder with one photo. *)
Definition exported_form_drive : list DriveItem :=
  [{| item_id := "f1"; item_name := "Form_data.csv"; item_mime := "text/csv";
      item_parent := "F" |};
   new_folder "p" "photos" "F";
   image "f2" "a.jpg" "p"].

(** From [e] to [e'] the transferred-photo set has gained the ids for which
    an object was created in [folder], and no other. *)
Definition records_creations (folder : string) (e e' : Exporter) : Prop :=
  exists evs,
    emits e e' evs
    /\ forall id,
         id ∈ uploaded_photos e'
         <-> id ∈ uploaded_photos e \/ 0 < count_events (creation_of folder id) evs.

(** The pipeline with another layer export in place of its own. *)
Definition with_export_layers (f : Exporter -> Exporter) (pl : Pipeline) : Pipeline :=
  {| init_google_drive := init_google_drive pl;
     _preload_existing_folders := _preload_existing_folders pl;
     export_layers := f;
     get_forms := get_forms pl;
     export_form := export_form pl;
     _refresh_drive_token_if_needed := _refresh_drive_token_if_needed pl |}.

(** The outcome of an attempt is a connection error. *)
Definition is_conn_error (o : FormOutcome) : Prop :=
  match o with
  | FormConnError _ => True
  | _ => False
  end.

(** The exporter after the uploads of the photos [ids] have been recorded
    one after the other. *)
Definition record_uploads (ids : list string) (e : Exporter) : Exporter :=
  fold_left (fun e id => _record_photo_uploaded id e) ids e.

(** The progress file exists and names uploaded photos only, all of them
    but those recorded since the uploaded set last counted a multiple of
    100. *)
Definition progress_in_step (e : Exporter) : Prop :=
  exists saved,
    progress_file e = Some saved
    /\ saved ⊆ uploaded_photos e
    /\ size (uploaded_photos e) - size saved <= size (uploaded_photos e) mod 100.

Definition pre_approving_config : Config :=
  {| skip_deletions := false; auto_delete := false; quick_check := false;
     slack_enabled := true; pre_approved_forms := {["Form"]};
     active_forms_id := "active"; inactive_forms_id := "inactive" |}.

(** ** Replacing a file *)

Section Files.

Context (w : World).

(** The loop of [_delete_file_if_exists] over the files found; the first
    deletion that Drive refuses raises and ends it. *)
Fixpoint delete_found (filename : string) (files : list DriveItem) (e : Exporter)
  : bool * Exporter :=
  match files with
  | [] => (true, e)
  | f :: rest =>
      let ok := drive_delete_ok w (tick (remote e)) in
      let e1 := call w (EvDelete (item_id f) filename ok) e in
      if ok then
        delete_found filename rest
          (set_remote (with_drive (remove_item (item_id f) (drive (remote e1))) (remote e1)) e1)
      else (false, e1)
  end.

(** The query by name under the parent is logged as a listing of the
    parent.  Unlike [delete_photos_from_drive], this deletion leaves the
    listing cache alone. *)
Definition _delete_file_if_exists (filename parent_id : string) (e : Exporter)
  : bool * Exporter :=
  let e1 := call w (EvList parent_id) e in
  let files :=
    filter (fun it => item_name it = filename) (children parent_id (drive (remote e1))) in
  delete_found filename files e1.

(** [self._delete_file_if_exists(name, parent); self._upload_to_drive(content, name, parent, mime)],
    the way [export_form], [export_layers] and
    [update_failed_downloads_summary] replace a file. *)
Definition replace_file (content : list Byte.byte) (filename parent_id mime_type : string)
    (e : Exporter) : bool * Exporter :=
  let '(_, e1) := _delete_file_if_exists filename parent_id e in
  _upload_to_drive w content filename parent_id mime_type 3 e1.

End Files.

(** ** Pre-approved forms *)

(** [s.split(c)] for a one-character separator. *)
Fixpoint split_on (c : ascii) (s : string) : list string :=
  match s with
  | EmptyString => [EmptyString]
  | String a r =>
      if Ascii.eqb a c then EmptyString :: split_on c r
      else
        match split_on c r with
        | h :: t => String a h :: t
        | [] => [String a EmptyString]
        end
  end.

Definition is_digit (c : ascii) : bool :=
  let n := nat_of_ascii c in (48 <=? n) && (n <=? 57).

Fixpoint all_digits (s : string) : bool :=
  match s with
  | EmptyString => true
  | String c r => is_digit c && all_digits r
  end.

(** [str.isdigit()] on the ASCII range: at least one character, and
    digits only.  The digits of other scripts, which Python also counts,
    are taken as the characters of a form name here. *)
Definition isdigit (s : string) : bool :=
  negb (String.eqb s "") && all_digits s.

Fixpoint int_digits (acc : N) (s : string) : N :=
  match s with
  | EmptyString => acc
  | String c r => int_digits (10 * acc + (N.of_nat (nat_of_ascii c) - 48))%N r
  end.

(** [int(s)] for a string of digits. *)
Definition int (s : string) : N := int_digits 0 s.

(** The loop of [load_pre_approved_forms] over the items: a number is
    looked up in the skipped forms of the previous run and dropped when it
    is out of range, anything else is taken as a form name. *)
Fixpoint resolve_items (skipped_forms : list SkippedForm) (items : list string)
  : list string :=
  match items with
  | [] => []
  | item :: rest =>
      if isdigit item then
        let idx := (Z.of_N (int item) - 1)%Z in
        if (0 <=? idx)%Z && (idx <? Z.of_nat (length skipped_forms))%Z then
          match skipped_forms !! Z.to_nat idx with
          | Some sf => sf_form sf :: resolve_items skipped_forms rest
          | None => resolve_items skipped_forms rest
          end
        else resolve_items skipped_forms rest
      else item :: resolve_items skipped_forms rest
  end.

(** [skipped_forms_file] is the content of [skipped_forms.json], [None]
    when the file is missing or cannot be read. *)
Definition load_pre_approved_forms (pre_approved_arg : option string)
    (skipped_forms_file : option (list SkippedForm)) : list string :=
  if negb (truthy pre_approved_arg) then []
  else
    let skipped_forms := default [] skipped_forms_file in
    let items := strip <$> split_on "," (default "" pre_approved_arg) in
    resolve_items skipped_forms items.

(** ** Records and the queries to Fulcrum *)

(** A parsed JSON value; a number is kept as its literal. *)
#[warnings="-register-all"] Inductive Json :=
| JNull
| JBool (b : bool)
| JNum (literal : string)
| JStr (s : string)
| JList (items : list Json)
| JDict (fields : list (string * Json)).

(** [d.get(key)] on a parsed dict, whose keys are distinct; [key in d]
    when the answer is [Some]. *)
Definition dict_get (key : string) (fields : list (string * Json)) : option Json :=
  snd <$> List.find (fun kv => String.eqb (fst kv) key) fields.

(** A layer of [/layers.json]: its id as it is rendered into a file name
    ([None] when the key is missing), its name ([None] when the key is
    missing) and its JSON text. *)
Record Layer := {
  layer_id : option string;
  layer_name : option string;
  layer_json : list Byte.byte
}.

(** What Fulcrum answers to the queries for collections, by call number:
    [/records.json] by form and page; [/photos.json] by form and page,
    each entry with its [access_key] ([None] when the key is missing or
    null); [/layers.json]. *)
Record Source := {
  source_records : string -> nat -> nat -> fetch_outcome (list Json);
  source_photos : string -> nat -> nat -> fetch_outcome (list (option string * PhotoData));
  source_layers : nat -> fetch_outcome (list Layer)
}.

(** A query to Fulcrum for records, metadata pages or layers: it takes its time
    and uses up a call number; the trace, which keeps the calls to Drive
    and Slack and the fetches of single photos, has no entry for it. *)
Definition query (w : World) (e : Exporter) : Exporter :=
  set_remote
    {| drive := drive (remote e); tick := S (tick (remote e));
       now := (now (remote e) + latency w (tick (remote e)))%N;
       jobs := jobs (remote e); trace := trace (remote e) |} e.

(** How [export_form] comes out of its first part. *)
Inductive FormStart :=
| RecordsRaised (failure : string)
| NoRecords (result : FormResult)
| Records (form_folder_id : string) (records : list Json).

Section Queries.

Context (w : World) (src : Source).

(** The [while True] loop of [get_records]: pages are requested until one
    comes back empty; a request that fails raises.  [fuel] bounds the
    number of pages and [None] means it ran out. *)
Fixpoint record_pages (fuel page : nat) (form_id : string) (all_records : list Json)
    (e : Exporter) : option ((string + list Json) * Exporter) :=
  match fuel with
  | 0 => None
  | S fuel' =>
      let response := source_records src form_id page (tick (remote e)) in
      let e1 := query w e in
      match response with
      | FetchOk [] => Some (inr all_records, e1)
      | FetchOk records =>
          record_pages fuel' (S page) form_id (all_records ++ records) e1
      | FetchConnError msg | FetchError msg => Some (inl msg, e1)
      end
  end.

Definition get_records (fuel : nat) (form_id : string) (e : Exporter)
  : option ((string + list Json) * Exporter) :=
  record_pages fuel 1 form_id [] e.

(** [all_photos[photo_id] = photo] for the entries of a page that have an
    access key. *)
Definition add_photos (photos : list (option string * PhotoData))
    (all_photos : gmap string PhotoData) : gmap string PhotoData :=
  fold_left
    (fun m p => if truthy p.1 then <[default "" p.1 := p.2]> m else m)
    photos all_photos.

(** The loop of [get_photos_metadata_batch]: it ends at an empty page,
    after a page of fewer than 20000 entries, and at the first request
    that fails, with what it has. *)
Fixpoint photo_pages (fuel page : nat) (form_id : string)
    (all_photos : gmap string PhotoData) (e : Exporter)
  : option (gmap string PhotoData * Exporter) :=
  match fuel with
  | 0 => None
  | S fuel' =>
      let response := source_photos src form_id page (tick (remote e)) in
      let e1 := query w e in
      match response with
      | FetchOk [] => Some (all_photos, e1)
      | FetchOk photos =>
          let all_photos := add_photos photos all_photos in
          if (N.of_nat (length photos) <? 20000)%N then Some (all_photos, e1)
          else photo_pages fuel' (S page) form_id all_photos e1
      | FetchConnError _ | FetchError _ => Some (all_photos, e1)
      end
  end.

Definition get_photos_metadata_batch (fuel : nat) (form_id : string) (e : Exporter)
  : option (gmap string PhotoData * Exporter) :=
  photo_pages fuel 1 form_id ∅ e.

(** [export_form] up to the end of its branch for a form without records:
    the form folder, the records, and for no records the clearing of the
    folder and the note left in it.  [fuel] bounds the pages of records and
    the nesting of the folder. *)
Definition export_form_start (fuel : nat) (form : Form) (e : Exporter)
  : option (FormStart * Exporter) :=
  let parent_id :=
    if form_is_active form then active_forms_id (config e)
    else inactive_forms_id (config e) in
  let '(form_folder_id, e1) := _get_or_create_folder w (safe_name form) parent_id e in
  match get_records fuel (form_id form) e1 with
  | None => None
  | Some (inl failure, e2) => Some (RecordsRaised failure, e2)
  | Some (inr [], e2) =>
      match _clear_folder_contents w fuel form_folder_id e2 with
      | None => None
      | Some (cleared, e3) =>
          let '(_, e4) :=
            _upload_to_drive w
              (String.list_byte_of_string "This form has no records in Fulcrum.")
              "NO_RECORDS.txt" form_folder_id "text/plain" 3 e3 in
          Some (NoRecords {| fr_form := form_name form; fr_photos_uploaded := 0;
                             fr_photos_skipped := 0; fr_photos_failed := 0;
                             fr_photos_deleted := 0; fr_export_ended := false |},
                stats_add "forms_processed" 1 e4)
      end
  | Some (inr records, e2) => Some (Records form_folder_id records, e2)
  end.

End Queries.

(** A source without records or photos. *)
Definition empty_source : Source :=
  {| source_records := fun _ _ _ => FetchOk [];
     source_photos := fun _ _ _ => FetchOk [];
     source_layers := fun _ => FetchOk [] |}.

(** A source whose photo metadata query fails. *)
Definition failing_photos_source : Source :=
  {| source_records := fun _ _ _ => FetchOk [];
     source_photos := fun _ _ _ => FetchError "503 Server Error";
     source_layers := fun _ => FetchOk [] |}.

(** ** The collaborators of the orchestrator *)

Module Collaborators.

Section Collaborators.

(** [drive_folder_id] is the target folder that [init_google_drive] has
    found, and [manifest_json] the JSON text of the layers manifest, which
    carries the export date. *)
Context (w : World) (src : Source) (drive_folder_id : string)
        (manifest_json : list Layer -> N -> list Byte.byte).

(** A request that fails is logged and answered with no layers. *)
Definition get_layers (e : Exporter) : list Layer * Exporter :=
  let response := source_layers src (tick (remote e)) in
  let e1 := query w e in
  match response with
  | FetchOk layers => (layers, e1)
  | FetchConnError _ | FetchError _ => ([], e1)
  end.

Definition layer_filename (layer : Layer) : string :=
  sanitize (default "Unnamed Layer" (layer_name layer))
  +:+ "_" +:+ default "None" (layer_id layer) +:+ ".json".

(** The loop of [export_layers] over the layers. *)
Fixpoint upload_layers (layers : list Layer) (existing_files : gset string)
    (layers_folder_id : string) (uploaded : nat) (e : Exporter) : nat * Exporter :=
  match layers with
  | [] => (uploaded, e)
  | layer :: rest =>
      let filename := layer_filename layer in
      if decide (filename ∈ existing_files) then
        upload_layers rest existing_files layers_folder_id uploaded e
      else
        let '(ok, e1) :=
          _upload_to_drive w (layer_json layer) filename layers_folder_id
            "application/json" 3 e in
        upload_layers rest existing_files layers_folder_id
          (if ok then S uploaded else uploaded) e1
  end.

Definition export_layers (e : Exporter) : nat * Exporter :=
  let '(layers, e1) := get_layers e in
  match layers with
  | [] => (0, e1)
  | _ :: _ =>
      let '(layers_folder_id, e2) := _get_or_create_folder w "layers" drive_folder_id e1 in
      let '(existing_files, e3) := _list_drive_folder_contents w layers_folder_id true e2 in
      let '(uploaded, e4) := upload_layers layers existing_files layers_folder_id 0 e3 in
      let '(_, e5) :=
        replace_file w (manifest_json layers (now (remote e4))) "LAYERS_MANIFEST.json"
          layers_folder_id "application/json" e4 in
      (uploaded, set_stats (<["layers_uploaded" := uploaded]> (stats e5)) e5)
  end.

(** The body of the loop of [_preload_existing_folders] for one parent;
    the query for the folders under the parent is logged as a listing of
    the parent. *)
Definition preload_parent (parent_id : string) (e : Exporter) : Exporter :=
  if String.eqb parent_id "" then e
  else
    let e1 := call w (EvList parent_id) e in
    let folders :=
      filter (fun it => item_mime it = folder_mime)
        (children parent_id (drive (remote e1))) in
    set_folder_cache
      (fold_left
         (fun cache f => <[parent_id +:+ "/" +:+ item_name f := item_id f]> cache)
         folders (folder_cache e1))
      e1.

Definition _preload_existing_folders (e : Exporter) : Exporter :=
  preload_parent (inactive_forms_id (config e))
    (preload_parent (active_forms_id (config e)) e).

End Collaborators.

End Collaborators.

(** ** The photo tables *)

(** [word in result.get('field_path', '').lower()]. *)
Definition mentions (word : string) (result : Photo) : bool :=
  str_contains word (lower (field_path result)).

Definition is_before (result : Photo) : bool := mentions "before" result.

Definition is_completed (result : Photo) : bool :=
  mentions "completed" result || mentions "after" result || mentions "complete" result.

(** The loop of [build_photos_csv]: the rows of the table of all photos,
    of the "before" photos and of the "completed" photos.  A row stands for
    the result it is built from; its columns are not modelled. *)
Fixpoint photo_rows (photo_results : list Photo)
  : list Photo * list Photo * list Photo :=
  match photo_results with
  | [] => ([], [], [])
  | result :: rest =>
      let '(all_rows, before_rows, completed_rows) := photo_rows rest in
      if negb (succeeded result) then (all_rows, before_rows, completed_rows)
      else
        match photo_data result with
        | None => (all_rows, before_rows, completed_rows)
        | Some _ =>
            (result :: all_rows,
             if is_before result then result :: before_rows else before_rows,
             if is_before result then completed_rows
             else if is_completed result then result :: completed_rows
             else completed_rows)
        end
  end.

(** [rows_to_csv]: no table for no rows. *)
Definition rows_to_csv (rows : list Photo) : option (list Photo) :=
  match rows with
  | [] => None
  | _ :: _ => Some rows
  end.

Definition build_photos_csv (photo_results : list Photo)
  : option (list Photo) * option (list Photo) * option (list Photo) :=
  let '(all_rows, before_rows, completed_rows) := photo_rows photo_results in
  (rows_to_csv all_rows, rows_to_csv before_rows, rows_to_csv completed_rows).

(** The numbers of photos that the summary of [export_form] puts next to
    the names of the two smaller tables. *)
Definition before_count (all_photo_results : list Photo) : nat :=
  length (List.filter (fun r => succeeded r && is_before r) all_photo_results).

Definition completed_count (all_photo_results : list Photo) : nat :=
  length (List.filter (fun r => succeeded r && is_completed r) all_photo_results).

(** ** Columns of the data table *)

Definition system_fields : list string :=
  ["fulcrum_id"; "status"; "latitude"; "longitude"; "altitude";
   "horizontal_accuracy"; "vertical_accuracy"; "created_at"; "updated_at";
   "created_by"; "updated_by"].

(** The order of [sorted] on strings. *)
Definition str_le (s t : string) : Prop := String.leb s t = true.

#[global] Instance str_le_dec (s t : string) : Decision (str_le s t) :=
  decide (String.leb s t = true).

Definition sorted (l : list string) : list string := merge_sort str_le l.

(** ['photo' in k.lower() or 'image' in k.lower()]. *)
Definition is_photo_field (k : string) : bool :=
  str_contains "photo" (lower k) || str_contains "image" (lower k).

(** The column order [export_form] gives the data CSV, from the set of
    all keys of the flattened records and all labels of the schema: the
    system fields that occur, then the other fields in alphabetical order,
    then the photo fields in alphabetical order. *)
Definition fieldnames (all_keys : gset string) : list string :=
  let non_system_fields := filter (fun k => k ∉ system_fields) (elements all_keys) in
  let photo_fields :=
    sorted (filter (fun k => is_photo_field k = true) non_system_fields) in
  let non_photo_fields :=
    sorted (filter (fun k => k ∉ photo_fields) non_system_fields) in
  filter (fun f => f ∈ all_keys) system_fields ++ non_photo_fields ++ photo_fields.

(** ** Forms with failed photos *)

(** An entry of [self.failed_forms]. *)
Record FailedForm := {
  ff_name : string;
  ff_status : string;
  ff_photos_in_fulcrum : nat;
  ff_photos_in_drive : nat;
  ff_photos_failed : nat;
  ff_path : string
}.

(** The update of [self.failed_forms] at the end of [export_form]: the old
    entry of the form goes, and a new one comes when photos have failed;
    [photos_failed] is [len(failed_photos)]. *)
Definition track_failed_form (form : Form)
    (photos_in_fulcrum photos_in_drive photos_failed : nat)
    (failed_forms : list FailedForm) : list FailedForm :=
  let failed_forms := filter (fun f => ff_name f <> form_name form) failed_forms in
  if photos_failed =? 0 then failed_forms
  else
    let folder_type := if form_is_active form then "active_forms" else "inactive_forms" in
    failed_forms
    ++ [{| ff_name := form_name form;
           ff_status := if form_is_active form then "ACTIVE" else "INACTIVE";
           ff_photos_in_fulcrum := photos_in_fulcrum;
           ff_photos_in_drive := photos_in_drive;
           ff_photos_failed := photos_failed;
           ff_path := folder_type +:+ "/" +:+ safe_name form |}].

Section Summary.

(** [summary_content] is the text of the summary, which lists the forms
    by their number of failed photos and carries the date;
    [self.failed_forms] is passed as an argument. *)
Context (w : World) (drive_folder_id : string)
        (summary_content : list FailedForm -> N -> list Byte.byte).

Definition update_failed_downloads_summary (failed_forms : list FailedForm)
    (e : Exporter) : Exporter :=
  match failed_forms with
  | [] => (_delete_file_if_exists w "FAILED_DOWNLOADS_SUMMARY.txt" drive_folder_id e).2
  | _ :: _ =>
      (replace_file w (summary_content failed_forms (now (remote e)))
         "FAILED_DOWNLOADS_SUMMARY.txt" drive_folder_id "text/plain" e).2
  end.

End Summary.

(** ** Record files *)

Section GeoJson.

(** [id_text] gives the text of [record.get('id')] and [record_json] the
    JSON text of the record. *)
Context (w : World) (id_text : Json -> string) (record_json : Json -> list Byte.byte).

Definition geojson_filename (record : Json) : string := id_text record +:+ ".json".

Definition _upload_single_geojson (record : Json) (folder_id : string) (e : Exporter)
  : bool * Exporter :=
  _upload_to_drive w (record_json record) (geojson_filename record) folder_id
    "application/json" 3 e.

(** What the dispatcher of [_upload_geojson_concurrent] makes of one job,
    run as the jobs of the photo pool are: it counts an upload that it saw
    complete with success; a job still running at the deadline goes on
    uncounted, and one not yet started is cancelled. *)
Definition collect_geojson (record : Json) (folder_id : string) (uploaded : nat)
    (e : Exporter) : nat * Exporter :=
  let status := pool_dispatch w (jobs (remote e)) in
  let e0 := set_remote (next_job (remote e)) e in
  match status with
  | Completed =>
      let '(ok, e1) := _upload_single_geojson record folder_id e0 in
      (if ok then S uploaded else uploaded, e1)
  | StalledRunning => (uploaded, (_upload_single_geojson record folder_id e0).2)
  | Cancelled => (uploaded, e0)
  end.

Fixpoint upload_geojson_jobs (to_upload : list Json) (folder_id : string)
    (uploaded : nat) (e : Exporter) : nat * Exporter :=
  match to_upload with
  | [] => (uploaded, e)
  | record :: rest =>
      let '(uploaded, e1) := collect_geojson record folder_id uploaded e in
      upload_geojson_jobs rest folder_id uploaded e1
  end.

Definition _upload_geojson_concurrent (records : list Json) (folder_id : string)
    (existing_files : gset string) (e : Exporter) : nat * Exporter :=
  let to_upload :=
    filter (fun r => geojson_filename r ∉ existing_files) records in
  match to_upload with
  | [] => (0, e)
  | _ :: _ => upload_geojson_jobs to_upload folder_id 0 e
  end.

End GeoJson.

(** ** Photo references of a record *)

(** An entry of the list [extract_photo_ids] returns, with the values as
    they stand in the record. *)
Record PhotoRef := {
  ref_photo_id : Json;
  ref_record_id : Json;
  ref_field_path : string;
  ref_caption : Json
}.

(** [recurse] of [extract_photo_ids]; [record_id] is [record['id']]. *)
Fixpoint recurse (record_id : Json) (values : Json) (path : string) : list PhotoRef :=
  match values with
  | JDict fields =>
      match dict_get "photo_id" fields with
      | Some photo_id =>
          [{| ref_photo_id := photo_id; ref_record_id := record_id;
              ref_field_path := path;
              ref_caption := default (JStr "") (dict_get "caption" fields) |}]
      | None =>
          flat_map
            (fun kv =>
               recurse record_id (snd kv)
                 (if String.eqb path "" then fst kv else path +:+ "." +:+ fst kv))
            fields
      end
  | JList items =>
      (fix at_index (idx : nat) (items : list Json) : list PhotoRef :=
         match items with
         | [] => []
         | item :: rest =>
             recurse record_id item (path +:+ "[" +:+ pretty idx +:+ "]")
             ++ at_index (S idx) rest
         end) 0 items
  | _ => []
  end.

(** [None] stands for the [KeyError] that a record without ['id'] raises
    as soon as a photo is found in it. *)
Definition extract_photo_ids (record : list (string * Json)) : option (list PhotoRef) :=
  let form_values := default (JDict []) (dict_get "form_values" record) in
  match dict_get "id" record with
  | Some record_id => Some (recurse record_id form_values "")
  | None =>
      match recurse JNull form_values "" with
      | [] => Some []
      | _ :: _ => None
      end
  end.

(** The value of one photo of a photo field. *)
Definition photo_value (photo_id : Json) (caption : option Json) : Json :=
  JDict (("photo_id", photo_id)
         :: match caption with
            | Some c => [("caption", c)]
            | None => []
            end).

(** * Properties *)

(** Case analysis on the condition of the first [if] of the goal. *)
Ltac case_if :=
  match goal with
  | |- context [if ?b then _ else _] => destruct b eqn:?
  end.

(** Closes [emits e e' []] when [e'] has the trace of [e]. *)
Ltac emits_none := unfold emits; simpl; by rewrite ?app_nil_r.

(** ** Strings *)

Lemma has_char_app c a b : has_char c (a +:+ b) = has_char c a || has_char c b.
Proof.
  induction a as [|x a IH]; simpl; [done|].
  by rewrite IH, orb_assoc.
Qed.

Lemma rsplit1_head_no_sep c s : has_char c s = false -> rsplit1_head c s = s.
Proof.
  destruct s as [|a r]; simpl; [done|].
  intros [Ha Hr]%orb_false_iff. by rewrite Hr, Ha.
Qed.

Lemma rsplit1_head_app c stem ext :
  has_char c ext = false -> rsplit1_head c (stem +:+ String c ext) = stem.
Proof.
  intros Hext. induction stem as [|a r IH]; simpl.
  - by rewrite Hext, Ascii.eqb_refl.
  - rewrite has_char_app. simpl. rewrite Ascii.eqb_refl, orb_true_r. simpl.
    by rewrite IH.
Qed.

(** The two photo keys of an id, and what they give back. *)
Lemma stem_jpg id : rsplit1_head "." (id +:+ ".jpg") = id.
Proof. by apply (rsplit1_head_app "." id "jpg"). Qed.

Lemma stem_png id : rsplit1_head "." (id +:+ ".png") = id.
Proof. by apply (rsplit1_head_app "." id "png"). Qed.

Lemma key_has_dot id ext : has_char "." (id +:+ "." +:+ ext) = true.
Proof. rewrite has_char_app. simpl. by rewrite orb_true_r. Qed.

Lemma ext_of_cases ctype : ext_of ctype = "png" \/ ext_of ctype = "jpg".
Proof. unfold ext_of. destruct (str_contains "png" ctype); auto. Qed.

(** ** Orphan reconciler *)

Lemma orphan_scan_spec valid (names : list string) f :
  f ∈ orphan_scan valid names <->
  f ∈ names /\ has_char "." f = true /\ rsplit1_head "." f ∉ valid.
Proof.
  induction names as [|x names IH]; simpl.
  - split; [intros H; inversion H | intros [H _]; inversion H].
  - destruct (has_char "." x) eqn:Hdot;
      [destruct (decide (rsplit1_head "." x ∈ valid)) as [Hin|Hout]|];
      rewrite ?elem_of_cons, IH, ?elem_of_cons; split.
    + intros (? & ? & ?). auto.
    + intros ([->|?] & ? & ?); [done | auto].
    + intros [->|(? & ? & ?)]; auto.
    + intros ([->|?] & ? & ?); auto.
    + intros (? & ? & ?). auto.
    + intros ([->|?] & ? & ?); [congruence | auto].
Qed.

Lemma identify_orphaned_photos_spec w folder (cache : gmap string PhotoData) e f :
  f ∈ fst (identify_orphaned_photos w folder cache e) <->
  f ∈ fst (_list_drive_folder_contents w folder true e)
  /\ has_char "." f = true
  /\ rsplit1_head "." f ∉ dom cache.
Proof.
  unfold identify_orphaned_photos.
  destruct (_list_drive_folder_contents w folder true e) as [existing e1]. simpl.
  destruct (decide (existing = ∅)) as [->|Hne]; simpl.
  - split; [intros H; inversion H | intros [H _]; by apply not_elem_of_empty in H].
  - rewrite orphan_scan_spec, elem_of_elements. done.
Qed.

Lemma identify_orphaned_photos_state w folder cache e :
  snd (identify_orphaned_photos w folder cache e)
  = snd (_list_drive_folder_contents w folder true e).
Proof.
  unfold identify_orphaned_photos.
  destruct (_list_drive_folder_contents w folder true e) as [existing e1]. simpl.
  by destruct (decide (existing = ∅)).
Qed.

(** C5, as amended: a listed filename is returned exactly when it contains
    a '.' and the name before its last '.' is not a key of the metadata;
    for the listing A.jpg, B.jpg, C.png and the ids A and C, exactly B.jpg
    is returned. *)
Theorem C5_orphans_are_dotted_names_without_metadata :
  (forall w folder (cache : gmap string PhotoData) e f,
     f ∈ fst (identify_orphaned_photos w folder cache e) <->
     f ∈ fst (_list_drive_folder_contents w folder true e)
     /\ has_char "." f = true
     /\ rsplit1_head "." f ∉ dom cache)
  /\ fst (identify_orphaned_photos quiet_world "P" abc_metadata
            (new_exporter plain_config abc_drive)) = ["B.jpg"].
Proof.
  split; [apply identify_orphaned_photos_spec | by vm_compute].
Qed.

(** C5, as stated, fails: a listed name without a '.' is its own derived id,
    no metadata carries that id, and yet the name is not returned. *)
Lemma C5_counterexample_undotted_name :
  let e := new_exporter plain_config [image "1" "README" "P"] in
  ~ (forall f,
       f ∈ fst (identify_orphaned_photos quiet_world "P" ∅ e) <->
       f ∈ fst (_list_drive_folder_contents quiet_world "P" true e)
       /\ rsplit1_head "." f ∉ dom (∅ : gmap string PhotoData)).
Proof.
  intros e H. specialize (H "README").
  assert (Hnone : fst (identify_orphaned_photos quiet_world "P" ∅ e) = [])
    by (by vm_compute).
  rewrite Hnone in H. apply (not_elem_of_nil "README"), H.
  split; [|rewrite dom_empty_L; apply not_elem_of_empty].
  apply elem_of_elements.
  replace (elements (fst (_list_drive_folder_contents quiet_world "P" true e)))
    with ["README"] by (by vm_compute).
  apply list_elem_of_here.
Qed.

(** ** Target location cache *)

Lemma upload_attempts_local w remaining attempt max_retries content name parent mime e :
  let e' := snd (upload_attempts w remaining attempt max_retries content name parent mime e) in
  contents_cache e' = contents_cache e /\ new_folders e' = new_folders e
  /\ uploaded_photos e' = uploaded_photos e /\ stats e' = stats e
  /\ config e' = config e.
Proof.
  revert attempt e. induction remaining as [|remaining IH]; intros attempt e; simpl; [done|].
  destruct (drive_create_outcome w (tick (remote e))) as [|status|]; simpl; [done| |].
  - case_if; [|done]. apply (IH (S attempt) (sleep _ (call w _ e))).
  - case_if; [|done]. apply (IH (S attempt) (sleep _ (call w _ e))).
Qed.

(** An upload leaves the listing cache and the set of folders known to be
    empty as they were. *)
Lemma upload_keeps_listing_cache w content name parent mime max_retries e :
  let e' := snd (_upload_to_drive w content name parent mime max_retries e) in
  contents_cache e' = contents_cache e /\ new_folders e' = new_folders e.
Proof.
  pose proof (upload_attempts_local w max_retries 0 max_retries content name parent mime e)
    as (H1 & H2 & _). by split.
Qed.

Lemma delete_by_id_cache w m n e :
  contents_cache (snd (delete_by_id w m n e)) = contents_cache e.
Proof.
  revert n e. induction m as [|[name id] m IH]; intros n e; simpl; [done|].
  destruct (drive_delete_ok w (tick (remote e))); by rewrite IH.
Qed.

(** Deleting photos from a folder drops the folder's listing-cache entry. *)
Lemma delete_invalidates_listing_cache w filenames folder e :
  contents_cache (snd (delete_photos_from_drive w filenames folder e)) !! folder = None.
Proof.
  unfold delete_photos_from_drive.
  destruct (delete_by_id w _ 0 _) as [deleted e2]. simpl. apply lookup_delete_eq.
Qed.

(** Clearing a folder drops the folder's listing-cache entry. *)
Lemma clear_invalidates_listing_cache w fuel folder e n e' :
  _clear_folder_contents w fuel folder e = Some (n, e') ->
  contents_cache e' !! folder = None.
Proof.
  destruct fuel as [|fuel]; simpl; [done|].
  destruct (clear_items w _ _ 0 _) as [[deleted e2]|]; [|done].
  intros [= <- <-]. apply lookup_delete_eq.
Qed.

(** C8, where the code falls short of it: an upload does not invalidate the
    listing cache.  A cached listing of a folder still lacks a file uploaded
    since; and in a folder created during the run, even the listing that
    bypasses the cache comes back empty after an upload. *)
Theorem C8_upload_leaves_stale_listing :
  (let e0 := new_exporter plain_config [image "1" "A.jpg" "P"] in
   let e1 := snd (_list_drive_folder_contents quiet_world "P" true e0) in
   let '(ok, e2) := _upload_to_drive quiet_world [] "B.jpg" "P" "image/jpeg" 3 e1 in
   let '(names, e3) := _list_drive_folder_contents quiet_world "P" true e2 in
   ok = true
   /\ item_name <$> children "P" (drive (remote e3)) = ["A.jpg"; "B.jpg"]
   /\ elements names = ["A.jpg"])
  /\
  (let e0 := new_exporter plain_config [] in
   let '(photos_folder_id, e1) := _get_or_create_folder quiet_world "photos" "F" e0 in
   let '(ok, e2) :=
     _upload_to_drive quiet_world [] "A.jpg" photos_folder_id "image/jpeg" 3 e1 in
   let '(names, e3) := _list_drive_folder_contents quiet_world photos_folder_id false e2 in
   ok = true
   /\ item_name <$> children photos_folder_id (drive (remote e3)) = ["A.jpg"]
   /\ elements names = []).
Proof. split; by vm_compute. Qed.

(** ** The trace *)

Lemma emits_nil e : emits e e [].
Proof. unfold emits. by rewrite app_nil_r. Qed.

Lemma emits_app e1 e2 e3 a b : emits e1 e2 a -> emits e2 e3 b -> emits e1 e3 (a ++ b).
Proof. unfold emits. intros H1 H2. by rewrite H2, H1, app_assoc. Qed.

Lemma emits_call w ev e : emits e (call w ev e) [ev].
Proof. done. Qed.

Lemma emits_same e1 e2 e3 a :
  emits e1 e2 a -> trace (remote e3) = trace (remote e2) -> emits e1 e3 a.
Proof. unfold emits. by intros H ->. Qed.

Lemma emits_cons w ev e e' evs :
  emits (call w ev e) e' evs -> emits e e' (ev :: evs).
Proof. unfold emits. simpl. intros ->. by rewrite <- app_assoc. Qed.

Lemma emitted_emits e e' evs : emits e e' evs -> emitted e e' = evs.
Proof. unfold emits, emitted. intros ->. by rewrite drop_app_length. Qed.

Lemma count_events_app P a b :
  count_events P (a ++ b) = count_events P a + count_events P b.
Proof. unfold count_events. by rewrite List.filter_app, length_app. Qed.

Lemma count_events_none P evs :
  Forall (fun ev => P ev = false) evs -> count_events P evs = 0.
Proof.
  unfold count_events. induction 1 as [|ev evs Hev _ IH]; simpl; [done|].
  by rewrite Hev.
Qed.

(** ** Asset transfer pipeline: one photo *)

Lemma upload_attempts_events w remaining attempt max_retries content name parent mime e :
  let '(ok, e') :=
    upload_attempts w remaining attempt max_retries content name parent mime e in
  exists evs,
    emits e e' evs
    /\ Forall (fun ev => exists rs o, ev = EvCreate parent name mime rs o) evs
    /\ count_events is_created evs = (if ok then 1 else 0).
Proof.
  revert attempt e. induction remaining as [|remaining IH]; intros attempt e; simpl.
  { exists []. split; [apply emits_nil | by split]. }
  destruct (drive_create_outcome w (tick (remote e))) as [|status|] eqn:Hout.
  - eexists [_]. split; [done|]. split; [|done]. repeat constructor. eauto.
  - case_if.
    + match goal with |- context [upload_attempts _ _ ?a _ _ _ _ _ ?s] =>
        specialize (IH a s); destruct (upload_attempts w remaining a max_retries content name parent mime s) as [ok e'] end.
      destruct IH as (evs & Hem & Hall & Hcount).
      eexists (_ :: evs). split; [apply (emits_cons w); exact Hem|].
      split; [constructor; eauto|]. unfold count_events in *. by simpl.
    + eexists [_]. split; [done|]. split; [|done]. repeat constructor. eauto.
  - case_if.
    + match goal with |- context [upload_attempts _ _ ?a _ _ _ _ _ ?s] =>
        specialize (IH a s); destruct (upload_attempts w remaining a max_retries content name parent mime s) as [ok e'] end.
      destruct IH as (evs & Hem & Hall & Hcount).
      eexists (_ :: evs). split; [apply (emits_cons w); exact Hem|].
      split; [constructor; eauto|]. unfold count_events in *. by simpl.
    + eexists [_]. split; [done|]. split; [|done]. repeat constructor. eauto.
Qed.

Lemma direct_download_events w remaining attempt max_retries last id ext data e :
  let '(d, e') :=
    direct_download_attempts w remaining attempt max_retries last id ext data e in
  exists evs,
    emits e e' evs
    /\ Forall (fun ev => ev = EvFetchPhoto id) evs
    /\ ((exists c, d = (Some c, Some ext, None, Some data))
        \/ exists msg, d = download_failed msg).
Proof.
  revert attempt last e. induction remaining as [|remaining IH]; intros attempt last e; simpl.
  { exists []. split; [apply emits_nil|]. split; [done|]. right. by eexists. }
  destruct (source_photo w id (tick (remote e))) as [c|msg|msg].
  - eexists [_]. split; [done|]. split; [by repeat constructor|]. left. by eexists.
  - match goal with |- context [direct_download_attempts _ _ ?a _ ?l _ _ _ ?s] =>
      specialize (IH a l s);
      destruct (direct_download_attempts w remaining a max_retries l id ext data s)
        as [d e'] eqn:Hrec end.
    destruct IH as (evs & Hem & Hall & Hd).
    eexists (_ :: evs). split; [|split; [by constructor | done]].
    apply (emits_cons w). revert Hem. case_if; intros Hem; exact Hem.
  - eexists [_]. split; [done|]. split; [by repeat constructor|]. right. by eexists.
Qed.

Lemma fallback_download_events w remaining attempt max_retries last id e :
  let '(d, e') := fallback_download_attempts w remaining attempt max_retries last id e in
  exists evs,
    emits e e' evs
    /\ Forall (fun ev => ev = EvFetchMeta id \/ ev = EvFetchPhoto id) evs
    /\ ((exists c data t,
           d = (Some c, Some (ext_of (content_type data)), None, Some data)
           /\ source_meta w id t = FetchOk data)
        \/ exists msg, d = download_failed msg).
Proof.
  revert attempt last e. induction remaining as [|remaining IH]; intros attempt last e; simpl.
  { exists []. split; [apply emits_nil|]. split; [done|]. right. by eexists. }
  destruct (source_meta w id (tick (remote e))) as [data|msg|msg] eqn:Hmeta.
  - destruct (validate_photo data) as [reason|].
    { exists [EvFetchMeta id]. split; [done|]. split; [repeat (constructor; [auto|]); constructor|]. right. by eexists. }
    destruct (source_photo w id _) as [c|msg|msg].
    + exists [EvFetchMeta id; EvFetchPhoto id]. split; [do 2 apply (emits_cons w); apply emits_nil|]. split; [repeat (constructor; [auto|]); constructor|].
      left. by exists c, data, (tick (remote e)).
    + match goal with |- context [fallback_download_attempts _ _ ?a _ ?l _ ?s] =>
        specialize (IH a l s);
        destruct (fallback_download_attempts w remaining a max_retries l id s)
          as [d e'] eqn:Hrec end.
      destruct IH as (evs & Hem & Hall & Hd).
      exists (EvFetchMeta id :: EvFetchPhoto id :: evs). split; [|split; [repeat (constructor; [auto|]); done | done]].
      apply (emits_cons w), (emits_cons w). revert Hem. case_if; intros Hem; exact Hem.
    + exists [EvFetchMeta id; EvFetchPhoto id]. split; [do 2 apply (emits_cons w); apply emits_nil|]. split; [repeat (constructor; [auto|]); constructor|].
      right. by eexists.
  - match goal with |- context [fallback_download_attempts _ _ ?a _ ?l _ ?s] =>
      specialize (IH a l s);
      destruct (fallback_download_attempts w remaining a max_retries l id s)
        as [d e'] eqn:Hrec end.
    destruct IH as (evs & Hem & Hall & Hd).
    exists (EvFetchMeta id :: evs). split; [|split; [repeat (constructor; [auto|]); done | done]].
    apply (emits_cons w). revert Hem. case_if; intros Hem; exact Hem.
  - exists [EvFetchMeta id]. split; [done|]. split; [repeat (constructor; [auto|]); constructor|]. right. by eexists.
Qed.

Lemma record_photo_uploaded_remote id e :
  remote (_record_photo_uploaded id e) = remote e.
Proof. unfold _record_photo_uploaded. by case_if. Qed.

Lemma succeeded_mark_failed msg photo : succeeded (mark_failed msg photo) = false.
Proof. done. Qed.

Lemma succeeded_mark_success data name photo :
  succeeded (mark_success data name photo) = true.
Proof. done. Qed.

(** What one job of the pool does: fetches for its own asset, then creation
    calls under the asset's key, of which exactly one creates the object if
    the job reports success and none does otherwise. *)
Lemma process_single_photo_spec w photo folder cache e :
  let '(r, e') := _process_single_photo w photo folder cache e in
  photo_id r = photo_id photo
  /\ exists fetches creates,
       emits e e' (fetches ++ creates)
       /\ Forall (fun ev => ev = EvFetchMeta (photo_id photo)
                            \/ ev = EvFetchPhoto (photo_id photo)) fetches
       /\ count_events is_created creates = (if succeeded r then 1 else 0)
       /\ ((creates = [] /\ succeeded r = false)
           \/ exists data mime,
                consulted w cache (photo_id photo) data
                /\ Forall (fun ev => exists rs o,
                             ev = EvCreate folder
                                    (photo_id photo +:+ "." +:+ ext_of (content_type data))
                                    mime rs o) creates
                /\ (succeeded r = true ->
                    filename r
                    = Some (photo_id photo +:+ "." +:+ ext_of (content_type data))
                    /\ photo_data r = Some data)).
Proof.
  unfold _process_single_photo.
  set (id := photo_id photo).
  assert (Hdl : exists d e1 fetches,
             match cache !! id with
             | Some cached => download_photo_with_metadata w id cached 3 e
             | None => download_photo_to_memory w id 3 e
             end = (d, e1)
             /\ emits e e1 fetches
             /\ Forall (fun ev => ev = EvFetchMeta id \/ ev = EvFetchPhoto id) fetches
             /\ ((exists c data, d = (Some c, Some (ext_of (content_type data)), None, Some data)
                                 /\ consulted w cache id data)
                 \/ exists msg, d = download_failed msg)).
  { destruct (cache !! id) as [cached|] eqn:Hc.
    - unfold download_photo_with_metadata.
      destruct (validate_photo cached) as [reason|].
      + exists (download_failed reason), e, []. split; [done|].
        split; [apply emits_nil|]. split; [done|]. right. by eexists.
      + pose proof (direct_download_events w 3 0 3 None id
                      (ext_of (content_type cached)) cached e) as H.
        destruct (direct_download_attempts w 3 0 3 None id _ cached e) as [d e1].
        destruct H as (evs & Hem & Hall & Hd).
        exists d, e1, evs. split; [done|]. split; [done|]. split.
        * eapply Forall_impl; [exact Hall|]. simpl. auto.
        * destruct Hd as [[c ->]|Hd]; [left|by right].
          exists c, cached. split; [done|]. by left.
    - unfold download_photo_to_memory.
      pose proof (fallback_download_events w 3 0 3 None id e) as H.
      destruct (fallback_download_attempts w 3 0 3 None id e) as [d e1].
      destruct H as (evs & Hem & Hall & Hd).
      exists d, e1, evs. split; [done|]. split; [done|]. split; [done|].
      destruct Hd as [(c & data & t & -> & Ht)|Hd]; [left|by right].
      exists c, data. split; [done|]. right. split; [done|]. by exists t. }
  destruct Hdl as (d & e1 & fetches & -> & Hem & Hfetch & Hd).
  destruct Hd as [(c & data & -> & Hcons)|[msg ->]].
  - simpl.
    pose proof (upload_attempts_events w 3 0 3 c
                  (id +:+ "." +:+ ext_of (content_type data)) folder
                  (if String.eqb (ext_of (content_type data)) "png"
                   then "image/png" else "image/jpeg") e1) as Hup.
    unfold _upload_to_drive.
    destruct (upload_attempts w 3 0 3 c _ folder _ e1) as [ok e2].
    destruct Hup as (creates & Hem2 & Hall & Hcount).
    destruct ok; simpl.
    + split; [done|]. exists fetches, creates. split.
      { eapply emits_same; [by eapply emits_app|].
        by rewrite record_photo_uploaded_remote. }
      split; [done|]. split; [done|]. right. eauto 10.
    + split; [done|]. exists fetches, creates. split; [by eapply emits_app|].
      split; [done|]. split; [done|]. right. exists data. eexists.
      split; [done|]. split; [done|]. done.
  - unfold download_failed. simpl.
    destruct (negb (String.eqb msg "")); simpl.
    + split; [done|]. exists fetches, []. rewrite app_nil_r. auto 10.
    + split; [done|]. exists fetches, []. rewrite app_nil_r. auto 10.
Qed.

Lemma count_events_ext P Q evs :
  Forall (fun ev => P ev = Q ev) evs -> count_events P evs = count_events Q evs.
Proof.
  unfold count_events. induction 1 as [|ev evs Hev _ IH]; simpl; [done|].
  rewrite Hev. destruct (Q ev); simpl; by rewrite IH.
Qed.

Lemma is_key_of_key id0 id ctype :
  is_key_of id0 (id +:+ "." +:+ ext_of ctype) = String.eqb id id0.
Proof.
  unfold is_key_of.
  destruct (String.eqb_spec id id0) as [->|Hne].
  - destruct (ext_of_cases ctype) as [-> | ->]; simpl;
      rewrite String.eqb_refl; by rewrite ?orb_true_r.
  - apply orb_false_iff.
    destruct (ext_of_cases ctype) as [-> | ->]; simpl; split;
      apply String.eqb_neq; intros Heq;
      apply (f_equal (rsplit1_head ".")) in Heq;
      rewrite ?stem_jpg, ?stem_png in Heq; done.
Qed.

Lemma about_work_on folder id id0 ev :
  about folder id ev -> work_on folder id0 ev = true -> id = id0.
Proof.
  destruct ev; simpl; try done.
  - intros [-> Hn] [_ Hk]%andb_prop. unfold is_key_of in Hk.
    apply orb_prop in Hk.
    destruct Hk as [Hk|Hk]; apply String.eqb_eq in Hk;
      apply (f_equal (rsplit1_head ".")) in Hk;
      destruct Hn as [-> | ->]; rewrite ?stem_jpg, ?stem_png in Hk; done.
  - intros -> H. by apply String.eqb_eq in H.
  - intros -> H. by apply String.eqb_eq in H.
Qed.

(** The events of one job are work on its own asset, and the number of
    objects it creates under the keys of an asset [id0] is one if the asset
    is its own and the job reports success, and zero otherwise. *)
Lemma process_single_photo_events w photo folder cache e id0 :
  let '(r, e') := _process_single_photo w photo folder cache e in
  exists evs,
    emits e e' evs
    /\ Forall (about folder (photo_id photo)) evs
    /\ count_events (creation_of folder id0) evs
       = (if String.eqb (photo_id photo) id0 && succeeded r then 1 else 0).
Proof.
  pose proof (process_single_photo_spec w photo folder cache e) as H.
  destruct (_process_single_photo w photo folder cache e) as [r e'].
  destruct H as (_ & fetches & creates & Hem & Hf & Hcount & Hcreates).
  exists (fetches ++ creates). split; [done|].
  assert (Hf0 : count_events (creation_of folder id0) fetches = 0).
  { apply count_events_none. eapply Forall_impl; [exact Hf|].
    by intros ev [-> | ->]. }
  rewrite count_events_app, Hf0. simpl.
  destruct Hcreates as [[-> Hr]|(data & mime & _ & Hall & _)].
  - rewrite Hr, andb_false_r, app_nil_r. split; [|done].
    eapply Forall_impl; [exact Hf|]. by intros ev [-> | ->].
  - split.
    + apply Forall_app. split.
      * eapply Forall_impl; [exact Hf|]. by intros ev [-> | ->].
      * eapply Forall_impl; [exact Hall|]. intros ev (rs & o & ->). simpl.
        split; [done|]. destruct (ext_of_cases (content_type data)) as [-> | ->]; auto.
    + rewrite (count_events_ext _
                 (fun ev => String.eqb (photo_id photo) id0 && is_created ev)).
      * destruct (String.eqb (photo_id photo) id0); simpl; [done|].
        apply count_events_none. by apply Forall_forall.
      * eapply Forall_impl; [exact Hall|]. intros ev (rs & o & ->). simpl.
        rewrite String.eqb_refl, is_key_of_key. simpl.
        destruct (String.eqb (photo_id photo) id0), o; done.
Qed.

Lemma process_single_photo_terminal w photo folder cache e :
  terminal cache photo ->
  exists reason,
    _process_single_photo w photo folder cache e = (mark_failed reason photo, e).
Proof.
  intros (data & reason & Hc & Hv). exists reason.
  unfold _process_single_photo, download_photo_with_metadata. rewrite Hc, Hv. simpl.
  assert (Hne : String.eqb reason "" = false).
  { unfold validate_photo in Hv.
    destruct (truthy (deleted_at data)), (negb (stored data)),
      (negb (processed data)); by inversion Hv. }
  by rewrite Hne.
Qed.

(** ** Asset transfer pipeline: one batch *)

Lemma overwrite_stalled_id r : photo_id (overwrite_stalled r) = photo_id r.
Proof. unfold overwrite_stalled. by case_if. Qed.

Lemma occurrences_cons id0 p l :
  occurrences id0 (p :: l)
  = (if String.eqb (photo_id p) id0 then 1 else 0) + occurrences id0 l.
Proof. unfold occurrences. simpl. by destruct (String.eqb (photo_id p) id0). Qed.

Lemma collect_job_spec w photo folder cache e id0 :
  let '(entry, is_failed, e') := collect_job w photo folder cache e in
  photo_id entry = photo_id photo
  /\ exists evs,
       emits e e' evs
       /\ Forall (about folder (photo_id photo)) evs
       /\ (pool_dispatch w (jobs (remote e)) = Completed ->
           count_events (creation_of folder id0) evs
           = (if String.eqb (photo_id photo) id0 && negb is_failed then 1 else 0))
       /\ (terminal cache photo -> is_failed = true /\ evs = []).
Proof.
  unfold collect_job.
  set (e0 := set_remote (next_job (remote e)) e).
  pose proof (process_single_photo_spec w photo folder cache e0) as Hspec.
  pose proof (process_single_photo_events w photo folder cache e0 id0) as Hev.
  assert (Hterm : terminal cache photo ->
            exists reason, _process_single_photo w photo folder cache e0
                           = (mark_failed reason photo, e0))
    by apply process_single_photo_terminal.
  destruct (pool_dispatch w (jobs (remote e))) eqn:Hstatus.
  - destruct (_process_single_photo w photo folder cache e0) as [r e1].
    destruct Hspec as [Hid _]. destruct Hev as (evs & Hem & Hab & Hcount).
    split; [done|]. exists evs. split; [exact Hem|]. split; [done|]. split.
    + intros _. by rewrite negb_involutive.
    + intros Ht. destruct (Hterm Ht) as (reason & [= -> ->]). split; [done|].
      unfold emits in Hem. simpl in Hem.
      symmetry in Hem. apply (app_inv_head (trace (remote e))). by rewrite app_nil_r.
  - destruct (_process_single_photo w photo folder cache e0) as [r e1].
    destruct Hspec as [Hid _]. destruct Hev as (evs & Hem & Hab & Hcount).
    split; [by rewrite overwrite_stalled_id|]. exists evs.
    split; [exact Hem|]. split; [done|]. split; [done|].
    intros Ht. destruct (Hterm Ht) as (reason & [= -> ->]). split; [done|].
    unfold emits in Hem. simpl in Hem.
    symmetry in Hem. apply (app_inv_head (trace (remote e))). by rewrite app_nil_r.
  - split; [done|]. exists [].
    split; [subst e0; unfold emits; simpl; by rewrite app_nil_r|].
    split; [done|]. split; [done|]. done.
Qed.

Lemma batch_spec w photos folder cache e id0 :
  let '((all_results, failed), e') :=
    _download_and_upload_photos w photos folder cache e in
  photo_id <$> all_results = photo_id <$> photos
  /\ sublist failed all_results
  /\ (forall p, p ∈ photos -> terminal cache p -> photo_id p ∈ photo_id <$> failed)
  /\ exists evs,
       emits e e' evs
       /\ Forall (fun ev => exists id, id ∈ photo_id <$> photos /\ about folder id ev) evs
       /\ ((forall n, pool_dispatch w n = Completed) ->
           count_events (creation_of folder id0) evs + occurrences id0 failed
           = occurrences id0 photos)
       /\ (Forall (terminal cache) photos ->
           evs = [] /\ length failed = length photos).
Proof.
  revert e. induction photos as [|photo rest IH]; intros e; simpl.
  { split; [done|]. split; [done|]. split; [intros p Hp; inversion Hp|].
    exists []. split; [apply emits_nil|]. by repeat split. }
  pose proof (collect_job_spec w photo folder cache e id0) as Hjob.
  destruct (collect_job w photo folder cache e) as [[entry is_failed] e1].
  destruct Hjob as (Hid & evs1 & Hem1 & Hab1 & Hcount1 & Hterm1).
  specialize (IH e1).
  destruct (_download_and_upload_photos w rest folder cache e1) as [[all_results failed] e2].
  destruct IH as (Hids & Hsub & Hin & evs2 & Hem2 & Hab2 & Hcount2 & Hterm2).
  split; [by rewrite !fmap_cons, Hid, Hids|].
  split; [destruct is_failed; by constructor|].
  split.
  { intros p [->|Hp]%elem_of_cons Ht.
    - destruct (Hterm1 Ht) as [-> _]. rewrite fmap_cons, Hid. apply list_elem_of_here.
    - specialize (Hin p Hp Ht). destruct is_failed; [|done].
      rewrite fmap_cons. by apply list_elem_of_further. }
  exists (evs1 ++ evs2). split; [by eapply emits_app|]. split.
  { apply Forall_app. split.
    - eapply Forall_impl; [exact Hab1|]. intros ev Hev.
      exists (photo_id photo). split; [apply list_elem_of_here | done].
    - eapply Forall_impl; [exact Hab2|]. intros ev (id & Hid' & Hev).
      exists id. split; [by apply list_elem_of_further | done]. }
  split.
  - intros Hall. rewrite count_events_app, (Hcount1 (Hall _)), occurrences_cons.
    specialize (Hcount2 Hall).
    destruct is_failed; simpl; rewrite ?occurrences_cons, ?Hid, ?andb_false_r,
      ?andb_true_r; destruct (String.eqb (photo_id photo) id0); lia.
  - intros [Ht Hrest]%Forall_cons. destruct (Hterm1 Ht) as [-> ->].
    destruct (Hterm2 Hrest) as [-> Hlen]. split; [done|]. simpl. by rewrite Hlen.
Qed.

(** ** Asset transfer pipeline: the retry rounds *)

Lemma failed_ids_submitted (photos all_results failed : list Photo) id :
  photo_id <$> all_results = photo_id <$> photos ->
  sublist failed all_results ->
  id ∈ photo_id <$> failed -> id ∈ photo_id <$> photos.
Proof.
  intros <- Hsub Hin.
  by apply (sublist_subseteq _ _ (fmap_sublist photo_id _ _ Hsub)).
Qed.

Lemma failed_length (photos all_results failed : list Photo) :
  photo_id <$> all_results = photo_id <$> photos ->
  sublist failed all_results -> length failed <= length photos.
Proof.
  intros Hids Hsub. apply sublist_length in Hsub.
  apply (f_equal length) in Hids. rewrite !length_fmap in Hids. lia.
Qed.

(** The events of the retry loop are work on assets pending when it
    starts; while the pool sees every job complete, it creates at most as
    many objects for an asset as there are pending dicts carrying its id. *)
Lemma retry_failed_events w remaining rc prev up failed results rounds folder cache e id0 :
  let '(t, e') :=
    retry_failed w remaining rc prev up failed results rounds folder cache e in
  exists evs,
    emits e e' evs
    /\ Forall (fun ev => exists id, id ∈ photo_id <$> failed /\ about folder id ev) evs
    /\ ((forall n, pool_dispatch w n = Completed) ->
        count_events (creation_of folder id0) evs <= occurrences id0 failed).
Proof.
  revert rc prev up failed results rounds e.
  induction remaining as [|remaining IH]; intros rc prev up failed results rounds e.
  { destruct failed; simpl; exists []; (split; [apply emits_nil|]);
      (split; [done|]); intros _; unfold count_events; simpl; lia. }
  destruct failed as [|p l].
  { simpl. exists []. split; [apply emits_nil|]. split; [done|]. done. }
  cbn [retry_failed].
  pose proof (batch_spec w (p :: l) folder cache e id0) as Hbatch.
  destruct (_download_and_upload_photos w (p :: l) folder cache e)
    as [[retry_results still_failed] e1].
  destruct Hbatch as (Hids & Hsub & _ & evs1 & Hem1 & Hab1 & Hcount1 & _).
  assert (Hrec : forall prev' up' results' rounds',
    let '(t, e') :=
      retry_failed w remaining (S rc) prev' up' still_failed results' rounds'
        folder cache e1 in
    exists evs,
      emits e e' evs
      /\ Forall (fun ev => exists id, id ∈ photo_id <$> (p :: l) /\ about folder id ev) evs
      /\ ((forall n, pool_dispatch w n = Completed) ->
          count_events (creation_of folder id0) evs <= occurrences id0 (p :: l))).
  { intros prev' up' results' rounds'.
    specialize (IH (S rc) prev' up' still_failed results' rounds' e1).
    destruct (retry_failed w remaining (S rc) prev' up' still_failed results' rounds'
                folder cache e1) as [t e2].
    destruct IH as (evs2 & Hem2 & Hab2 & Hcount2).
    exists (evs1 ++ evs2). split; [by eapply emits_app|]. split.
    - apply Forall_app. split; [done|].
      eapply Forall_impl; [exact Hab2|]. intros ev (id & Hid & Hev).
      exists id. split; [|done]. by eapply failed_ids_submitted.
    - intros Hall. rewrite count_events_app.
      specialize (Hcount1 Hall). specialize (Hcount2 Hall). lia. }
  case_if; [case_if|]; try apply Hrec.
  exists evs1. split; [done|]. split; [done|].
  intros Hall. specialize (Hcount1 Hall). lia.
Qed.

Lemma transfer_photos_events w backlog folder cache e id0 :
  let '(t, e') := transfer_photos w backlog folder cache e in
  exists evs,
    emits e e' evs
    /\ Forall (fun ev => exists id, id ∈ photo_id <$> backlog /\ about folder id ev) evs
    /\ ((forall n, pool_dispatch w n = Completed) ->
        count_events (creation_of folder id0) evs <= occurrences id0 backlog).
Proof.
  unfold transfer_photos. destruct backlog as [|p l].
  { exists []. split; [apply emits_nil|]. split; [done|]. done. }
  pose proof (batch_spec w (p :: l) folder cache e id0) as Hbatch.
  destruct (_download_and_upload_photos w (p :: l) folder cache e)
    as [[all_results failed] e1].
  destruct Hbatch as (Hids & Hsub & _ & evs1 & Hem1 & Hab1 & Hcount1 & _).
  match goal with |- context [retry_failed w 3 0 ?pv ?up failed ?rs [] folder cache e1] =>
    pose proof (retry_failed_events w 3 0 pv up failed rs [] folder cache e1 id0) as Hretry;
    destruct (retry_failed w 3 0 pv up failed rs [] folder cache e1) as [t e2] end.
  destruct Hretry as (evs2 & Hem2 & Hab2 & Hcount2).
  exists (evs1 ++ evs2). split; [by eapply emits_app|]. split.
  - apply Forall_app. split; [done|].
    eapply Forall_impl; [exact Hab2|]. intros ev (id & Hid & Hev).
    exists id. split; [|done]. by eapply failed_ids_submitted.
  - intros Hall. rewrite count_events_app.
    specialize (Hcount1 Hall). specialize (Hcount2 Hall). lia.
Qed.

(** The rounds the retry loop runs: at most [remaining], shaped as
    [rounds_ok] says, provided [previous_failed_count] is the number of
    pending dicts, as it is when [export_form] enters the loop. *)
Lemma retry_failed_rounds w remaining rc prev up failed results rounds folder cache e :
  prev = length failed ->
  exists new,
    tr_rounds (retry_failed w remaining rc prev up failed results rounds folder cache e).1
    = rounds ++ new
    /\ length new <= remaining
    /\ rounds_ok rc failed new.
Proof.
  revert rc prev up failed results rounds e.
  induction remaining as [|remaining IH]; intros rc prev up failed results rounds e Hprev.
  { exists []. destruct failed; simpl; by rewrite app_nil_r. }
  destruct failed as [|p l].
  { exists []. simpl. rewrite app_nil_r. split; [done|]. split; [lia|done]. }
  cbn [retry_failed].
  pose proof (batch_spec w (p :: l) folder cache e "") as Hbatch.
  destruct (_download_and_upload_photos w (p :: l) folder cache e)
    as [[retry_results still_failed] e1].
  destruct Hbatch as (Hids & Hsub & _).
  pose proof (failed_length _ _ _ Hids Hsub) as Hlen.
  set (r := {| rr_submitted := p :: l; rr_still_failed := still_failed |}).
  assert (Hrec : forall prev' up' results',
    prev' = length still_failed ->
    (1 <= rc -> length (p :: l) <= length still_failed -> False) ->
    exists new,
      tr_rounds (retry_failed w remaining (S rc) prev' up' still_failed results'
                   (rounds ++ [r]) folder cache e1).1 = rounds ++ new
      /\ length new <= S remaining
      /\ rounds_ok rc (p :: l) new).
  { intros prev' up' results' Hprev' Hno.
    destruct (IH (S rc) prev' up' still_failed results' (rounds ++ [r]) e1 Hprev')
      as (new & Hnew & Hlen' & Hok).
    exists (r :: new). rewrite Hnew, <- app_assoc. split; [done|].
    split; [simpl; lia|]. simpl. split; [done|]. split; [done|].
    split; [|done]. intros H1 H2. by destruct (Hno H1 H2). }
  case_if; [case_if|].
  - exists [r]. simpl. split; [done|]. split; [lia|]. by repeat split.
  - apply Hrec.
    + apply Nat.leb_le in Heqb. lia.
    + intros H1 _. apply Nat.leb_gt in Heqb0. lia.
  - apply Hrec; [done|]. intros _ H2. apply Nat.leb_gt in Heqb. lia.
Qed.

(** An asset that the metadata marks deleted, not stored or not processed
    stays in the failed list of the retry loop and is submitted in every
    round the loop runs, of which there is at least one. *)
Lemma retry_failed_terminal w remaining rc prev up failed results rounds folder cache e id :
  (exists data reason, cache !! id = Some data /\ validate_photo data = Some reason) ->
  id ∈ photo_id <$> failed ->
  let t := (retry_failed w remaining rc prev up failed results rounds folder cache e).1 in
  exists new,
    tr_rounds t = rounds ++ new
    /\ id ∈ photo_id <$> tr_failed_photos t
    /\ Forall (fun r => id ∈ photo_id <$> rr_submitted r) new
    /\ (0 < remaining -> new <> []).
Proof.
  intros Hterm. revert rc prev up failed results rounds e.
  induction remaining as [|remaining IH]; intros rc prev up failed results rounds e Hin.
  { exists []. destruct failed; simpl; rewrite app_nil_r; repeat split; try done; lia. }
  destruct failed as [|p l]; [inversion Hin|].
  cbn [retry_failed].
  pose proof (batch_spec w (p :: l) folder cache e "") as Hbatch.
  destruct (_download_and_upload_photos w (p :: l) folder cache e)
    as [[retry_results still_failed] e1].
  destruct Hbatch as (Hids & Hsub & Hkeep & _).
  assert (Hstill : id ∈ photo_id <$> still_failed).
  { apply list_elem_of_fmap in Hin as (q & -> & Hq). apply Hkeep; [done|].
    destruct Hterm as (data & reason & ? & ?). by exists data, reason. }
  set (r := {| rr_submitted := p :: l; rr_still_failed := still_failed |}).
  assert (Hrec : forall prev' up' results',
    let t := (retry_failed w remaining (S rc) prev' up' still_failed results'
                (rounds ++ [r]) folder cache e1).1 in
    exists new,
      tr_rounds t = rounds ++ new
      /\ id ∈ photo_id <$> tr_failed_photos t
      /\ Forall (fun r => id ∈ photo_id <$> rr_submitted r) new
      /\ (0 < S remaining -> new <> [])).
  { intros prev' up' results'.
    destruct (IH (S rc) prev' up' still_failed results' (rounds ++ [r]) e1 Hstill)
      as (new & Hnew & Hf & Hall & _).
    exists (r :: new). simpl. rewrite Hnew, <- app_assoc. split; [done|].
    split; [done|]. split; [by constructor|]. done. }
  case_if; [case_if|]; try apply Hrec.
  exists [r]. simpl. split; [done|]. split; [by rewrite Hids|].
  split; [constructor; [exact Hin | constructor]|]. done.
Qed.

(** ** Events of the target location cache and of the approval gate *)

Lemma gate_event_no_transfer names ev : gate_event names ev -> no_transfer ev.
Proof. by destruct ev. Qed.

Lemma get_or_create_folder_events w name parent e :
  exists evs,
    emits e (_get_or_create_folder w name parent e).2 evs /\ Forall no_transfer evs.
Proof.
  unfold _get_or_create_folder.
  destruct (folder_cache e !! _); [exists []; split; [apply emits_nil | done]|].
  destruct (List.filter _ _).
  - eexists [_; _]. split; [unfold emits; simpl; by rewrite <- app_assoc|].
    by repeat constructor.
  - eexists [_]. split; [done|]. by repeat constructor.
Qed.

Lemma list_drive_folder_contents_events w folder use_cache e names :
  exists evs,
    emits e (_list_drive_folder_contents w folder use_cache e).2 evs
    /\ Forall (gate_event names) evs.
Proof.
  unfold _list_drive_folder_contents.
  destruct (if use_cache then _ else _); [exists []; split; [apply emits_nil | done]|].
  case_if; [exists []; split; [emits_none | done]|].
  exists [EvList folder]. split; [by destruct use_cache|]. by repeat constructor.
Qed.

Lemma send_slack_message_events w note e names :
  exists evs,
    emits e (send_slack_message w note e).2 evs /\ Forall (gate_event names) evs.
Proof.
  unfold send_slack_message. case_if.
  - eexists [_]. split; [done|]. by repeat constructor.
  - exists []. split; [apply emits_nil | done].
Qed.

Lemma wait_polls_events w fuel start timeout ts e names :
  exists evs,
    emits e (wait_polls w fuel start timeout ts e).2 evs /\ Forall (gate_event names) evs.
Proof.
  revert e. induction fuel as [|fuel IH]; intros e; simpl.
  { exists []. split; [case_if; apply emits_nil | done]. }
  case_if; [|exists []; split; [apply emits_nil | done]].
  unfold get_slack_messages_since. case_if.
  - destruct (scan_replies ts _).
    + eexists [_]. split; [done|]. by repeat constructor.
    + destruct (IH (sleep poll_interval_ms (call w (EvSlackPoll ts) e))) as (evs & Hem & Hall).
      exists (EvSlackPoll ts :: evs). split; [apply (emits_cons w); exact Hem|].
      by constructor.
  - simpl. apply (IH (sleep poll_interval_ms e)).
Qed.

Lemma wait_for_slack_approval_events w ts minutes e names :
  exists evs,
    emits e (wait_for_slack_approval w ts minutes e).2 evs
    /\ Forall (gate_event names) evs.
Proof.
  unfold wait_for_slack_approval. case_if.
  - exists []. split; [apply emits_nil | done].
  - apply wait_polls_events.
Qed.

Lemma alist_set_keys k v m k' v' :
  (k', v') ∈ alist_set k v m -> k' = k \/ k' ∈ m.*1.
Proof.
  induction m as [|[k0 v0] m IH]; simpl.
  - intros [= -> ->]%list_elem_of_singleton. by left.
  - destruct (String.eqb_spec k0 k) as [->|Hne].
    + intros [[= -> ->]|Hin]%elem_of_cons; [by left|].
      right. apply list_elem_of_further. by apply (list_elem_of_fmap_2 fst _ (k', v')).
    + intros [[= -> ->]|Hin]%elem_of_cons; [right; apply list_elem_of_here|].
      destruct (IH Hin) as [->|?]; [by left|]. right. by apply list_elem_of_further.
Qed.

Lemma build_file_id_map_keys (wanted : gset string) listing k :
  k ∈ (build_file_id_map wanted listing).*1 -> k ∈ wanted.
Proof.
  unfold build_file_id_map.
  assert (Hgen : forall m, (forall k, k ∈ m.*1 -> k ∈ wanted) ->
            forall k, k ∈ (fold_left
              (fun m f => if decide (item_name f ∈ wanted)
                          then alist_set (item_name f) (item_id f) m else m)
              listing m).*1 -> k ∈ wanted).
  { induction listing as [|f listing IH]; intros m Hm k0; simpl; [apply Hm|].
    apply IH. intros k1 Hk1. destruct (decide (item_name f ∈ wanted)) as [Hw|]; [|by apply Hm].
    apply list_elem_of_fmap in Hk1 as ([k2 v2] & -> & Hin).
    destruct (alist_set_keys _ _ _ _ _ Hin) as [->|?]; [done | by apply Hm]. }
  apply Hgen. intros k0 Hk0. inversion Hk0.
Qed.

Lemma delete_by_id_events w m n e :
  exists evs,
    emits e (delete_by_id w m n e).2 evs
    /\ Forall (fun ev => exists id name ok, ev = EvDelete id name ok /\ name ∈ m.*1) evs.
Proof.
  revert n e. induction m as [|[name id] m IH]; intros n e; simpl.
  { exists []. split; [apply emits_nil | done]. }
  set (ok := drive_delete_ok w (tick (remote e))).
  assert (Hhead : exists id0 name0 ok0,
            EvDelete id name ok = EvDelete id0 name0 ok0 /\ name0 ∈ name :: m.*1).
  { exists id, name, ok. split; [done | apply list_elem_of_here]. }
  destruct ok.
  - match goal with |- context [delete_by_id w m ?k ?s] =>
      destruct (IH k s) as (evs & Hem & Hall) end.
    exists (EvDelete id name true :: evs). split; [apply (emits_cons w); exact Hem|].
    constructor; [done|]. eapply Forall_impl; [exact Hall|].
    intros ev (i & nm & o & -> & Hin). exists i, nm, o. split; [done|].
    by apply list_elem_of_further.
  - match goal with |- context [delete_by_id w m ?k ?s] =>
      destruct (IH k s) as (evs & Hem & Hall) end.
    exists (EvDelete id name false :: evs). split; [apply (emits_cons w); exact Hem|].
    constructor; [done|]. eapply Forall_impl; [exact Hall|].
    intros ev (i & nm & o & -> & Hin). exists i, nm, o. split; [done|].
    by apply list_elem_of_further.
Qed.

(** Only files named in [filenames] are deleted. *)
Lemma delete_photos_from_drive_events w filenames folder e :
  exists evs,
    emits e (delete_photos_from_drive w filenames folder e).2 evs
    /\ Forall (gate_event filenames) evs.
Proof.
  unfold delete_photos_from_drive.
  match goal with |- context [delete_by_id w ?m 0 ?s] =>
    pose proof (delete_by_id_events w m 0 s) as (evs & Hem & Hall);
    pose proof (build_file_id_map_keys (list_to_set filenames)
                  (children folder (drive (remote s)))) as Hkeys;
    destruct (delete_by_id w m 0 s) as [deleted e2] end.
  exists (EvList folder :: evs). split; [apply (emits_cons w); exact Hem|].
  constructor; [done|]. eapply Forall_impl; [exact Hall|].
  intros ev (i & nm & o & -> & Hin). simpl.
  apply Hkeys in Hin. by apply elem_of_list_to_set in Hin.
Qed.

Lemma alist_set_has_key k v m k' :
  k' = k \/ k' ∈ m.*1 -> k' ∈ (alist_set k v m).*1.
Proof.
  induction m as [|[k0 v0] m IH]; simpl.
  - intros [->|H]; [apply list_elem_of_here | inversion H].
  - destruct (String.eqb_spec k0 k) as [->|Hne]; simpl.
    + intros [->|[->|H]%elem_of_cons];
        [apply list_elem_of_here | apply list_elem_of_here |].
      by apply list_elem_of_further.
    + intros [->|[->|H]%elem_of_cons].
      * apply list_elem_of_further, IH. by left.
      * apply list_elem_of_here.
      * apply list_elem_of_further, IH. by right.
Qed.

Lemma build_file_id_map_has_key (wanted : gset string) listing it :
  it ∈ listing -> item_name it ∈ wanted ->
  item_name it ∈ (build_file_id_map wanted listing).*1.
Proof.
  unfold build_file_id_map. intros Hin Hw.
  assert (Hgen : forall m,
            item_name it ∈ m.*1 \/ it ∈ listing ->
            item_name it ∈ (fold_left
              (fun m f => if decide (item_name f ∈ wanted)
                          then alist_set (item_name f) (item_id f) m else m)
              listing m).*1).
  { clear Hin. induction listing as [|f listing IH]; intros m; simpl.
    - intros [H|H]; [done | inversion H].
    - intros [H|[->|H]%elem_of_cons]; apply IH.
      + left. destruct (decide (item_name f ∈ wanted)); [|done].
        apply alist_set_has_key. by right.
      + left. destruct (decide (item_name f ∈ wanted)); [|done].
        apply alist_set_has_key. by left.
      + by right. }
  apply Hgen. by right.
Qed.

Lemma delete_by_id_requests w m n e name :
  name ∈ m.*1 ->
  exists id ok, EvDelete id name ok ∈ emitted e (delete_by_id w m n e).2.
Proof.
  intros Hin.
  assert (Hgen : forall n e, exists evs,
            emits e (delete_by_id w m n e).2 evs
            /\ exists id ok, EvDelete id name ok ∈ evs).
  { clear n e. induction m as [|[name0 id0] m IH]; intros n e; [inversion Hin|].
    simpl in Hin. apply elem_of_cons in Hin as [->|Hin].
    - destruct (delete_by_id_events w ((name0, id0) :: m) n e) as (evs & Hem & _).
      exists evs. split; [done|]. simpl in Hem.
      exists id0, (drive_delete_ok w (tick (remote e))).
      destruct (drive_delete_ok w (tick (remote e)));
        match type of Hem with emits _ (delete_by_id w m ?k ?s).2 _ =>
          destruct (delete_by_id_events w m k s) as (evs' & Hem' & _) end;
        pose proof (emits_cons w _ _ _ _ Hem') as Hboth;
        unfold emits in Hem, Hboth; rewrite Hboth in Hem;
        apply app_inv_head in Hem; subst evs; apply list_elem_of_here.
    - simpl. destruct (drive_delete_ok w (tick (remote e)));
        match goal with |- context [delete_by_id w m ?k ?s] =>
          destruct (IH Hin k s) as (evs & Hem & id & ok & Hev) end;
        eexists (_ :: evs); (split; [apply (emits_cons w); exact Hem|]);
        exists id, ok; by apply list_elem_of_further. }
  destruct (Hgen n e) as (evs & Hem & Hev). by rewrite (emitted_emits _ _ _ Hem).
Qed.

(** Every wanted name that a file of the folder bears is asked to be
    deleted. *)
Lemma delete_photos_from_drive_requests w filenames folder e f :
  f ∈ filenames ->
  f ∈ item_name <$> children folder (drive (remote e)) ->
  exists id ok,
    EvDelete id f ok ∈ emitted e (delete_photos_from_drive w filenames folder e).2.
Proof.
  intros Hf (it & -> & Hit)%list_elem_of_fmap.
  unfold delete_photos_from_drive.
  match goal with |- context [delete_by_id w ?m 0 ?s] =>
    destruct (delete_by_id_requests w m 0 s (item_name it)) as (id & ok & Hev);
    [apply build_file_id_map_has_key; [exact Hit | by apply elem_of_list_to_set]|];
    destruct (delete_by_id_events w m 0 s) as (evs & Hem & _);
    destruct (delete_by_id w m 0 s) as [deleted e2] end.
  simpl in *. exists id, ok.
  rewrite (emitted_emits _ _ _ Hem) in Hev.
  rewrite (emitted_emits _ _ (EvList folder :: evs)).
  - by apply list_elem_of_further.
  - apply (emits_cons w). exact Hem.
Qed.

Lemma gated_refl names e : gated names e e.
Proof. exists []. split; [apply emits_nil | done]. Qed.

Lemma gated_trans names e1 e2 e3 :
  gated names e1 e2 -> gated names e2 e3 -> gated names e1 e3.
Proof.
  intros (a & Ha & Hga) (b & Hb & Hgb). exists (a ++ b).
  split; [by eapply emits_app | by apply Forall_app].
Qed.

Lemma gated_same names e1 e2 e3 :
  gated names e1 e2 -> trace (remote e3) = trace (remote e2) -> gated names e1 e3.
Proof. intros (a & Ha & Hga) Heq. exists a. split; [by eapply emits_same | done]. Qed.

Lemma gated_send w names note e : gated names e (send_slack_message w note e).2.
Proof. apply send_slack_message_events. Qed.

Lemma gated_delete_approved w names folder e :
  gated names e (delete_approved w names folder e).2.
Proof.
  unfold delete_approved.
  pose proof (delete_photos_from_drive_events w names folder e) as H.
  by destruct (delete_photos_from_drive w names folder e).
Qed.

Lemma gated_identify w names folder cache e :
  gated names e (identify_orphaned_photos w folder cache e).2.
Proof. rewrite identify_orphaned_photos_state. apply list_drive_folder_contents_events. Qed.

(** The orphan cleanup lists, talks to Slack and deletes orphans; it
    deletes nothing else. *)
Lemma cleanup_deleted_photos_events w folder cache form e :
  gated (identify_orphaned_photos w folder cache e).1 e
    (cleanup_deleted_photos w folder cache form e).2.
Proof.
  unfold cleanup_deleted_photos.
  pose proof (fun names => gated_identify w names folder cache e) as Hid.
  destruct (identify_orphaned_photos w folder cache e) as [orphaned e1]. simpl in *.
  specialize (Hid orphaned).
  destruct orphaned as [|f fs]; [done|].
  set (names := f :: fs) in *.
  repeat case_if; try done.
  - eapply gated_trans; [exact Hid|].
    eapply gated_trans; [apply gated_send | apply gated_delete_approved].
  - eapply gated_trans; [exact Hid|].
    eapply gated_trans; [apply gated_send | apply gated_delete_approved].
  - pose proof (gated_send w names (NoteApprovalRequired form (length names)) e1) as Hs.
    destruct (send_slack_message w _ e1) as [msg_ts e2]. simpl in Hs.
    case_if.
    + pose proof (wait_for_slack_approval_events w (default "" msg_ts) 5 e2 names) as Hw.
      destruct (wait_for_slack_approval w _ 5 e2) as [response e3]. simpl in Hw.
      assert (H3 : gated names e e3)
        by (eapply gated_trans; [exact Hid|]; eapply gated_trans; [exact Hs | exact Hw]).
      destruct response; simpl.
      * eapply gated_trans; [exact H3|].
        eapply gated_trans; [apply gated_send | apply gated_delete_approved].
      * eapply gated_trans; [|apply gated_send]. by eapply gated_same.
      * eapply gated_same; [|reflexivity]. simpl.
        eapply gated_trans; [exact H3 | apply gated_send].
      * eapply gated_trans; [|apply gated_send]. by eapply gated_same.
    + eapply gated_trans; [exact Hid|].
      eapply gated_trans; [exact Hs | apply gated_delete_approved].
  - eapply gated_trans; [exact Hid | apply gated_delete_approved].
Qed.

(** C10: a listed name without a '.' is never reported as an orphan, and the
    orphan cleanup never asks Drive to delete a file of that name. *)
Theorem C10_undotted_names_are_never_orphans w folder cache form e f :
  has_char "." f = false ->
  (f ∉ (identify_orphaned_photos w folder cache e).1)
  /\ forall id ok,
       EvDelete id f ok ∉ emitted e (cleanup_deleted_photos w folder cache form e).2.
Proof.
  intros Hdot.
  assert (Hnot : f ∉ (identify_orphaned_photos w folder cache e).1).
  { intros Hin. apply identify_orphaned_photos_spec in Hin as (_ & Hd & _). congruence. }
  split; [done|]. intros id ok Hin.
  destruct (cleanup_deleted_photos_events w folder cache form e) as (evs & Hem & Hall).
  rewrite (emitted_emits _ _ _ Hem) in Hin.
  rewrite Forall_forall in Hall. by apply Hall in Hin.
Qed.

Lemma C10_witness :
  let e := new_exporter plain_config [image "1" "README" "P"] in
  ("README" ∉ (identify_orphaned_photos quiet_world "P" ∅ e).1)
  /\ forall id ok,
       EvDelete id "README" ok
       ∉ emitted e (cleanup_deleted_photos quiet_world "P" ∅ "Form" e).2.
Proof.
  intros e.
  apply (C10_undotted_names_are_never_orphans quiet_world "P" ∅ "Form" e "README").
  reflexivity.
Defined.

(** C9: every creation call made for a photo goes to the photos folder under
    the key photo_id.png when 'png' occurs in the content type of the
    metadata consulted, and photo_id.jpg otherwise; the key is one of the two
    that the skip rule looks up in the listing; and a photo reported as
    uploaded carries that key as its filename. *)
Theorem C9_photo_key_follows_content_type w photo folder cache e :
  let id := photo_id photo in
  let key (data : PhotoData) :=
    id +:+ "." +:+ (if str_contains "png" (content_type data) then "png" else "jpg") in
  Forall
    (fun ev =>
       match ev with
       | EvCreate parent name _ _ _ =>
           parent = folder
           /\ (exists data, consulted w cache id data /\ name = key data)
           /\ (name = id +:+ ".jpg" \/ name = id +:+ ".png")
           /\ (forall existing e0, name ∈ existing -> to_download existing e0 photo = false)
       | _ => True
       end)
    (emitted e (_process_single_photo w photo folder cache e).2)
  /\ (if succeeded (_process_single_photo w photo folder cache e).1
      then exists data,
             consulted w cache id data
             /\ filename (_process_single_photo w photo folder cache e).1 = Some (key data)
      else True).
Proof.
  intros id key.
  pose proof (process_single_photo_spec w photo folder cache e) as H.
  destruct (_process_single_photo w photo folder cache e) as [r e']. simpl.
  destruct H as (_ & fetches & creates & Hem & Hf & Hcount & Hcreates).
  rewrite (emitted_emits _ _ _ Hem). split.
  - apply Forall_app. split.
    + eapply Forall_impl; [exact Hf|]. by intros ev [-> | ->].
    + destruct Hcreates as [[-> _]|(data & mime & Hcons & Hall & _)]; [done|].
      eapply Forall_impl; [exact Hall|]. intros ev (rs & o & ->).
      split; [done|]. split; [by exists data|].
      assert (Hkey : photo_id photo +:+ "." +:+ ext_of (content_type data)
                     = id +:+ ".jpg"
                     \/ photo_id photo +:+ "." +:+ ext_of (content_type data)
                        = id +:+ ".png")
        by (destruct (ext_of_cases (content_type data)) as [-> | ->]; auto).
      split; [done|]. intros existing e0 Hin. unfold to_download. fold id.
      destruct Hkey as [Hk|Hk]; rewrite Hk in Hin.
      * by rewrite (bool_decide_eq_true_2 _ Hin).
      * by rewrite (bool_decide_eq_true_2 _ Hin), orb_true_r.
  - destruct (succeeded r) eqn:Hr; [|done].
    destruct Hcreates as [[_ Hno]|(data & mime & Hcons & _ & Hfile)]; [congruence|].
    exists data. split; [done|]. by apply Hfile.
Qed.

(** ** Asset transfer pipeline: the photo phase of a form *)

Lemma transfer_photos_terminal w backlog folder cache e photo :
  terminal cache photo -> photo ∈ backlog ->
  let t := (transfer_photos w backlog folder cache e).1 in
  photo_id photo ∈ photo_id <$> tr_failed_photos t
  /\ tr_rounds t <> []
  /\ Forall (fun r => photo_id photo ∈ photo_id <$> rr_submitted r) (tr_rounds t).
Proof.
  intros Hterm Hin. unfold transfer_photos.
  destruct backlog as [|p l]; [inversion Hin|].
  pose proof (batch_spec w (p :: l) folder cache e "") as Hbatch.
  destruct (_download_and_upload_photos w (p :: l) folder cache e)
    as [[all_results failed] e1].
  destruct Hbatch as (_ & _ & Hkeep & _).
  match goal with |- context [retry_failed w 3 0 ?pv ?up failed ?rs [] folder cache e1] =>
    destruct (retry_failed_terminal w 3 0 pv up failed rs [] folder cache e1
                (photo_id photo)) as (new & Hnew & Hf & Hall & Hne) end.
  - destruct Hterm as (data & reason & ? & ?). by exists data, reason.
  - by apply Hkeep.
  - simpl in *. rewrite Hnew. split; [done|]. split; [apply Hne; lia | done].
Qed.

(** C3, as amended: an asset whose batch metadata marks it deleted, not
    stored or not processed is rejected without a network call and without
    any change of state; but it is reported as a failure, it is submitted
    again in every retry round (of which at least one runs), and the form
    counts it among the failed photos, not among the skipped ones. *)
Theorem C3_rejected_assets_fail_without_network w cache photo :
  terminal cache photo ->
  (forall folder e,
     exists reason,
       _process_single_photo w photo folder cache e = (mark_failed reason photo, e))
  /\ (forall backlog folder e,
        photo ∈ backlog ->
        let t := (transfer_photos w backlog folder cache e).1 in
        photo_id photo ∈ photo_id <$> tr_failed_photos t
        /\ tr_rounds t <> []
        /\ Forall (fun r => photo_id photo ∈ photo_id <$> rr_submitted r) (tr_rounds t))
  /\ (forall form form_folder all_photos e,
        let phase := (export_form_photos w form form_folder all_photos cache e).1 in
        photo ∈ pp_backlog phase ->
        fr_export_ended (pp_result phase) = false ->
        photo_id photo ∈ photo_id <$> tr_failed_photos (pp_transfer phase)
        /\ fr_photos_failed (pp_result phase)
           = length (tr_failed_photos (pp_transfer phase))
        /\ fr_photos_skipped (pp_result phase)
           = length all_photos - length (pp_backlog phase)).
Proof.
  intros Hterm. split; [|split].
  - intros folder e. by apply process_single_photo_terminal.
  - intros backlog folder e Hin. by apply transfer_photos_terminal.
  - intros form form_folder all_photos e. unfold export_form_photos.
    destruct (_get_or_create_folder w "photos" form_folder e) as [pf e1].
    destruct (_list_drive_folder_contents w pf true e1) as [existing e2].
    destruct (cleanup_deleted_photos w pf cache form e2) as [[deleted action] e3].
    set (backlog := List.filter (to_download existing e2) all_photos).
    pose proof (fun Hin => transfer_photos_terminal w backlog pf cache e3 photo Hterm Hin)
      as Ht.
    destruct action; simpl.
    + destruct (transfer_photos w backlog pf cache e3) as [t e4]. simpl in *.
      intros Hin _. by destruct (Ht Hin) as (? & _).
    + destruct (transfer_photos w backlog pf cache e3) as [t e4]. simpl in *.
      intros Hin _. by destruct (Ht Hin) as (? & _).
    + done.
Qed.

(** C4: when the first two retry rounds end with the same number of failed
    photos, the retry loop stops; the second round had submitted exactly
    what the first had left failed. *)
Theorem C4_no_third_round_without_progress w backlog folder cache e r1 r2 rest :
  tr_rounds (transfer_photos w backlog folder cache e).1 = r1 :: r2 :: rest ->
  length (rr_still_failed r2) = length (rr_still_failed r1) ->
  rest = [] /\ rr_submitted r2 = rr_still_failed r1.
Proof.
  unfold transfer_photos. destruct backlog as [|p l]; [done|].
  destruct (_download_and_upload_photos w (p :: l) folder cache e)
    as [[all_results failed] e1].
  match goal with |- context [retry_failed w 3 0 ?pv ?up failed ?rs [] folder cache e1] =>
    destruct (retry_failed_rounds w 3 0 pv up failed rs [] folder cache e1 eq_refl)
      as (new & -> & _ & Hok) end.
  simpl. intros -> Hlen. simpl in Hok.
  destruct Hok as (_ & _ & _ & Hsub & _ & Hstop & _).
  split; [|done]. apply Hstop; lia.
Qed.

Lemma occurrences_filter_le id f l :
  occurrences id (List.filter f l) <= occurrences id l.
Proof.
  induction l as [|p l IH]; simpl; [done|].
  destruct (f p); rewrite ?occurrences_cons; lia.
Qed.

Lemma occurrences_absent id l : id ∉ photo_id <$> l -> occurrences id l = 0.
Proof.
  induction l as [|p l IH]; [done|]. rewrite fmap_cons, not_elem_of_cons.
  intros [Hne Hl]. rewrite occurrences_cons, (IH Hl).
  assert (String.eqb (photo_id p) id = false) as ->
    by (apply String.eqb_neq; congruence).
  done.
Qed.

Lemma occurrences_NoDup id l : NoDup (photo_id <$> l) -> occurrences id l <= 1.
Proof.
  induction l as [|p l IH]; [unfold occurrences; simpl; lia|].
  rewrite fmap_cons, NoDup_cons. intros [Hp Hl]. rewrite occurrences_cons.
  destruct (String.eqb_spec (photo_id p) id) as [<-|]; [|by specialize (IH Hl); lia].
  rewrite (occurrences_absent _ _ Hp). lia.
Qed.

Lemma no_transfer_no_work folder id evs :
  Forall no_transfer evs -> count_events (work_on folder id) evs = 0.
Proof.
  intros H. apply count_events_none. eapply Forall_impl; [exact H|].
  by intros [].
Qed.

Lemma creation_is_work folder id evs :
  count_events (creation_of folder id) evs <= count_events (work_on folder id) evs.
Proof.
  unfold count_events. induction evs as [|ev evs IH]; simpl; [done|].
  destruct ev as [| | |p n m rs []| | | | |]; simpl; try done;
    repeat case_if; simpl; lia.
Qed.

Lemma about_others_no_work folder (ids : list string) id evs :
  Forall (fun ev => exists id', id' ∈ ids /\ about folder id' ev) evs ->
  id ∉ ids -> count_events (work_on folder id) evs = 0.
Proof.
  intros H Hid. apply count_events_none. eapply Forall_impl; [exact H|].
  intros ev (id' & Hin & Hab). simpl.
  destruct (work_on folder id ev) eqn:Hw; [|done].
  by rewrite <- (about_work_on _ _ _ _ Hab Hw) in Hid.
Qed.

Lemma get_or_create_folder_uploaded w name parent e :
  uploaded_photos (_get_or_create_folder w name parent e).2 = uploaded_photos e.
Proof.
  unfold _get_or_create_folder. destruct (folder_cache e !! _); [done|].
  by destruct (List.filter _ _).
Qed.

Lemma list_drive_folder_contents_uploaded w folder use_cache e :
  uploaded_photos (_list_drive_folder_contents w folder use_cache e).2
  = uploaded_photos e.
Proof.
  unfold _list_drive_folder_contents.
  destruct (if use_cache then _ else _); [done|]. case_if; [done|].
  by destruct use_cache.
Qed.

(** The photo phase of a form first does work that is no transfer (folder
    lookup, listing, orphan cleanup) and then transfers the backlog. *)
Lemma export_form_photos_events w form form_folder all_photos cache e id0 :
  let pf := (_get_or_create_folder w "photos" form_folder e).1 in
  let phase := (export_form_photos w form form_folder all_photos cache e).1 in
  let e' := (export_form_photos w form form_folder all_photos cache e).2 in
  exists pre evs,
    emits e e' (pre ++ evs)
    /\ Forall no_transfer pre
    /\ Forall (fun ev => exists id,
                 id ∈ photo_id <$> pp_backlog phase /\ about pf id ev) evs
    /\ ((forall n, pool_dispatch w n = Completed) ->
        count_events (creation_of pf id0) evs <= occurrences id0 (pp_backlog phase)).
Proof.
  unfold export_form_photos.
  destruct (get_or_create_folder_events w "photos" form_folder e) as (ev1 & Hem1 & Hn1).
  destruct (_get_or_create_folder w "photos" form_folder e) as [pf e1]. simpl in Hem1.
  destruct (list_drive_folder_contents_events w pf true e1 []) as (ev2 & Hem2 & Hn2).
  destruct (_list_drive_folder_contents w pf true e1) as [existing e2]. simpl in Hem2.
  destruct (cleanup_deleted_photos_events w pf cache form e2) as (ev3 & Hem3 & Hn3).
  destruct (cleanup_deleted_photos w pf cache form e2) as [[deleted action] e3].
  simpl in Hem3.
  set (backlog := List.filter (to_download existing e2) all_photos).
  assert (Hpre : emits e e3 (ev1 ++ ev2 ++ ev3) /\ Forall no_transfer (ev1 ++ ev2 ++ ev3)).
  { split; [eapply emits_app; [exact Hem1|]; by eapply emits_app|].
    rewrite !Forall_app. split; [done|]. split.
    - eapply Forall_impl; [exact Hn2|]. apply gate_event_no_transfer.
    - eapply Forall_impl; [exact Hn3|]. apply gate_event_no_transfer. }
  destruct Hpre as [Hem Hno].
  pose proof (transfer_photos_events w backlog pf cache e3 id0) as Ht.
  destruct action; simpl.
  - destruct (transfer_photos w backlog pf cache e3) as [t e4]. simpl.
    destruct Ht as (evs & Hem4 & Hab & Hcount).
    exists (ev1 ++ ev2 ++ ev3), evs. split; [|done].
    eapply emits_same; [by eapply emits_app | done].
  - destruct (transfer_photos w backlog pf cache e3) as [t e4]. simpl.
    destruct Ht as (evs & Hem4 & Hab & Hcount).
    exists (ev1 ++ ev2 ++ ev3), evs. split; [|done].
    eapply emits_same; [by eapply emits_app | done].
  - exists (ev1 ++ ev2 ++ ev3), []. rewrite app_nil_r. split; [done|].
    split; [done|]. split; [done|]. intros _. unfold count_events. simpl. lia.
Qed.

Lemma export_form_photos_backlog w form form_folder all_photos cache e :
  let pf := (_get_or_create_folder w "photos" form_folder e).1 in
  let e1 := (_get_or_create_folder w "photos" form_folder e).2 in
  let existing := (_list_drive_folder_contents w pf true e1).1 in
  forall photo,
    photo ∈ pp_backlog (export_form_photos w form form_folder all_photos cache e).1
    <-> photo ∈ all_photos
        /\ ~ (photo_id photo +:+ ".jpg" ∈ existing
              \/ photo_id photo +:+ ".png" ∈ existing
              \/ photo_id photo ∈ uploaded_photos e).
Proof.
  unfold export_form_photos.
  pose proof (get_or_create_folder_uploaded w "photos" form_folder e) as Hu1.
  destruct (_get_or_create_folder w "photos" form_folder e) as [pf e1]. simpl in *.
  pose proof (list_drive_folder_contents_uploaded w pf true e1) as Hu2.
  destruct (_list_drive_folder_contents w pf true e1) as [existing e2]. simpl in *.
  destruct (cleanup_deleted_photos w pf cache form e2) as [[deleted action] e3].
  intros photo.
  assert (Hfilter : photo ∈ List.filter (to_download existing e2) all_photos
                    <-> photo ∈ all_photos
                        /\ ~ (photo_id photo +:+ ".jpg" ∈ existing
                              \/ photo_id photo +:+ ".png" ∈ existing
                              \/ photo_id photo ∈ uploaded_photos e)).
  { rewrite !list_elem_of_In, List.filter_In. unfold to_download, _is_photo_uploaded.
    rewrite Hu2, Hu1.
    destruct (bool_decide_reflect (photo_id photo +:+ ".jpg" ∈ existing));
      destruct (bool_decide_reflect (photo_id photo +:+ ".png" ∈ existing));
      destruct (bool_decide_reflect (photo_id photo ∈ uploaded_photos e));
      simpl; intuition congruence. }
  destruct action; simpl; [|by destruct (transfer_photos _ _ _ _ _)|done].
  by destruct (transfer_photos _ _ _ _ _).
Qed.

(** C1, as amended.  In the photo phase of a form: the backlog holds exactly
    the photo references whose two keys are absent from the listing of the
    photos folder and whose id is not in the transferred-photo set; for an
    asset excluded in this way no fetch and no creation call is made at all;
    and, while the pool sees every job complete, the objects created under
    the keys of an asset, over the first attempt and all retry rounds, are at
    most as many as the backlog has references with that id, so at most one
    when the references of the form carry distinct ids.  (Creation calls that
    fail may be repeated, inside an upload and by the retry rounds.) *)
Theorem C1_at_most_one_creation_per_backlog_entry w form form_folder all_photos cache e :
  let pf := (_get_or_create_folder w "photos" form_folder e).1 in
  let e1 := (_get_or_create_folder w "photos" form_folder e).2 in
  let existing := (_list_drive_folder_contents w pf true e1).1 in
  let phase := (export_form_photos w form form_folder all_photos cache e).1 in
  let e' := (export_form_photos w form form_folder all_photos cache e).2 in
  let excluded id :=
    id +:+ ".jpg" ∈ existing \/ id +:+ ".png" ∈ existing \/ id ∈ uploaded_photos e in
  (forall photo,
     photo ∈ pp_backlog phase <-> photo ∈ all_photos /\ ~ excluded (photo_id photo))
  /\ (forall id, excluded id -> count_events (work_on pf id) (emitted e e') = 0)
  /\ ((forall n, pool_dispatch w n = Completed) ->
      forall id,
        count_events (creation_of pf id) (emitted e e') <= occurrences id (pp_backlog phase)
        /\ (NoDup (photo_id <$> all_photos) ->
            count_events (creation_of pf id) (emitted e e') <= 1)).
Proof.
  intros pf e1 existing phase e' excluded.
  pose proof (export_form_photos_backlog w form form_folder all_photos cache e) as Hback.
  cbv zeta in Hback. fold pf e1 existing phase in Hback.
  split; [exact Hback|]. split.
  - intros id Hex.
    destruct (export_form_photos_events w form form_folder all_photos cache e id)
      as (pre & evs & Hem & Hno & Hab & _).
    fold pf phase e' in Hem, Hab.
    rewrite (emitted_emits _ _ _ Hem), count_events_app.
    rewrite (no_transfer_no_work _ _ _ Hno).
    rewrite (about_others_no_work _ _ id _ Hab); [done|].
    intros (photo & -> & Hin)%list_elem_of_fmap.
    apply Hback in Hin as [_ Hnot]. by apply Hnot.
  - intros Hall id.
    destruct (export_form_photos_events w form form_folder all_photos cache e id)
      as (pre & evs & Hem & Hno & Hab & Hcount).
    fold pf phase e' in Hem, Hab, Hcount. specialize (Hcount Hall).
    assert (Hle : count_events (creation_of pf id) (emitted e e')
                  <= occurrences id (pp_backlog phase)).
    { rewrite (emitted_emits _ _ _ Hem), count_events_app.
      pose proof (creation_is_work pf id pre) as Hpre.
      rewrite (no_transfer_no_work _ _ _ Hno) in Hpre. lia. }
    split; [done|]. intros Hnodup.
    assert (Hocc : occurrences id (pp_backlog phase) <= occurrences id all_photos).
    { clear -Hback. subst phase. unfold export_form_photos.
      destruct (_get_or_create_folder w "photos" form_folder e) as [pf0 e0].
      destruct (_list_drive_folder_contents w pf0 true e0) as [ex e2].
      destruct (cleanup_deleted_photos w pf0 cache form e2) as [[d a] e3].
      destruct a; simpl; try destruct (transfer_photos _ _ _ _ _); simpl;
        apply occurrences_filter_le. }
    pose proof (occurrences_NoDup id _ Hnodup). lia.
Qed.

Lemma C1_witness :
  let e := new_exporter plain_config [] in
  let pf := (_get_or_create_folder quiet_world "photos" "F" e).1 in
  let e' := (export_form_photos quiet_world "Form" "F" [photo_ref "a"] one_jpeg e).2 in
  (forall n, pool_dispatch quiet_world n = Completed)
  /\ count_events (creation_of pf "a") (emitted e e') <= 1.
Proof.
  intros e pf e'.
  assert (Hall : forall n, pool_dispatch quiet_world n = Completed) by reflexivity.
  split; [exact Hall|].
  pose proof (C1_at_most_one_creation_per_backlog_entry quiet_world "Form" "F"
                [photo_ref "a"] one_jpeg e) as (_ & _ & H).
  apply (H Hall "a"). apply NoDup_singleton.
Defined.

(** C1, as stated, fails: the creation call for an asset's key is made
    twice when the first call is refused and a retry round submits the
    asset again.  Two objects are even created for one id when two photo
    references carry it, and when the batch deadline passes while the job is
    running. *)
Lemma C1_counterexample_repeated_creation :
  let e := new_exporter plain_config [] in
  let pf := (_get_or_create_folder quiet_world "photos" "F" e).1 in
  ~ (count_events (create_call_of pf "a")
       (emitted e (export_form_photos refusing_drive_world "Form" "F"
                     [photo_ref "a"] one_jpeg e).2) <= 1)
  /\ ~ (count_events (creation_of pf "a")
          (emitted e (export_form_photos quiet_world "Form" "F"
                        [photo_ref "a"; photo_ref "a"] one_jpeg e).2) <= 1)
  /\ ~ (count_events (creation_of pf "a")
          (emitted e (export_form_photos stalling_world "Form" "F"
                        [photo_ref "a"] one_jpeg e).2) <= 1).
Proof.
  intros e pf.
  split; [|split].
  - assert (H1 : count_events (create_call_of pf "a")
                 (emitted e (export_form_photos refusing_drive_world "Form" "F"
                               [photo_ref "a"] one_jpeg e).2) = 2) by (by vm_compute).
    rewrite H1. clear. lia.
  - assert (H2 : count_events (creation_of pf "a")
                 (emitted e (export_form_photos quiet_world "Form" "F"
                               [photo_ref "a"; photo_ref "a"] one_jpeg e).2) = 2)
    by (by vm_compute).
    rewrite H2. clear. lia.
  - assert (H3 : count_events (creation_of pf "a")
                 (emitted e (export_form_photos stalling_world "Form" "F"
                               [photo_ref "a"] one_jpeg e).2) = 2) by (by vm_compute).
    rewrite H3. clear. lia.
Qed.

Lemma C3_witness :
  let e := new_exporter plain_config [] in
  let phase :=
    (export_form_photos quiet_world "Form" "F" [photo_ref "a"] one_deleted e).1 in
  terminal one_deleted (photo_ref "a")
  /\ fr_photos_failed (pp_result phase) = length (tr_failed_photos (pp_transfer phase))
  /\ tr_rounds (transfer_photos quiet_world [photo_ref "a"] "P" one_deleted e).1 <> [].
Proof.
  intros e phase.
  assert (Hterm : terminal one_deleted (photo_ref "a")).
  { exists meta_deleted, "Photo deleted". split; reflexivity. }
  split; [exact Hterm|].
  destruct (C3_rejected_assets_fail_without_network quiet_world one_deleted
              (photo_ref "a") Hterm) as (_ & Hretry & Hcount).
  split.
  - apply (Hcount "Form" "F" [photo_ref "a"] e); [|reflexivity].
    vm_compute. apply list_elem_of_here.
  - apply (Hretry [photo_ref "a"] "P" e). apply list_elem_of_here.
Defined.

(** C3, as stated, fails: a photo marked deleted is submitted to both retry
    rounds and ends up counted as failed, with nothing counted as skipped. *)
Lemma C3_counterexample_deleted_photo_is_retried_and_failed :
  let e := new_exporter plain_config [] in
  let run := export_form_photos quiet_world "Form" "F" [photo_ref "a"] one_deleted e in
  fr_photos_skipped (pp_result run.1) = 0
  /\ fr_photos_failed (pp_result run.1) = 1
  /\ stats run.2 !! "photos_skipped" = Some 0
  /\ stats run.2 !! "photos_failed" = Some 1
  /\ ((fun r => photo_id <$> rr_submitted r) <$> tr_rounds (pp_transfer run.1))
     = [["a"]; ["a"]].
Proof. intros e run. repeat split; by vm_compute. Qed.

Lemma C4_witness :
  let t := (transfer_photos quiet_world ten_photos "P" ∅
              (new_exporter plain_config [])).1 in
  (length <$> (rr_still_failed <$> tr_rounds t)) = [10; 10].
Proof.
  intros t.
  set (d := {| rr_submitted := []; rr_still_failed := [] |}).
  assert (Hshape : tr_rounds t
                   = hd d (tr_rounds t) :: hd d (tl (tr_rounds t)) :: tl (tl (tr_rounds t)))
    by (by vm_compute).
  assert (Hsame : length (rr_still_failed (hd d (tl (tr_rounds t))))
                  = length (rr_still_failed (hd d (tr_rounds t))))
    by (by vm_compute).
  destruct (C4_no_third_round_without_progress quiet_world ten_photos "P" ∅
              (new_exporter plain_config []) _ _ _ Hshape Hsame) as [Hrest _].
  rewrite Hshape, Hrest. by vm_compute.
Defined.

(** ** Deletion by name: what it asks for and what it leaves *)

Lemma alist_set_elem k v m kv :
  kv ∈ alist_set k v m -> kv = (k, v) \/ kv ∈ m.
Proof.
  induction m as [|[k' v'] m IH]; simpl.
  - intros H. apply list_elem_of_singleton in H. by left.
  - destruct (String.eqb k' k).
    + intros H. apply elem_of_cons in H as [->|H]; [by left|].
      right. by apply list_elem_of_further.
    + intros H. apply elem_of_cons in H as [->|H]; [right; apply list_elem_of_here|].
      destruct (IH H) as [->|H']; [by left|]. right. by apply list_elem_of_further.
Qed.

Lemma build_file_id_map_from (wanted : gset string) listing acc kv :
  kv ∈ fold_left
         (fun m f =>
            if decide (item_name f ∈ wanted)
            then alist_set (item_name f) (item_id f) m else m)
         listing acc ->
  kv ∈ acc
  \/ exists it, it ∈ listing /\ kv = (item_name it, item_id it) /\ item_name it ∈ wanted.
Proof.
  revert acc. induction listing as [|f listing IH]; intros acc; simpl; [by left|].
  intros H. apply IH in H as [H|(it & Hit & Hkv & Hw)].
  - destruct (decide (item_name f ∈ wanted)) as [Hw|]; [|by left].
    apply alist_set_elem in H as [->|H]; [|by left].
    right. exists f. split; [apply list_elem_of_here|done].
  - right. exists it. split; [by apply list_elem_of_further|done].
Qed.

Lemma build_file_id_map_elem (wanted : gset string) listing kv :
  kv ∈ build_file_id_map wanted listing ->
  exists it, it ∈ listing /\ kv = (item_name it, item_id it) /\ item_name it ∈ wanted.
Proof.
  intros H. apply build_file_id_map_from in H as [H|H]; [|done].
  by apply not_elem_of_nil in H.
Qed.

Lemma remove_item_elem id d it :
  it ∈ remove_item id d <-> it ∈ d /\ item_id it <> id.
Proof. unfold remove_item. rewrite list_elem_of_filter. tauto. Qed.

(** What [delete_by_id] does to Drive: it only removes items, and only
    items that carry an id of the map. *)
Lemma delete_by_id_drive w m n e :
  let d' := drive (remote (delete_by_id w m n e).2) in
  (forall it, it ∈ d' -> it ∈ drive (remote e))
  /\ (forall it, it ∈ drive (remote e) -> item_id it ∉ m.*2 -> it ∈ d')
  /\ (delete_by_id w m n e).1 <= n + length m.
Proof.
  revert n e. induction m as [|[name id] m IH]; intros n e; simpl.
  { split; [done|]. split; [done|]. lia. }
  destruct (drive_delete_ok w (tick (remote e))).
  - match goal with |- context [delete_by_id w m ?a ?s] =>
      destruct (IH a s) as (Hsub & Hkeep & Hlen) end.
    simpl in Hsub, Hkeep. split; [|split].
    + intros it Hit. apply Hsub in Hit. by apply remove_item_elem in Hit as [? _].
    + intros it Hit Hid. apply not_elem_of_cons in Hid as [Hne Hid].
      apply Hkeep; [|done]. by apply remove_item_elem.
    + lia.
  - match goal with |- context [delete_by_id w m ?a ?s] =>
      destruct (IH a s) as (Hsub & Hkeep & Hlen) end.
    simpl in Hsub, Hkeep. split; [|split].
    + done.
    + intros it Hit Hid. apply not_elem_of_cons in Hid as [Hne Hid]. by apply Hkeep.
    + lia.
Qed.

(** When Drive grants every deletion, all of the map is deleted. *)
Lemma delete_by_id_all w m n e :
  (forall t, drive_delete_ok w t = true) ->
  (delete_by_id w m n e).1 = n + length m
  /\ forall it, it ∈ drive (remote (delete_by_id w m n e).2) -> item_id it ∉ m.*2.
Proof.
  intros Hok. revert n e. induction m as [|[name id] m IH]; intros n e; simpl.
  { split; [lia|]. intros it _. apply not_elem_of_nil. }
  rewrite Hok.
  match goal with |- context [delete_by_id w m ?a ?s] =>
    destruct (IH a s) as (Hlen & Hgone);
    pose proof (delete_by_id_drive w m a s) as (Hsub & _) end.
  simpl in Hsub. split; [lia|].
  intros it Hit. apply not_elem_of_cons. split; [|by apply Hgone].
  apply Hsub in Hit. by apply remove_item_elem in Hit as [_ ?].
Qed.

Lemma NoDup_fmap_eq {A B} (f : A -> B) (l : list A) x y :
  NoDup (f <$> l) -> x ∈ l -> y ∈ l -> f x = f y -> x = y.
Proof.
  induction l as [|a l IH]; simpl; intros Hnd Hx Hy Hf.
  { by apply not_elem_of_nil in Hx. }
  apply NoDup_cons in Hnd as [Ha Hnd].
  apply elem_of_cons in Hx as [->|Hx]; apply elem_of_cons in Hy as [->|Hy].
  - done.
  - destruct Ha. rewrite Hf. by apply list_elem_of_fmap_2.
  - destruct Ha. rewrite <- Hf. by apply list_elem_of_fmap_2.
  - by apply IH.
Qed.

Lemma alist_set_fresh k v m : k ∉ m.*1 -> alist_set k v m = m ++ [(k, v)].
Proof.
  induction m as [|[k' v'] m IH]; simpl; [done|].
  intros H. apply not_elem_of_cons in H as [Hne H].
  destruct (String.eqb k' k) eqn:Heq.
  - apply String.eqb_eq in Heq. congruence.
  - by rewrite IH.
Qed.

(** While the listed names are distinct, the map of
    [delete_photos_from_drive] holds the wanted items in listing order. *)
Lemma build_file_id_map_NoDup (wanted : gset string) listing acc :
  NoDup (item_name <$> listing) ->
  (forall it, it ∈ listing -> item_name it ∉ acc.*1) ->
  fold_left
    (fun m f =>
       if decide (item_name f ∈ wanted)
       then alist_set (item_name f) (item_id f) m else m)
    listing acc
  = acc ++ ((fun it => (item_name it, item_id it))
              <$> filter (fun it => item_name it ∈ wanted) listing).
Proof.
  revert acc. induction listing as [|f listing IH]; intros acc Hnd Hacc; simpl.
  { by rewrite app_nil_r. }
  apply NoDup_cons in Hnd as [Hf Hnd].
  rewrite filter_cons.
  destruct (decide (item_name f ∈ wanted)) as [Hw|Hw].
  - rewrite alist_set_fresh by (apply Hacc, list_elem_of_here).
    rewrite IH; [by rewrite <- app_assoc|done|].
    intros it Hit. rewrite fmap_app. apply not_elem_of_app. split.
    + by apply Hacc, list_elem_of_further.
    + simpl. intros H. apply list_elem_of_singleton in H.
      apply Hf. rewrite <- H. by apply list_elem_of_fmap_2.
  - apply IH; [done|]. intros it Hit. by apply Hacc, list_elem_of_further.
Qed.

Lemma delete_by_id_keeps w m n e :
  let e' := (delete_by_id w m n e).2 in
  skipped_forms e' = skipped_forms e /\ export_cancelled e' = export_cancelled e
  /\ config e' = config e.
Proof.
  revert n e. induction m as [|[name id] m IH]; intros n e; simpl; [done|].
  destruct (drive_delete_ok w (tick (remote e)));
    match goal with |- context [delete_by_id w m ?a ?s] =>
      destruct (IH a s) as (-> & -> & ->) end; done.
Qed.

Lemma delete_photos_from_drive_keeps w filenames folder e :
  let e' := (delete_photos_from_drive w filenames folder e).2 in
  skipped_forms e' = skipped_forms e /\ export_cancelled e' = export_cancelled e
  /\ config e' = config e.
Proof.
  unfold delete_photos_from_drive. set (m := build_file_id_map _ _).
  pose proof (delete_by_id_keeps w m 0 (call w (EvList folder) e)) as H.
  by destruct (delete_by_id w m 0 (call w (EvList folder) e)) as [n e2].
Qed.




(** ** Approval gate *)




Lemma after_polls_tick w ts k e :
  tick (remote (after_polls w ts k e)) = tick (remote e) + k.
Proof.
  revert e. induction k as [|k IH]; intros e; simpl; [lia|]. rewrite IH. simpl. lia.
Qed.


Lemma after_polls_config w ts k e : config (after_polls w ts k e) = config e.
Proof. revert e. induction k as [|k IH]; intros e; simpl; [done|]. by rewrite IH. Qed.

Lemma after_polls_S w ts k e :
  after_polls w ts (S k) e
  = sleep poll_interval_ms (call w (EvSlackPoll ts) (after_polls w ts k e)).
Proof.
  revert e. induction k as [|k IH]; intros e; [done|].
  change (after_polls w ts (S (S k)) e)
    with (after_polls w ts (S k) (sleep poll_interval_ms (call w (EvSlackPoll ts) e))).
  by rewrite IH.
Qed.



Lemma undisturbed_refl e : undisturbed e e.
Proof. done. Qed.


Lemma list_drive_folder_contents_undisturbed w folder use_cache e :
  undisturbed e (_list_drive_folder_contents w folder use_cache e).2.
Proof.
  unfold _list_drive_folder_contents.
  destruct (if use_cache then _ else _); [done|]. case_if; [done|].
  by destruct use_cache.
Qed.

Lemma identify_orphaned_photos_undisturbed w folder cache e :
  undisturbed e (identify_orphaned_photos w folder cache e).2.
Proof.
  rewrite identify_orphaned_photos_state. apply list_drive_folder_contents_undisturbed.
Qed.







Lemma emitted_later e e1 e2 pre evs ev :
  emits e e1 pre -> emits e1 e2 evs -> ev ∈ emitted e1 e2 -> ev ∈ emitted e e2.
Proof.
  intros H1 H2 Hev. rewrite (emitted_emits _ _ _ H2) in Hev.
  rewrite (emitted_emits _ _ _ (emits_app _ _ _ _ _ H1 H2)).
  apply elem_of_app. by right.
Qed.




(** ** Orchestrator *)











(** ** The export-state file is out of reach of the export of a form *)



























(** * Further properties *)

(** ** Target location cache *)

(** Once a folder has been looked up or created, asking for it again is
    answered from the cache: the same id, no network call, no change of
    state. *)
Theorem get_or_create_folder_is_cached w name parent e :
  let r := _get_or_create_folder w name parent e in
  _get_or_create_folder w name parent r.2 = r.
Proof.
  intros r. subst r. unfold _get_or_create_folder.
  destruct (folder_cache e !! _) as [id|] eqn:Hc; simpl.
  - by rewrite Hc.
  - destruct (List.filter _ _) as [|it rest] eqn:Hf; simpl;
      by rewrite lookup_insert_eq.
Qed.

(** A lookup that misses the cache returns the id of a folder of that name
    under the parent, which exists in Drive afterwards; Drive is left as it
    was when such a folder existed already, and has otherwise grown by this
    one folder, which is then remembered as newly created. *)
Theorem get_or_create_folder_result w name parent e :
  folder_cache e !! (parent +:+ "/" +:+ name) = None ->
  let id := (_get_or_create_folder w name parent e).1 in
  let e' := (_get_or_create_folder w name parent e).2 in
  (exists it, it ∈ drive (remote e') /\ item_id it = id /\ folder_named name parent it)
  /\ folder_cache e' !! (parent +:+ "/" +:+ name) = Some id
  /\ ((exists it, it ∈ drive (remote e) /\ folder_named name parent it) ->
      drive (remote e') = drive (remote e) /\ new_folders e' = new_folders e)
  /\ ((forall it, it ∈ drive (remote e) -> ~ folder_named name parent it) ->
      drive (remote e') = drive (remote e) ++ [new_folder id name parent]
      /\ id ∈ new_folders e').
Proof.
  intros Hmiss. unfold _get_or_create_folder. rewrite Hmiss. simpl.
  set (found := List.filter _ _).
  assert (Hfound : forall it, it ∈ found <->
                     it ∈ drive (remote e) /\ folder_named name parent it).
  { intros it. unfold found, children, folder_named.
    rewrite list_elem_of_In, List.filter_In, <- list_elem_of_In, list_elem_of_filter.
    rewrite andb_true_iff, !String.eqb_eq. tauto. }
  destruct found as [|it rest]; simpl.
  - split; [|split; [|split]].
    + eexists. split; [apply elem_of_app; right; apply list_elem_of_here|].
      by repeat split.
    + by rewrite lookup_insert_eq.
    + intros (it & Hit). apply Hfound in Hit. by apply not_elem_of_nil in Hit.
    + intros _. split; [done|]. apply elem_of_union_l, elem_of_singleton. done.
  - assert (Hit : it ∈ it :: rest) by apply list_elem_of_here.
    apply Hfound in Hit as [Hin Hnamed].
    split; [|split; [|split]].
    + by exists it.
    + by rewrite lookup_insert_eq.
    + done.
    + intros Hnone. by destruct (Hnone it Hin).
Qed.

Lemma get_or_create_folder_result_witness :
  let e := new_exporter plain_config [] in
  (_get_or_create_folder quiet_world "photos" "F" e).1 = "id1"
  /\ drive (remote (_get_or_create_folder quiet_world "photos" "F" e).2)
     = [new_folder "id1" "photos" "F"].
Proof.
  intros e.
  destruct (get_or_create_folder_result quiet_world "photos" "F" e eq_refl)
    as (_ & _ & _ & Hnew).
  split; [reflexivity|].
  apply Hnew. intros it Hit. by apply not_elem_of_nil in Hit.
Defined.

(** ** Mutations of a Drive folder *)

Lemma upload_attempts_drive w remaining attempt max_retries content name parent mime e :
  let '(ok, e') :=
    upload_attempts w remaining attempt max_retries content name parent mime e in
  exists evs,
    emits e e' evs
    /\ length evs <= remaining
    /\ Forall (fun ev => is_create_call ev = true) evs
    /\ if ok then exists id,
           drive (remote e') = drive (remote e) ++ [new_file id name mime parent]
       else drive (remote e') = drive (remote e).
Proof.
  revert attempt e. induction remaining as [|remaining IH]; intros attempt e; simpl.
  { exists []. split; [apply emits_nil|]. by repeat split. }
  destruct (drive_create_outcome w (tick (remote e))) as [|status|] eqn:Hout.
  - eexists [_]. split; [emits_none|]. split; [simpl; lia|].
    split; [by repeat constructor|]. by eexists.
  - case_if.
    + match goal with |- context [upload_attempts w remaining ?a _ _ _ _ _ ?s] =>
        specialize (IH a s);
        destruct (upload_attempts w remaining a max_retries content name parent mime s)
          as [ok e'] end.
      destruct IH as (evs & Hem & Hlen & Hall & Hdrive).
      eexists (_ :: evs). split; [apply (emits_cons w); exact Hem|]. split; [simpl; lia|].
      split; [by constructor|]. exact Hdrive.
    + eexists [_]. split; [emits_none|]. split; [simpl; lia|].
      split; [by repeat constructor|]. done.
  - case_if.
    + match goal with |- context [upload_attempts w remaining ?a _ _ _ _ _ ?s] =>
        specialize (IH a s);
        destruct (upload_attempts w remaining a max_retries content name parent mime s)
          as [ok e'] end.
      destruct IH as (evs & Hem & Hlen & Hall & Hdrive).
      eexists (_ :: evs). split; [apply (emits_cons w); exact Hem|]. split; [simpl; lia|].
      split; [by constructor|]. exact Hdrive.
    + eexists [_]. split; [emits_none|]. split; [simpl; lia|].
      split; [by repeat constructor|]. done.
Qed.

(** An upload makes at most [max_retries] calls of the creation endpoint
    and nothing else; it answers [True] exactly when the last of them
    created the object, which is then the one item Drive has gained, and
    an upload that answers [False] leaves Drive as it was. *)
Theorem upload_to_drive_outcome w content name parent mime max_retries e :
  let ok := (_upload_to_drive w content name parent mime max_retries e).1 in
  let e' := (_upload_to_drive w content name parent mime max_retries e).2 in
  length (emitted e e') <= max_retries
  /\ Forall (fun ev => is_create_call ev = true) (emitted e e')
  /\ count_events is_created (emitted e e') = (if ok then 1 else 0)
  /\ (if ok
      then exists id,
             drive (remote e') = drive (remote e) ++ [new_file id name mime parent]
      else drive (remote e') = drive (remote e)).
Proof.
  unfold _upload_to_drive.
  pose proof (upload_attempts_drive w max_retries 0 max_retries content name parent mime e)
    as H.
  pose proof (upload_attempts_events w max_retries 0 max_retries content name parent mime e)
    as H'.
  destruct (upload_attempts w max_retries 0 max_retries content name parent mime e)
    as [ok e'].
  destruct H as (evs & Hem & Hlen & Hall & Hdrive).
  destruct H' as (evs' & Hem' & _ & Hcount).
  simpl. rewrite (emitted_emits _ _ _ Hem).
  assert (evs' = evs) as ->.
  { unfold emits in Hem, Hem'. rewrite Hem in Hem'. by apply app_inv_head in Hem'. }
  done.
Qed.

(** ** Deletion by name *)

(** While the ids of Drive are distinct, deleting photos by name removes no
    file of another folder and no file whose name was not asked for; and it
    never adds a file. *)
Theorem delete_photos_from_drive_keeps_others w filenames folder e :
  NoDup (item_id <$> drive (remote e)) ->
  let e' := (delete_photos_from_drive w filenames folder e).2 in
  (forall it, it ∈ drive (remote e') -> it ∈ drive (remote e))
  /\ (forall it,
        it ∈ drive (remote e) ->
        item_parent it <> folder \/ item_name it ∉ filenames ->
        it ∈ drive (remote e')).
Proof.
  intros Hnd. unfold delete_photos_from_drive.
  set (e1 := call w (EvList folder) e).
  set (m := build_file_id_map _ _).
  pose proof (delete_by_id_drive w m 0 e1) as (Hsub & Hkeep & _).
  destruct (delete_by_id w m 0 e1) as [deleted e2]. simpl in *.
  split; [done|].
  intros it Hit Hother. apply Hkeep; [done|].
  intros Hid. apply list_elem_of_fmap in Hid as ([name id] & Hid & Hkv).
  simpl in Hid. subst id.
  apply build_file_id_map_elem in Hkv as (it' & Hit' & [= -> Heq] & Hw).
  unfold children in Hit'. apply list_elem_of_filter in Hit' as [Hparent Hit'].
  assert (it = it') as <- by (by eapply (NoDup_fmap_eq item_id)).
  apply elem_of_list_to_set in Hw. by destruct Hother.
Qed.

Lemma delete_photos_from_drive_keeps_others_witness :
  let e := new_exporter plain_config abc_drive in
  image "1" "A.jpg" "P"
  ∈ drive (remote (delete_photos_from_drive quiet_world ["B.jpg"] "P" e).2).
Proof.
  intros e.
  assert (Hnd : NoDup (item_id <$> drive (remote e))).
  { simpl. repeat (apply NoDup_cons; split;
                   [rewrite ?elem_of_cons, elem_of_nil; intros H; repeat destruct H as [H|H]; done|]).
    apply NoDup_nil. done. }
  destruct (delete_photos_from_drive_keeps_others quiet_world ["B.jpg"] "P" e Hnd)
    as [_ Hkeep].
  apply Hkeep; [apply list_elem_of_here|].
  right. intros H. apply list_elem_of_singleton in H. done.
Defined.

(** When Drive grants every deletion and the names of the folder are
    distinct, deleting photos by name leaves no file of the folder that
    bears a requested name, and the count returned is the number of files
    of the folder that bore one. *)
Theorem delete_photos_from_drive_removes_requested w filenames folder e :
  (forall t, drive_delete_ok w t = true) ->
  NoDup (item_name <$> children folder (drive (remote e))) ->
  let deleted := (delete_photos_from_drive w filenames folder e).1 in
  let e' := (delete_photos_from_drive w filenames folder e).2 in
  (forall it, it ∈ children folder (drive (remote e')) -> item_name it ∉ filenames)
  /\ deleted
     = length (filter (fun it => item_name it ∈ filenames)
                 (children folder (drive (remote e)))).
Proof.
  intros Hok Hnd. unfold delete_photos_from_drive.
  set (e1 := call w (EvList folder) e).
  set (m := build_file_id_map _ _).
  pose proof (delete_by_id_drive w m 0 e1) as (Hsub & _ & _).
  pose proof (delete_by_id_all w m 0 e1 Hok) as (Hlen & Hgone).
  assert (Hm : m = (fun it => (item_name it, item_id it))
                     <$> filter (fun it => item_name it ∈ (list_to_set filenames : gset string))
                           (children folder (drive (remote e)))).
  { unfold m, build_file_id_map. rewrite build_file_id_map_NoDup; [done|done|].
    intros it _. apply not_elem_of_nil. }
  destruct (delete_by_id w m 0 e1) as [deleted e2]. simpl in *.
  split.
  - intros it Hit Hname. unfold children in Hit.
    apply list_elem_of_filter in Hit as [Hparent Hit].
    apply (Hgone it Hit). rewrite Hm, <- list_fmap_compose.
    apply list_elem_of_fmap. exists it. split; [done|].
    apply list_elem_of_filter. split.
    + by apply elem_of_list_to_set.
    + apply list_elem_of_filter. split; [done|]. by apply Hsub.
  - rewrite Hlen, Hm, length_fmap. simpl. f_equal.
    apply list_filter_iff. intros it. by rewrite elem_of_list_to_set.
Qed.

Lemma delete_photos_from_drive_removes_requested_witness :
  let e := new_exporter plain_config abc_drive in
  (delete_photos_from_drive quiet_world ["B.jpg"; "Z.jpg"] "P" e).1 = 1.
Proof.
  intros e.
  assert (Hnd : NoDup (item_name <$> children "P" (drive (remote e)))).
  { apply (bool_decide_unpack _). by vm_compute. }
  destruct (delete_photos_from_drive_removes_requested quiet_world
              ["B.jpg"; "Z.jpg"] "P" e (fun _ => eq_refl) Hnd) as [_ Hcount].
  rewrite Hcount. by vm_compute.
Defined.

(** ** Clearing a folder *)

Lemma nesting_below_shrink depth folder d d' :
  (forall it, it ∈ d' -> it ∈ d) ->
  nesting_below depth folder d = true -> nesting_below depth folder d' = true.
Proof.
  intros Hsub. revert folder. induction depth as [|depth IH]; intros folder; simpl; [done|].
  rewrite !forallb_forall. intros H it Hit.
  apply list_elem_of_In in Hit. unfold children in Hit.
  apply list_elem_of_filter in Hit as [Hparent Hit].
  assert (Hin : In it (children folder d)).
  { apply list_elem_of_In. unfold children. apply list_elem_of_filter. split; [done|].
    by apply Hsub. }
  specialize (H it Hin). apply orb_true_iff in H as [H|H]; apply orb_true_iff.
  - by left.
  - right. by apply IH.
Qed.

(** The loop of [_clear_folder_contents], given that the recursive call
    returns on every subfolder that is shallow enough. *)
Lemma clear_items_total w depth (clear : string -> Exporter -> option (nat * Exporter)) :
  (forall folder e,
     nesting_below depth folder (drive (remote e)) = true ->
     exists n e', clear folder e = Some (n, e')
                  /\ forall it, it ∈ drive (remote e') -> it ∈ drive (remote e)) ->
  forall items deleted e,
    (forall f, f ∈ items -> item_mime f = folder_mime ->
               nesting_below depth (item_id f) (drive (remote e)) = true) ->
    exists n e',
      clear_items w clear items deleted e = Some (n, e')
      /\ (forall it, it ∈ drive (remote e') -> it ∈ drive (remote e))
      /\ ((forall t, drive_delete_ok w t = true) ->
          deleted + length items <= n
          /\ forall f it, f ∈ items -> it ∈ drive (remote e') -> item_id it <> item_id f).
Proof.
  intros Hclear. induction items as [|f items IH]; intros deleted e Hdepth; simpl.
  { exists deleted, e. split; [done|]. split; [done|]. intros _. split; [lia|].
    intros f it Hf. by apply not_elem_of_nil in Hf. }
  assert (Hinner : exists inner e1,
             (if String.eqb (item_mime f) folder_mime then clear (item_id f) e
              else Some (0, e)) = Some (inner, e1)
             /\ forall it, it ∈ drive (remote e1) -> it ∈ drive (remote e)).
  { destruct (String.eqb (item_mime f) folder_mime) eqn:Hmime.
    - apply String.eqb_eq in Hmime.
      apply Hclear, Hdepth; [apply list_elem_of_here|done].
    - by exists 0, e. }
  destruct Hinner as (inner & e1 & -> & Hsub1).
  assert (Hrest : forall e2,
            (forall it, it ∈ drive (remote e2) -> it ∈ drive (remote e1)) ->
            forall g, g ∈ items -> item_mime g = folder_mime ->
                      nesting_below depth (item_id g) (drive (remote e2)) = true).
  { intros e2 Hsub2 g Hg Hmime.
    apply (nesting_below_shrink depth _ (drive (remote e))).
    - intros it Hit. by apply Hsub1, Hsub2.
    - apply Hdepth; [by apply list_elem_of_further|done]. }
  destruct (drive_delete_ok w (tick (remote e1))) eqn:Hok.
  - match goal with |- context [clear_items w clear items ?a ?s] =>
      destruct (IH a s) as (n & e' & Heq & Hsub & Hall) end.
    { apply Hrest. simpl. intros it Hit. by apply remove_item_elem in Hit as [? _]. }
    exists n, e'. split; [done|]. simpl in Hsub. split.
    + intros it Hit. apply Hsub1. apply Hsub in Hit.
      by apply remove_item_elem in Hit as [? _].
    + intros Hgrant. destruct (Hall Hgrant) as [Hn Hgone]. split; [lia|].
      intros g it Hg Hit. apply elem_of_cons in Hg as [->|Hg]; [|by apply Hgone].
      apply Hsub in Hit. by apply remove_item_elem in Hit as [_ ?].
  - match goal with |- context [clear_items w clear items ?a ?s] =>
      destruct (IH a s) as (n & e' & Heq & Hsub & Hall) end.
    { by apply Hrest. }
    exists n, e'. split; [done|]. simpl in Hsub. split.
    + intros it Hit. by apply Hsub1, Hsub.
    + intros Hgrant. by rewrite Hgrant in Hok.
Qed.

Lemma clear_folder_contents_total w depth :
  forall folder e,
    nesting_below depth folder (drive (remote e)) = true ->
    exists n e',
      _clear_folder_contents w depth folder e = Some (n, e')
      /\ (forall it, it ∈ drive (remote e') -> it ∈ drive (remote e))
      /\ ((forall t, drive_delete_ok w t = true) ->
          length (children folder (drive (remote e))) <= n
          /\ children folder (drive (remote e')) = []).
Proof.
  induction depth as [|depth IH]; intros folder e Hdepth; [done|].
  simpl in Hdepth. rewrite forallb_forall in Hdepth. simpl.
  destruct (clear_items_total w depth (_clear_folder_contents w depth)) with
    (items := children folder (drive (remote e))) (deleted := 0)
    (e := call w (EvList folder) e) as (n & e' & Heq & Hsub & Hall).
  { intros g e0 Hg. destruct (IH g e0 Hg) as (n & e' & ? & ? & _). by exists n, e'. }
  { intros f Hf Hmime. apply list_elem_of_In in Hf. specialize (Hdepth f Hf).
    apply String.eqb_eq in Hmime. rewrite Hmime in Hdepth. done. }
  rewrite Heq. eexists _, _. split; [reflexivity|]. simpl in *. split; [done|].
  intros Hgrant. destruct (Hall Hgrant) as [Hn Hgone]. split; [lia|].
  destruct (children folder (drive (remote e'))) as [|it rest] eqn:Hleft; [done|].
  assert (Hit : it ∈ children folder (drive (remote e')))
    by (rewrite Hleft; apply list_elem_of_here).
  unfold children in Hit. apply list_elem_of_filter in Hit as [Hparent Hit].
  destruct (Hgone it it); [|done..].
  unfold children. apply list_elem_of_filter. split; [done|]. by apply Hsub.
Qed.

(** On a folder whose subfolders go less than [depth] levels deep,
    [_clear_folder_contents] returns; it removes items only, and when Drive
    grants every deletion it leaves the folder without any item and has
    counted at least the items the folder held. *)
Theorem clear_folder_contents_empties w depth folder e :
  nesting_below depth folder (drive (remote e)) = true ->
  exists n e',
    _clear_folder_contents w depth folder e = Some (n, e')
    /\ (forall it, it ∈ drive (remote e') -> it ∈ drive (remote e))
    /\ ((forall t, drive_delete_ok w t = true) ->
        length (children folder (drive (remote e))) <= n
        /\ children folder (drive (remote e')) = []).
Proof. apply clear_folder_contents_total. Qed.

Lemma clear_folder_contents_empties_witness :
  exists e',
    _clear_folder_contents quiet_world 2 "F" (new_exporter plain_config exported_form_drive)
    = Some (3, e')
    /\ children "F" (drive (remote e')) = [].
Proof.
  destruct (clear_folder_contents_empties quiet_world 2 "F"
              (new_exporter plain_config exported_form_drive) eq_refl)
    as (n & e' & Heq & _ & Hall).
  destruct (Hall (fun _ => eq_refl)) as [_ Hempty].
  exists e'. split; [|exact Hempty].
  rewrite Heq. f_equal. f_equal.
  assert (Hrun : (fun r => match r with Some (k, _) => k | None => 0 end)
                   (_clear_folder_contents quiet_world 2 "F"
                      (new_exporter plain_config exported_form_drive)) = 3)
    by (by vm_compute).
  rewrite Heq in Hrun. exact Hrun.
Defined.

(** ** Policies of the approval gate *)

Lemma list_drive_folder_contents_emits w folder use_cache e :
  exists evs,
    emits e (_list_drive_folder_contents w folder use_cache e).2 evs
    /\ Forall (fun ev => ev = EvList folder) evs.
Proof.
  unfold _list_drive_folder_contents.
  destruct (if use_cache then _ else _).
  { exists []. split; [apply emits_nil|done]. }
  case_if.
  { exists []. split; [emits_none|done]. }
  exists [EvList folder]. split; [by destruct use_cache|]. by repeat constructor.
Qed.

(** With [skip_deletions] set, the cleanup ends once the orphans are
    identified: whatever the other policies and the Slack configuration
    are, it deletes nothing, posts nothing and asks nothing on Slack, and
    does not enter the form in the list of skipped forms. *)
Theorem skip_deletions_never_deletes w folder cache form e :
  skip_deletions (config e) = true ->
  let orphans := (identify_orphaned_photos w folder cache e).1 in
  let run := cleanup_deleted_photos w folder cache form e in
  run.1 = (0, match orphans with [] => Approved | _ :: _ => Skipped end)
  /\ Forall (fun ev => ev = EvList folder) (emitted e run.2)
  /\ drive (remote run.2) = drive (remote e)
  /\ skipped_forms run.2 = skipped_forms e.
Proof.
  intros Hskip. unfold cleanup_deleted_photos.
  pose proof (identify_orphaned_photos_undisturbed w folder cache e)
    as (Hcfg & Hsk & _ & Hdrive).
  pose proof (list_drive_folder_contents_emits w folder true e) as (evs & Hem & Hall).
  rewrite <- (identify_orphaned_photos_state w folder cache e) in Hem.
  destruct (identify_orphaned_photos w folder cache e) as [orphans e1]. simpl in *.
  destruct orphans as [|f fs]; simpl.
  - by rewrite (emitted_emits _ _ _ Hem).
  - rewrite Hcfg, Hskip. simpl. by rewrite (emitted_emits _ _ _ Hem).
Qed.

Lemma skip_deletions_never_deletes_witness :
  let cfg := {| skip_deletions := true; auto_delete := true; quick_check := false;
                slack_enabled := true; pre_approved_forms := {["Form"]};
                active_forms_id := "active"; inactive_forms_id := "inactive" |} in
  let e := new_exporter cfg abc_drive in
  drive (remote (cleanup_deleted_photos quiet_world "P" abc_metadata "Form" e).2)
  = abc_drive.
Proof.
  intros cfg e.
  by destruct (skip_deletions_never_deletes quiet_world "P" abc_metadata "Form" e eq_refl)
    as (_ & _ & Hdrive & _).
Defined.

Lemma send_slack_message_disabled w note e :
  slack_enabled (config e) = false -> send_slack_message w note e = (None, e).
Proof. unfold send_slack_message. by intros ->. Qed.

Lemma delete_photos_from_drive_emits w filenames folder e :
  exists evs,
    emits e (delete_photos_from_drive w filenames folder e).2 (EvList folder :: evs)
    /\ Forall (fun ev => is_delete ev = true) evs.
Proof.
  unfold delete_photos_from_drive.
  set (m := build_file_id_map _ _).
  pose proof (delete_by_id_events w m 0 (call w (EvList folder) e)) as (evs & Hem & Hall).
  destruct (delete_by_id w m 0 (call w (EvList folder) e)) as [n e2]. simpl in *.
  exists evs. split; [apply (emits_cons w); exact Hem|].
  eapply Forall_impl; [exact Hall|]. by intros ev (? & ? & ? & -> & _).
Qed.

(** Without Slack credentials nobody is asked: unless [skip_deletions] is
    set, the cleanup goes straight from the orphans it has identified to
    their deletion and reports it as approved, with no Slack traffic; every
    orphan that a file of the folder bears gets its deletion request. *)
Theorem cleanup_without_slack_is_ungated w folder cache form e :
  slack_enabled (config e) = false ->
  skip_deletions (config e) = false ->
  let orphans := (identify_orphaned_photos w folder cache e).1 in
  let e1 := (identify_orphaned_photos w folder cache e).2 in
  let run := cleanup_deleted_photos w folder cache form e in
  orphans <> [] ->
  run = ((delete_photos_from_drive w orphans folder e1).1, Approved,
         (delete_photos_from_drive w orphans folder e1).2)
  /\ count_events is_slack (emitted e run.2) = 0
  /\ forall f,
       f ∈ orphans ->
       f ∈ item_name <$> children folder (drive (remote e)) ->
       exists id ok, EvDelete id f ok ∈ emitted e run.2.
Proof.
  intros Hslack Hskip orphans e1 run Hne.
  pose proof (identify_orphaned_photos_undisturbed w folder cache e)
    as (Hcfg & _ & _ & Hdrive).
  pose proof (list_drive_folder_contents_emits w folder true e) as (pre & Hpre & Hlist).
  rewrite <- (identify_orphaned_photos_state w folder cache e) in Hpre.
  fold e1 in Hcfg, Hdrive, Hpre.
  assert (Hslack1 : slack_enabled (config e1) = false) by (by rewrite Hcfg).
  assert (Hrun : run = ((delete_photos_from_drive w orphans folder e1).1, Approved,
                        (delete_photos_from_drive w orphans folder e1).2)).
  { unfold run, cleanup_deleted_photos. subst orphans e1.
    destruct (identify_orphaned_photos w folder cache e) as [orphans e1]. simpl in *.
    destruct orphans as [|f fs]; [done|].
    rewrite Hcfg, Hskip, Hslack.
    rewrite !send_slack_message_disabled by done. simpl.
    unfold delete_approved.
    destruct (delete_photos_from_drive w (f :: fs) folder e1) as [n e2].
    by repeat case_if. }
  split; [exact Hrun|]. rewrite Hrun. simpl.
  pose proof (delete_photos_from_drive_emits w orphans folder e1) as (evs & Hem & Hall).
  split.
  - rewrite (emitted_emits _ _ _ (emits_app _ _ _ _ _ Hpre Hem)).
    rewrite count_events_app, !count_events_none; [done| |].
    + constructor; [done|]. eapply Forall_impl; [exact Hall|]. by intros [].
    + eapply Forall_impl; [exact Hlist|]. by intros ev ->.
  - intros f Hf Hin. rewrite <- Hdrive in Hin.
    destruct (delete_photos_from_drive_requests w orphans folder e1 f Hf Hin)
      as (id & ok & Hev).
    exists id, ok. by eapply emitted_later.
Qed.

Lemma cleanup_without_slack_is_ungated_witness :
  let e := new_exporter plain_config abc_drive in
  (cleanup_deleted_photos quiet_world "P" abc_metadata "Form" e).1 = (1, Approved)
  /\ exists id ok,
       EvDelete id "B.jpg" ok
       ∈ emitted e (cleanup_deleted_photos quiet_world "P" abc_metadata "Form" e).2.
Proof.
  intros e.
  assert (Hne : (identify_orphaned_photos quiet_world "P" abc_metadata e).1 <> [])
    by (by vm_compute).
  destruct (cleanup_without_slack_is_ungated quiet_world "P" abc_metadata "Form" e
              eq_refl eq_refl Hne) as (Hrun & _ & Hreq).
  split; [by vm_compute|].
  apply Hreq.
  - apply (bool_decide_unpack _). by vm_compute.
  - apply (bool_decide_unpack _). by vm_compute.
Defined.

(** ** The approval wait *)

Lemma count_events_cons P ev evs :
  count_events P (ev :: evs) = (if P ev then 1 else 0) + count_events P evs.
Proof. unfold count_events. simpl. by destruct (P ev). Qed.

(** Every poll is followed by a sleep of [poll_interval], so the polls of a
    wait are paid for out of the time that is left. *)
Lemma wait_polls_bounded w fuel start timeout ts e :
  (start <= now (remote e))%N ->
  exists evs,
    emits e (wait_polls w fuel start timeout ts e).2 evs
    /\ (count_events is_poll evs = 0
        \/ (poll_interval_ms * N.of_nat (count_events is_poll evs)
              + (now (remote e) - start)
            < timeout + poll_interval_ms)%N).
Proof.
  revert e. induction fuel as [|fuel IH]; intros e Hstart; simpl.
  { exists []. split; [by case_if; apply emits_nil|]. by left. }
  destruct (now (remote e) - start <? timeout)%N eqn:Hin.
  2:{ exists []. split; [apply emits_nil|]. by left. }
  apply N.ltb_lt in Hin.
  unfold get_slack_messages_since. destruct (slack_enabled (config e)).
  - destruct (scan_replies ts _).
    + exists [EvSlackPoll ts]. split; [done|]. right.
      change (count_events is_poll [EvSlackPoll ts]) with 1.
      unfold poll_interval_ms. lia.
    + match goal with |- context [wait_polls w fuel _ _ _ ?s] =>
        destruct (IH s) as (evs & Hem & Hcount) end.
      { simpl. lia. }
      exists (EvSlackPoll ts :: evs). split; [apply (emits_cons w); exact Hem|].
      right. rewrite count_events_cons. simpl is_poll. cbv iota.
      unfold poll_interval_ms in *. simpl now in Hcount.
      destruct Hcount as [->|Hcount]; lia.
  - match goal with |- context [wait_polls w fuel _ _ _ ?s] =>
      destruct (IH s) as (evs & Hem & Hcount) end.
    { simpl. lia. }
    exists evs. split; [exact Hem|].
    destruct Hcount as [Hz|Hcount]; [by left|]. right.
    unfold poll_interval_ms in *. simpl now in Hcount. lia.
Qed.

(** The approval wait asks Slack for the history at most twelve times per
    minute of its timeout: at most sixty times in the five minutes that
    [cleanup_deleted_photos] waits, however slow the calls are. *)
Theorem approval_wait_polls_bounded w ts minutes e :
  count_events is_poll (emitted e (wait_for_slack_approval w ts minutes e).2)
  <= 12 * minutes.
Proof.
  unfold wait_for_slack_approval. case_if.
  { simpl. unfold emitted. rewrite drop_all. unfold count_events. simpl. lia. }
  destruct (wait_polls_bounded w (minutes * 60 / 5 + 1) (now (remote e))
              (N.of_nat (minutes * 60) * 1000)%N ts e) as (evs & Hem & Hcount); [lia|].
  rewrite (emitted_emits _ _ _ Hem).
  destruct Hcount as [->|Hcount]; [lia|].
  unfold poll_interval_ms in Hcount. lia.
Qed.

(** ** Counters of a form *)

Lemma batch_lengths w photos folder cache e :
  let '((all_results, failed), e') :=
    _download_and_upload_photos w photos folder cache e in
  length all_results = length photos /\ length failed <= length photos.
Proof.
  pose proof (batch_spec w photos folder cache e "") as H.
  destruct (_download_and_upload_photos w photos folder cache e)
    as [[all_results failed] e'].
  destruct H as (Hids & Hsub & _). split.
  - apply (f_equal length) in Hids. by rewrite !length_fmap in Hids.
  - by eapply failed_length.
Qed.

(** The retry loop keeps the books: what it has counted as uploaded and
    what it still holds as failed add up to the same total throughout. *)
Lemma retry_failed_accounting w remaining rc prev up failed results rounds folder cache e :
  prev = length failed ->
  let t := (retry_failed w remaining rc prev up failed results rounds folder cache e).1 in
  tr_uploaded t + length (tr_failed_photos t) = up + length failed.
Proof.
  revert rc prev up failed results rounds e.
  induction remaining as [|remaining IH]; intros rc prev up failed results rounds e Hprev.
  { by destruct failed. }
  destruct failed as [|p l]; [done|].
  cbn [retry_failed].
  pose proof (batch_lengths w (p :: l) folder cache e) as Hbatch.
  destruct (_download_and_upload_photos w (p :: l) folder cache e)
    as [[retry_results still_failed] e1].
  destruct Hbatch as [Hall Hlen].
  case_if; [case_if|].
  - simpl. apply Nat.leb_le in Heqb. simpl in *. lia.
  - cbv zeta in IH. rewrite IH by (apply Nat.leb_le in Heqb; lia).
    apply Nat.leb_le in Heqb. simpl in *. lia.
  - cbv zeta in IH. rewrite IH by done. simpl in *. lia.
Qed.

Lemma transfer_photos_accounting w backlog folder cache e :
  let t := (transfer_photos w backlog folder cache e).1 in
  tr_uploaded t + length (tr_failed_photos t) = length backlog.
Proof.
  unfold transfer_photos. destruct backlog as [|p l]; [done|].
  pose proof (batch_lengths w (p :: l) folder cache e) as Hbatch.
  destruct (_download_and_upload_photos w (p :: l) folder cache e)
    as [[all_results failed] e1].
  destruct Hbatch as [_ Hlen].
  cbv zeta. rewrite retry_failed_accounting by done. lia.
Qed.

(** The photo counters of a form add up: every photo reference of the
    records is counted as uploaded, as failed or as skipped, and as one of
    them only; the numbers of the retry rounds do not disturb the sum.  A
    form whose export is ended from Slack reports the skipped photos
    alone. *)
Theorem form_photo_counters_add_up w form form_folder all_photos cache e :
  let phase := (export_form_photos w form form_folder all_photos cache e).1 in
  let r := pp_result phase in
  fr_photos_uploaded r + fr_photos_failed r + fr_photos_skipped r
  = if fr_export_ended r then length all_photos - length (pp_backlog phase)
    else length all_photos.
Proof.
  unfold export_form_photos.
  destruct (_get_or_create_folder w "photos" form_folder e) as [pf e1].
  destruct (_list_drive_folder_contents w pf true e1) as [existing e2].
  set (backlog := List.filter (to_download existing e2) all_photos).
  assert (Hle : length backlog <= length all_photos) by apply List.filter_length_le.
  destruct (cleanup_deleted_photos w pf cache form e2) as [[deleted cleanup] e3].
  pose proof (transfer_photos_accounting w backlog pf cache e3) as Hacc.
  destruct (transfer_photos w backlog pf cache e3) as [t e4].
  destruct cleanup; simpl in *; lia.
Qed.

(** ** The transferred-photo set *)

Lemma direct_download_uploaded w remaining attempt max_retries last id ext data e :
  uploaded_photos (direct_download_attempts w remaining attempt max_retries last id ext data e).2
  = uploaded_photos e.
Proof.
  revert attempt last e. induction remaining as [|remaining IH]; intros attempt last e;
    simpl; [done|].
  destruct (source_photo w id (tick (remote e))); [done| |done].
  rewrite IH. by case_if.
Qed.

Lemma fallback_download_uploaded w remaining attempt max_retries last id e :
  uploaded_photos (fallback_download_attempts w remaining attempt max_retries last id e).2
  = uploaded_photos e.
Proof.
  revert attempt last e. induction remaining as [|remaining IH]; intros attempt last e;
    simpl; [done|].
  destruct (source_meta w id (tick (remote e))) as [data|msg|msg]; [| |done].
  - destruct (validate_photo data); [done|].
    destruct (source_photo w id _); [done| |done].
    rewrite IH. by case_if.
  - rewrite IH. by case_if.
Qed.

Lemma record_photo_uploaded_set id e :
  uploaded_photos (_record_photo_uploaded id e) = {[id]} ∪ uploaded_photos e.
Proof. unfold _record_photo_uploaded. by case_if. Qed.

Lemma process_single_photo_uploaded w photo folder cache e :
  let '(r, e') := _process_single_photo w photo folder cache e in
  uploaded_photos e'
  = if succeeded r then {[photo_id photo]} ∪ uploaded_photos e else uploaded_photos e.
Proof.
  unfold _process_single_photo.
  set (id := photo_id photo).
  assert (Hdl : uploaded_photos
                  (match cache !! id with
                   | Some cached => download_photo_with_metadata w id cached 3 e
                   | None => download_photo_to_memory w id 3 e
                   end).2 = uploaded_photos e).
  { destruct (cache !! id) as [cached|].
    - unfold download_photo_with_metadata. destruct (validate_photo cached); [done|].
      apply direct_download_uploaded.
    - apply fallback_download_uploaded. }
  destruct (match cache !! id with
            | Some cached => download_photo_with_metadata w id cached 3 e
            | None => download_photo_to_memory w id 3 e
            end) as [[[[content ext] error_text] data] e1].
  simpl in Hdl. case_if; [done|].
  destruct content as [content|]; [|done]. destruct ext as [ext|]; [|done].
  pose proof (upload_attempts_local w 3 0 3 content (id +:+ "." +:+ ext) folder
                (if String.eqb ext "png" then "image/png" else "image/jpeg") e1)
    as (_ & _ & Hup & _).
  unfold _upload_to_drive.
  destruct (upload_attempts w 3 0 3 content _ folder _ e1) as [ok e2].
  simpl in Hup. destruct ok; simpl.
  - by rewrite record_photo_uploaded_set, Hup, Hdl.
  - by rewrite Hup, Hdl.
Qed.

Lemma records_creations_refl folder e : records_creations folder e e.
Proof.
  exists []. split; [apply emits_nil|]. intros id. unfold count_events. simpl.
  split; [by left|]. intros [H|H]; [done|lia].
Qed.

Lemma records_creations_trans folder e1 e2 e3 :
  records_creations folder e1 e2 -> records_creations folder e2 e3 ->
  records_creations folder e1 e3.
Proof.
  intros (a & Ha & H1) (b & Hb & H2). exists (a ++ b).
  split; [by eapply emits_app|]. intros id.
  rewrite count_events_app, H2, H1. split.
  - intros [[H|H]|H]; [by left|right; lia|right; lia].
  - intros [H|H]; [by left; left|].
    destruct (count_events (creation_of folder id) a) eqn:Hca.
    + right. lia.
    + left. right. lia.
Qed.

Lemma records_creations_same folder e1 e2 e3 :
  records_creations folder e1 e2 ->
  trace (remote e3) = trace (remote e2) -> uploaded_photos e3 = uploaded_photos e2 ->
  records_creations folder e1 e3.
Proof.
  intros (a & Ha & H) Ht Hu. exists a. split; [by eapply emits_same|].
  intros id. by rewrite Hu.
Qed.

Lemma process_single_photo_records w photo folder cache e :
  records_creations folder e (_process_single_photo w photo folder cache e).2.
Proof.
  pose proof (process_single_photo_uploaded w photo folder cache e) as Hup.
  assert (Hev : forall id0,
            let '(r, e') := _process_single_photo w photo folder cache e in
            exists evs,
              emits e e' evs
              /\ count_events (creation_of folder id0) evs
                 = (if String.eqb (photo_id photo) id0 && succeeded r then 1 else 0)).
  { intros id0. pose proof (process_single_photo_events w photo folder cache e id0) as H.
    destruct (_process_single_photo w photo folder cache e) as [r e'].
    destruct H as (evs & ? & _ & ?). by exists evs. }
  destruct (_process_single_photo w photo folder cache e) as [r e']. simpl.
  destruct (Hev "") as (evs & Hem & _). exists evs. split; [exact Hem|].
  intros id. destruct (Hev id) as (evs' & Hem' & Hcount).
  assert (evs' = evs) as ->.
  { unfold emits in Hem, Hem'. rewrite Hem in Hem'. by apply app_inv_head in Hem'. }
  rewrite Hcount, Hup.
  destruct (String.eqb (photo_id photo) id) eqn:Hid; destruct (succeeded r); simpl.
  - apply String.eqb_eq in Hid. subst id. split; [right; lia|].
    intros _. apply elem_of_union_l, elem_of_singleton. done.
  - split; [by left|]. intros [H|H]; [done|lia].
  - apply String.eqb_neq in Hid. rewrite elem_of_union, elem_of_singleton. split.
    + intros [H|H]; [congruence|by left].
    + intros [H|H]; [by right|lia].
  - split; [by left|]. intros [H|H]; [done|lia].
Qed.

Lemma collect_job_records w photo folder cache e :
  records_creations folder e (collect_job w photo folder cache e).2.
Proof.
  unfold collect_job.
  set (e0 := set_remote (next_job (remote e)) e).
  pose proof (process_single_photo_records w photo folder cache e0) as H.
  assert (H0 : records_creations folder e e0).
  { eapply records_creations_same; [apply records_creations_refl|done..]. }
  destruct (pool_dispatch w (jobs (remote e))).
  - destruct (_process_single_photo w photo folder cache e0) as [r e1].
    by eapply records_creations_trans.
  - destruct (_process_single_photo w photo folder cache e0) as [r e1].
    by eapply records_creations_trans.
  - done.
Qed.

Lemma batch_records w photos folder cache e :
  records_creations folder e (_download_and_upload_photos w photos folder cache e).2.
Proof.
  revert e. induction photos as [|photo rest IH]; intros e; simpl.
  { apply records_creations_refl. }
  pose proof (collect_job_records w photo folder cache e) as Hjob.
  destruct (collect_job w photo folder cache e) as [[entry is_failed] e1].
  specialize (IH e1).
  destruct (_download_and_upload_photos w rest folder cache e1) as [[all_results failed] e2].
  by eapply records_creations_trans.
Qed.

Lemma retry_failed_records w remaining rc prev up failed results rounds folder cache e :
  records_creations folder e
    (retry_failed w remaining rc prev up failed results rounds folder cache e).2.
Proof.
  revert rc prev up failed results rounds e.
  induction remaining as [|remaining IH]; intros rc prev up failed results rounds e.
  { destruct failed; apply records_creations_refl. }
  destruct failed as [|p l]; [apply records_creations_refl|].
  cbn [retry_failed].
  pose proof (batch_records w (p :: l) folder cache e) as Hbatch.
  destruct (_download_and_upload_photos w (p :: l) folder cache e)
    as [[retry_results still_failed] e1].
  simpl in Hbatch.
  repeat case_if; [done| |]; (eapply records_creations_trans; [exact Hbatch|apply IH]).
Qed.

(** Over the transfer of a backlog, the first attempt and all retry
    rounds, whatever the network and the worker pool do: a photo id is in
    the transferred-photo set afterwards exactly when it was there before
    or a creation call for one of its two keys has succeeded in the photos
    folder.  So the set that lets a later run skip a photo names no photo
    that was not stored, and misses none that was. *)
Theorem transferred_set_records_creations w backlog folder cache e id :
  let e' := (transfer_photos w backlog folder cache e).2 in
  id ∈ uploaded_photos e'
  <-> id ∈ uploaded_photos e
      \/ 0 < count_events (creation_of folder id) (emitted e e').
Proof.
  assert (H : records_creations folder e (transfer_photos w backlog folder cache e).2).
  { unfold transfer_photos. destruct backlog as [|p l]; [apply records_creations_refl|].
    pose proof (batch_records w (p :: l) folder cache e) as Hbatch.
    destruct (_download_and_upload_photos w (p :: l) folder cache e)
      as [[all_results failed] e1].
    eapply records_creations_trans; [exact Hbatch|apply retry_failed_records]. }
  destruct H as (evs & Hem & H). simpl. by rewrite (emitted_emits _ _ _ Hem).
Qed.

(** ** Folder names of forms *)

Lemma string_app_inv_head (a s t : string) : a +:+ s = a +:+ t -> s = t.
Proof. induction a as [|c a IH]; simpl; [done|]. intros [= H]. by apply IH. Qed.

(** The form id is appended to the sanitized name for uniqueness, and
    while ids contain no underscore it gives it: two forms that share a
    folder name have the same id (and the same sanitized name), so forms
    with different ids never share a folder, even when sanitizing makes
    their names equal. *)
Theorem safe_name_separates_forms f1 f2 :
  has_char "_" (form_id f1) = false ->
  has_char "_" (form_id f2) = false ->
  safe_name f1 = safe_name f2 ->
  form_id f1 = form_id f2 /\ sanitize (form_name f1) = sanitize (form_name f2).
Proof.
  intros H1 H2 Heq. unfold safe_name in Heq.
  assert (Hname : sanitize (form_name f1) = sanitize (form_name f2)).
  { rewrite <- (rsplit1_head_app "_" (sanitize (form_name f1)) (form_id f1) H1).
    rewrite <- (rsplit1_head_app "_" (sanitize (form_name f2)) (form_id f2) H2).
    by f_equal. }
  split; [|done]. rewrite Hname in Heq.
  apply string_app_inv_head in Heq. by injection Heq.
Qed.

Lemma safe_name_separates_forms_witness :
  safe_name {| form_id := "f0"; form_name := "a/b"; form_is_active := true |}
  <> safe_name {| form_id := "f1"; form_name := "a_b"; form_is_active := true |}.
Proof.
  intros Heq.
  by destruct (safe_name_separates_forms
                 {| form_id := "f0"; form_name := "a/b"; form_is_active := true |}
                 {| form_id := "f1"; form_name := "a_b"; form_is_active := true |}
                 eq_refl eq_refl Heq) as [Hid _].
Defined.

(** ** Attempts at a form *)

Lemma export_form_attempts_shape pl remaining attempt form e :
  let '(attempts, result, e') := export_form_attempts pl remaining attempt form e in
  length attempts <= remaining
  /\ (0 < remaining -> attempts <> [])
  /\ (exists earlier final,
        attempts = earlier ++ final
        /\ Forall is_conn_error earlier
        /\ match result with
           | Some r => final = [FormOk r]
           | None =>
               (exists msg, final = [FormError msg])
               \/ (final = [] /\ length earlier = remaining)
           end).
Proof.
  revert attempt e. induction remaining as [|remaining IH]; intros attempt e; simpl.
  { split; [done|]. split; [lia|]. exists [], []. split; [done|]. split; [done|]. by right. }
  destruct (export_form pl form e) as [[r|msg|msg] e1].
  - split; [simpl; lia|]. split; [done|]. exists [], [FormOk r]. by repeat split.
  - match goal with |- context [export_form_attempts pl remaining ?a form ?s] =>
      specialize (IH a s);
      destruct (export_form_attempts pl remaining a form s) as [[later result] e3] end.
    destruct IH as (Hlen & _ & earlier & final & -> & Hconn & Hres).
    split; [simpl; lia|]. split; [done|].
    exists (FormConnError msg :: earlier), final. split; [done|].
    split; [by constructor|]. destruct result; [done|].
    destruct Hres as [?|[-> ?]]; [by left|right]. split; [done|]. simpl. lia.
  - split; [simpl; lia|]. split; [done|]. exists [], [FormError msg].
    split; [done|]. split; [done|]. left. by exists msg.
Qed.

(** [export_all] calls [export_form] at least once and at most three
    times for a form it takes, and calls it again only after a connection
    error: the attempts are connection errors up to the last one, which
    gives the result when it succeeds; without a result the last attempt
    raised another error or the third connection error. *)
Theorem export_form_tried_at_most_three_times pl form e :
  let attempts := (export_form_attempts pl 3 0 form e).1.1 in
  let result := (export_form_attempts pl 3 0 form e).1.2 in
  1 <= length attempts <= 3
  /\ exists earlier final,
       attempts = earlier ++ final
       /\ Forall is_conn_error earlier
       /\ match result with
          | Some r => final = [FormOk r]
          | None =>
              (exists msg, final = [FormError msg])
              \/ (final = [] /\ length earlier = 3)
          end.
Proof.
  pose proof (export_form_attempts_shape pl 3 0 form e) as H.
  destruct (export_form_attempts pl 3 0 form e) as [[attempts result] e'].
  destruct H as (Hlen & Hne & Hshape). simpl. split; [|done].
  split; [|done]. destruct attempts; [by destruct Hne; [lia|]|simpl; lia].
Qed.

(** ** Layers on resume *)

Lemma export_form_attempts_layers f pl remaining attempt form e :
  export_form_attempts (with_export_layers f pl) remaining attempt form e
  = export_form_attempts pl remaining attempt form e.
Proof.
  revert attempt e. induction remaining as [|remaining IH]; intros attempt e; simpl; [done|].
  destruct (export_form pl form e) as [[r|msg|msg] e1]; [done| |done].
  by rewrite IH.
Qed.

Lemma export_loop_layers w f pl start total index forms steps e :
  export_loop w (with_export_layers f pl) start total index forms steps e
  = export_loop w pl start total index forms steps e.
Proof.
  revert index steps e. induction forms as [|form rest IH]; intros index steps e; simpl;
    [done|].
  repeat case_if; rewrite ?IH; done.
Qed.

(** A run that resumes from a checkpoint with a cursor above zero does
    not export the layers: it comes out the same whatever the layer export
    would do. *)
Theorem resumed_run_skips_layers w pl f since_date test_mode max_forms e checkpoint :
  _load_export_state e = Some checkpoint ->
  0 < es_form_index checkpoint ->
  export_all w (with_export_layers f pl) since_date test_mode max_forms e
  = export_all w pl since_date test_mode max_forms e.
Proof.
  intros Hload Hpos. unfold export_all.
  assert (Hload' : _load_export_state (set_export_start_time (Some (now (remote e))) e)
                   = Some checkpoint) by exact Hload.
  rewrite Hload'. simpl.
  destruct (init_google_drive pl _) as [ok e1]. destruct ok; simpl; [|done].
  destruct (es_form_index checkpoint) as [|k] eqn:Hk; [lia|]. simpl.
  destruct (get_forms pl since_date _) as [[forms|] e2]; [|done].
  by rewrite export_loop_layers.
Qed.

Lemma resumed_run_skips_layers_witness :
  let pl := model_pipeline quiet_world three_forms (fun _ => []) (fun _ => ∅) in
  export_all quiet_world (with_export_layers (set_export_cancelled true) pl)
    None false 3 resumed_exporter
  = export_all quiet_world pl None false 3 resumed_exporter.
Proof.
  intros pl.
  apply (resumed_run_skips_layers quiet_world pl (set_export_cancelled true) None false 3
           resumed_exporter checkpoint_at_1 eq_refl).
  simpl. lia.
Defined.

(** ** Replacing a file *)

Lemma delete_found_drive w name files e :
  let d' := drive (remote (delete_found w name files e).2) in
  (forall it, it ∈ d' -> it ∈ drive (remote e))
  /\ (forall it, it ∈ drive (remote e) -> item_id it ∉ item_id <$> files -> it ∈ d')
  /\ ((forall t, drive_delete_ok w t = true) ->
      (delete_found w name files e).1 = true
      /\ forall it, it ∈ d' -> item_id it ∉ item_id <$> files).
Proof.
  revert e. induction files as [|f files IH]; intros e; simpl.
  { split; [done|]. split; [done|]. intros _. split; [done|]. intros it _.
    apply not_elem_of_nil. }
  destruct (drive_delete_ok w (tick (remote e))) eqn:Hok.
  - match goal with |- context [delete_found w name files ?s] =>
      destruct (IH s) as (Hsub & Hkeep & Hall) end.
    simpl in Hsub, Hkeep, Hall. split; [|split].
    + intros it Hit. apply Hsub in Hit. by apply remove_item_elem in Hit as [? _].
    + intros it Hit Hid. apply not_elem_of_cons in Hid as [Hne Hid].
      apply Hkeep; [|done]. by apply remove_item_elem.
    + intros Hgrant. destruct (Hall Hgrant) as [Hret Hgone]. split; [done|].
      intros it Hit. apply not_elem_of_cons. split; [|by apply Hgone].
      apply Hsub in Hit. by apply remove_item_elem in Hit as [_ ?].
  - simpl. split; [done|]. split; [done|]. intros Hgrant. by rewrite Hgrant in Hok.
Qed.

(** Replacing a file.  When Drive grants every deletion and the upload
    succeeds, the parent folder holds exactly one file of that name
    afterwards, the one just created, however many it held before; and
    while the ids of Drive are distinct, every item of another name or
    another folder is still there. *)
Theorem replace_file_leaves_one w content name parent mime e :
  (forall t, drive_delete_ok w t = true) ->
  let ok := (replace_file w content name parent mime e).1 in
  let e' := (replace_file w content name parent mime e).2 in
  ok = true ->
  (exists id,
     filter (fun it => item_name it = name) (children parent (drive (remote e')))
     = [new_file id name mime parent])
  /\ (NoDup (item_id <$> drive (remote e)) ->
      forall it,
        it ∈ drive (remote e) ->
        item_name it <> name \/ item_parent it <> parent ->
        it ∈ drive (remote e')).
Proof.
  intros Hgrant. unfold replace_file, _delete_file_if_exists.
  set (e0 := call w (EvList parent) e).
  set (files := filter (fun it => item_name it = name) (children parent (drive (remote e0)))).
  pose proof (delete_found_drive w name files e0) as (Hsub & Hkeep & Hall).
  destruct (Hall Hgrant) as [_ Hgone].
  destruct (delete_found w name files e0) as [deleted e1]. simpl in Hsub, Hkeep, Hgone.
  pose proof (upload_attempts_drive w 3 0 3 content name parent mime e1) as Hup.
  unfold _upload_to_drive.
  destruct (upload_attempts w 3 0 3 content name parent mime e1) as [ok e2].
  destruct Hup as (evs & _ & _ & _ & Hdrive). simpl. intros ->.
  destruct Hdrive as [id Hdrive]. rewrite Hdrive. split.
  - exists id. unfold children. rewrite !filter_app.
    assert (Hnone : filter (fun it => item_name it = name)
                      (filter (fun it => item_parent it = parent) (drive (remote e1))) = []).
    { destruct (filter _ (filter _ _)) as [|it rest] eqn:Hf; [done|].
      assert (Hit : it ∈ it :: rest) by apply list_elem_of_here.
      rewrite <- Hf in Hit.
      apply list_elem_of_filter in Hit as [Hname Hit].
      apply list_elem_of_filter in Hit as [Hparent Hit].
      destruct (Hgone it Hit). apply list_elem_of_fmap_2.
      unfold files, children. apply list_elem_of_filter. split; [done|].
      apply list_elem_of_filter. split; [done|]. by apply Hsub. }
    rewrite Hnone. simpl. by repeat (rewrite filter_cons, decide_True by done).
  - intros Hnd it Hit Hother. apply elem_of_app. left. apply Hkeep; [done|].
    intros Hid. apply list_elem_of_fmap in Hid as (it' & Hid & Hit').
    unfold files, children in Hit'.
    apply list_elem_of_filter in Hit' as [Hname Hit'].
    apply list_elem_of_filter in Hit' as [Hparent Hit'].
    assert (it = it') as <- by (by eapply (NoDup_fmap_eq item_id)).
    by destruct Hother.
Qed.

Lemma replace_file_leaves_one_witness :
  let d := [image "1" "FORM_SUMMARY.txt" "F"; image "2" "FORM_SUMMARY.txt" "F";
            image "3" "a.jpg" "F"] in
  let e' := (replace_file quiet_world [] "FORM_SUMMARY.txt" "F" "text/plain"
               (new_exporter plain_config d)).2 in
  (exists id,
     filter (fun it => item_name it = "FORM_SUMMARY.txt") (children "F" (drive (remote e')))
     = [new_file id "FORM_SUMMARY.txt" "text/plain" "F"])
  /\ image "3" "a.jpg" "F" ∈ drive (remote e').
Proof.
  intros d e'.
  destruct (replace_file_leaves_one quiet_world [] "FORM_SUMMARY.txt" "F" "text/plain"
              (new_exporter plain_config d) (fun _ => eq_refl) eq_refl) as [Hone Hkeep].
  split; [exact Hone|]. apply Hkeep.
  - apply (bool_decide_unpack _). by vm_compute.
  - do 2 apply list_elem_of_further. apply list_elem_of_here.
  - by left.
Defined.

(** ** Pre-approved forms *)

Lemma pretty_N_char_digit d :
  (d < 10)%N ->
  is_digit (pretty_N_char d) = true
  /\ (N.of_nat (nat_of_ascii (pretty_N_char d)) - 48)%N = d.
Proof.
  intros Hd.
  assert (d = 0 \/ d = 1 \/ d = 2 \/ d = 3 \/ d = 4 \/ d = 5 \/ d = 6 \/ d = 7
          \/ d = 8 \/ d = 9)%N as H by lia.
  repeat (destruct H as [->|H]; [by vm_compute|]). subst d. by vm_compute.
Qed.

(** Reading back what [pretty] has written. *)
Lemma int_digits_pretty x :
  exists k, forall acc s,
    int_digits acc (pretty_N_go x s) = int_digits (acc * k + x)%N s.
Proof.
  induction (N.lt_wf_0 x) as [x _ IH].
  assert (x = 0 \/ 0 < x)%N as [->|Hpos] by lia.
  { exists 1%N. intros acc s. rewrite pretty_N_go_0. f_equal. lia. }
  destruct (IH (x `div` 10)%N) as [k Hk]; [by apply N.div_lt|].
  exists (10 * k)%N. intros acc s.
  rewrite pretty_N_go_step, Hk by done. simpl int_digits.
  destruct (pretty_N_char_digit (x `mod` 10)) as [_ ->]; [by apply N.mod_lt|].
  f_equal. pose proof (N.div_mod x 10). lia.
Qed.

Lemma all_digits_pretty x s :
  all_digits (pretty_N_go x s) = all_digits s.
Proof.
  revert s. induction (N.lt_wf_0 x) as [x _ IH]; intros s.
  assert (x = 0 \/ 0 < x)%N as [->|Hpos] by lia; [by rewrite pretty_N_go_0|].
  rewrite pretty_N_go_step, IH by (done || by apply N.div_lt). simpl.
  by destruct (pretty_N_char_digit (x `mod` 10)) as [-> _]; [apply N.mod_lt|].
Qed.

Lemma pretty_N_go_nonempty x s : (0 < x)%N -> pretty_N_go x s <> "".
Proof.
  revert s. induction (N.lt_wf_0 x) as [x _ IH]; intros s Hpos.
  rewrite pretty_N_go_step by done.
  destruct (N.eq_0_gt_0_cases (x `div` 10)) as [->|Hdiv].
  - by rewrite pretty_N_go_0.
  - apply IH; [by apply N.div_lt|done].
Qed.

Lemma isdigit_pretty (n : nat) : isdigit (pretty n) = true.
Proof.
  unfold pretty, pretty_nat, pretty, pretty_N, isdigit.
  destruct (decide (N.of_nat n = 0%N)) as [|Hne]; [done|].
  rewrite all_digits_pretty, andb_true_r. apply negb_true_iff, String.eqb_neq.
  apply pretty_N_go_nonempty. lia.
Qed.

Lemma int_pretty (n : nat) : int (pretty n) = N.of_nat n.
Proof.
  unfold pretty, pretty_nat, pretty, pretty_N, int.
  destruct (decide (N.of_nat n = 0%N)) as [->|Hne]; [done|].
  destruct (int_digits_pretty (N.of_nat n)) as [k ->]. simpl. lia.
Qed.

Lemma is_digit_not_space c : is_digit c = true -> is_space c = false.
Proof.
  unfold is_digit, is_space. intros H. apply andb_true_iff in H as [H1 H2].
  apply Nat.leb_le in H1, H2. apply orb_false_iff. split; apply andb_false_iff.
  - right. apply Nat.leb_gt. lia.
  - right. apply Nat.leb_gt. lia.
Qed.

Lemma is_digit_not_comma c : is_digit c = true -> Ascii.eqb c "," = false.
Proof.
  intros H. apply Ascii.eqb_neq. intros ->. by vm_compute in H.
Qed.

(** A digit is no byte of the white space of more than one byte. *)
Lemma is_digit_not_space2 d x :
  is_digit d = true -> is_space2 d x = false /\ is_space2 x d = false.
Proof.
  unfold is_digit, is_space2. intros H. apply andb_true_iff in H as [H1 H2].
  apply Nat.leb_le in H1, H2.
  assert ((nat_of_ascii d =? 194) = false) as -> by (apply Nat.eqb_neq; lia).
  assert ((nat_of_ascii d =? 133) = false) as -> by (apply Nat.eqb_neq; lia).
  assert ((nat_of_ascii d =? 160) = false) as -> by (apply Nat.eqb_neq; lia).
  split; [done|]. by rewrite andb_false_r.
Qed.

Lemma is_digit_not_space3 d x y :
  is_digit d = true -> is_space3 d x y = false /\ is_space3 y x d = false.
Proof.
  unfold is_digit, is_space3. intros H. apply andb_true_iff in H as [H1 H2].
  apply Nat.leb_le in H1, H2.
  assert ((nat_of_ascii d =? 225) = false) as Ha by (apply Nat.eqb_neq; lia).
  assert ((nat_of_ascii d =? 226) = false) as Hb by (apply Nat.eqb_neq; lia).
  assert ((nat_of_ascii d =? 227) = false) as Hc by (apply Nat.eqb_neq; lia).
  assert ((nat_of_ascii d =? 128) = false) as Hd by (apply Nat.eqb_neq; lia).
  assert ((nat_of_ascii d =? 159) = false) as He by (apply Nat.eqb_neq; lia).
  assert ((nat_of_ascii d =? 168) = false) as Hf by (apply Nat.eqb_neq; lia).
  assert ((nat_of_ascii d =? 169) = false) as Hg by (apply Nat.eqb_neq; lia).
  assert ((nat_of_ascii d =? 175) = false) as Hh by (apply Nat.eqb_neq; lia).
  assert ((128 <=? nat_of_ascii d) = false) as Hi by (apply Nat.leb_gt; lia).
  rewrite Ha, Hb, Hc, Hd, He, Hf, Hg, Hh, Hi. simpl.
  split; [done|]. by rewrite !andb_false_r.
Qed.

(** No white space is taken off a text that begins with a digit. *)
Lemma drop_spaces_digit backwards d s :
  is_digit d = true -> drop_spaces backwards (String d s) = String d s.
Proof.
  intros Hd. cbn [drop_spaces]. rewrite (is_digit_not_space d Hd).
  destruct s as [|b r]; [done|].
  destruct (is_digit_not_space2 d b Hd) as [-> ->].
  destruct r as [|c r]; [by destruct backwards|].
  destruct (is_digit_not_space3 d b c Hd) as [-> ->]. by destruct backwards.
Qed.

Lemma reversed_involutive s : reversed (reversed s) = s.
Proof.
  unfold reversed.
  by rewrite list_ascii_of_string_of_list_ascii, rev_involutive,
    string_of_list_ascii_of_string.
Qed.

Lemma all_digits_Forall s :
  all_digits s = true <-> Forall (fun c => is_digit c = true) (list_ascii_of_string s).
Proof.
  induction s as [|c s IH]; simpl; [by split|].
  rewrite andb_true_iff, IH, Forall_cons. done.
Qed.

Lemma rstrip_digits s : all_digits s = true -> rstrip s = s.
Proof.
  intros H. unfold rstrip.
  assert (Hrev : all_digits (reversed s) = true).
  { apply all_digits_Forall. unfold reversed.
    rewrite list_ascii_of_string_of_list_ascii. apply Forall_rev.
    by apply all_digits_Forall. }
  destruct (reversed s) as [|d r] eqn:Hs.
  - cbn [drop_spaces]. rewrite <- Hs. apply reversed_involutive.
  - simpl in Hrev. apply andb_true_iff in Hrev as [Hd _].
    by rewrite drop_spaces_digit, <- Hs, reversed_involutive.
Qed.

Lemma strip_digits s : all_digits s = true -> strip s = s.
Proof.
  intros H. unfold strip.
  assert (lstrip s = s) as ->.
  { destruct s as [|c s]; [done|]. simpl in H. apply andb_true_iff in H as [Hc _].
    by apply drop_spaces_digit. }
  by apply rstrip_digits.
Qed.

Lemma split_on_digits s : all_digits s = true -> split_on "," s = [s].
Proof.
  induction s as [|c s IH]; simpl; [done|].
  intros H. apply andb_true_iff in H as [Hc Hs].
  by rewrite (is_digit_not_comma c Hc), (IH Hs).
Qed.

(** The numbers of the forms skipped in a run can be given back to the
    next run: the argument that is the decimal numeral of [n] resolves to
    the name of entry [n - 1] of [skipped_forms.json], and to nothing when
    [n] is 0, beyond the end of the list, or when there is no such file. *)
Theorem load_pre_approved_forms_number (n : nat) skipped_forms_file :
  load_pre_approved_forms (Some (pretty n)) skipped_forms_file
  = match n with
    | 0 => []
    | S i =>
        match default [] skipped_forms_file !! i with
        | Some sf => [sf_form sf]
        | None => []
        end
    end.
Proof.
  pose proof (isdigit_pretty n) as Hdigit.
  unfold load_pre_approved_forms, truthy.
  assert (Hne : String.eqb (pretty n) "" = false).
  { unfold isdigit in Hdigit. apply andb_true_iff in Hdigit as [H _].
    by apply negb_true_iff in H. }
  rewrite Hne. simpl.
  assert (Hall : all_digits (pretty n) = true).
  { unfold isdigit in Hdigit. by apply andb_true_iff in Hdigit as [_ H]. }
  rewrite (split_on_digits _ Hall). simpl. rewrite (strip_digits _ Hall), Hdigit.
  rewrite int_pretty.
  set (skipped := default [] skipped_forms_file).
  destruct n as [|i].
  - done.
  - replace (Z.of_N (N.of_nat (S i)) - 1)%Z with (Z.of_nat i) by lia.
    rewrite Nat2Z.id.
    destruct (skipped !! i) as [sf|] eqn:Hsf.
    + apply lookup_lt_Some in Hsf.
      assert ((0 <=? Z.of_nat i)%Z && (Z.of_nat i <? Z.of_nat (length skipped))%Z = true)
        as ->; [|done].
      apply andb_true_iff. split; [apply Z.leb_le|apply Z.ltb_lt]; lia.
    + by case_if.
Qed.

Lemma split_on_nonempty c s : split_on c s <> [].
Proof.
  induction s as [|a s IH]; simpl; [done|].
  destruct (Ascii.eqb a c); [done|]. by destruct (split_on c s).
Qed.

(** Splitting at a separator that joins two strings. *)
Lemma split_on_app c a b :
  split_on c (a +:+ String c b) = split_on c a ++ split_on c b.
Proof.
  induction a as [|x a IH]; simpl.
  - by rewrite Ascii.eqb_refl.
  - destruct (Ascii.eqb x c); [by rewrite IH|].
    rewrite IH. pose proof (split_on_nonempty c a).
    by destruct (split_on c a).
Qed.

Lemma resolve_items_app skipped a b :
  resolve_items skipped (a ++ b) = resolve_items skipped a ++ resolve_items skipped b.
Proof.
  induction a as [|item a IH]; simpl; [done|].
  repeat case_if; try destruct (skipped !! _); by rewrite IH.
Qed.

(** The items of the argument are resolved one by one: the forms
    pre-approved by two arguments joined with a comma are those of the
    first followed by those of the second. *)
Theorem load_pre_approved_forms_comma a b skipped_forms_file :
  a <> "" -> b <> "" ->
  load_pre_approved_forms (Some (a +:+ "," +:+ b)) skipped_forms_file
  = load_pre_approved_forms (Some a) skipped_forms_file
    ++ load_pre_approved_forms (Some b) skipped_forms_file.
Proof.
  intros Ha Hb. unfold load_pre_approved_forms, truthy.
  apply String.eqb_neq in Ha, Hb. rewrite Ha, Hb.
  assert (String.eqb (a +:+ "," +:+ b) "" = false) as ->.
  { apply String.eqb_neq. destruct a; [done|]. done. }
  simpl negb. cbv iota. simpl default.
  change ("," +:+ b) with (String "," b).
  by rewrite split_on_app, fmap_app, resolve_items_app.
Qed.

Lemma load_pre_approved_forms_comma_witness :
  load_pre_approved_forms (Some "2, Site Visits")
    (Some [{| sf_form := "Hydrants"; sf_reason := "no response"; sf_photos := 4 |};
           {| sf_form := "Valves"; sf_reason := "user requested"; sf_photos := 1 |}])
  = ["Valves"; "Site Visits"].
Proof.
  rewrite (load_pre_approved_forms_comma "2" " Site Visits" _); [reflexivity|done|done].
Defined.

(** ** Queries to Fulcrum *)

Lemma query_tick w e : tick (remote (query w e)) = S (tick (remote e)).
Proof. done. Qed.

Lemma record_pages_all w src fuel page form all_records e k (pages : nat -> list Json) :
  (forall i, i < k ->
     source_records src form (page + i) (tick (remote e) + i) = FetchOk (pages i)
     /\ pages i <> []) ->
  source_records src form (page + k) (tick (remote e) + k) = FetchOk [] ->
  k < fuel ->
  exists e',
    record_pages w src fuel page form all_records e
    = Some (inr (all_records ++ concat (pages <$> seq 0 k)), e')
    /\ tick (remote e') = tick (remote e) + k + 1
    /\ trace (remote e') = trace (remote e)
    /\ drive (remote e') = drive (remote e).
Proof.
  revert fuel page all_records e pages.
  induction k as [|k IH]; intros fuel page all_records e pages Hfull Hlast Hfuel.
  - destruct fuel as [|fuel]; [lia|]. simpl.
    rewrite !Nat.add_0_r in Hlast. rewrite Hlast.
    exists (query w e). rewrite app_nil_r. simpl. repeat split. lia.
  - destruct fuel as [|fuel]; [lia|]. simpl.
    destruct (Hfull 0) as [H0 Hne]; [lia|]. rewrite !Nat.add_0_r in H0. rewrite H0.
    destruct (pages 0) as [|r rs] eqn:Hp; [done|].
    destruct (IH fuel (S page) (all_records ++ r :: rs) (query w e) (fun i => pages (S i)))
      as (e' & Heq & Htick & Htrace & Hdrive).
    + intros i Hi. destruct (Hfull (S i)) as [H Hn]; [lia|].
      rewrite query_tick. by rewrite !Nat.add_succ_r in H.
    + rewrite query_tick. by rewrite !Nat.add_succ_r in Hlast.
    + lia.
    + exists e'. rewrite Heq. split.
      * do 2 f_equal. rewrite <- app_assoc. f_equal.
        rewrite <- Hp. simpl. f_equal.
        by rewrite <- seq_shift, <- list_fmap_compose.
      * rewrite Htick, Htrace, Hdrive, query_tick. simpl. repeat split. lia.
Qed.

(** [get_records] returns the records of all the pages that come before
    the first empty one, in page order, and stops there: for [k] pages of
    records it makes [k + 1] requests, and none to Drive or Slack. *)
Theorem get_records_concatenates_pages w src fuel form e k (pages : nat -> list Json) :
  (forall i, i < k ->
     source_records src form (1 + i) (tick (remote e) + i) = FetchOk (pages i)
     /\ pages i <> []) ->
  source_records src form (1 + k) (tick (remote e) + k) = FetchOk [] ->
  k < fuel ->
  exists e',
    get_records w src fuel form e = Some (inr (concat (pages <$> seq 0 k)), e')
    /\ tick (remote e') = tick (remote e) + k + 1
    /\ trace (remote e') = trace (remote e).
Proof.
  intros Hfull Hlast Hfuel.
  destruct (record_pages_all w src fuel 1 form [] e k pages Hfull Hlast Hfuel)
    as (e' & Heq & Htick & Htrace & _).
  by exists e'.
Qed.

Lemma get_records_concatenates_pages_witness :
  let src := {| source_records :=
                  fun _ page _ => FetchOk (if page <=? 2 then [JStr (pretty page)] else []);
                source_photos := fun _ _ _ => FetchOk [];
                source_layers := fun _ => FetchOk [] |} in
  exists e',
    get_records quiet_world src 5 "f0" (new_exporter plain_config [])
    = Some (inr [JStr "1"; JStr "2"], e').
Proof.
  intros src.
  destruct (get_records_concatenates_pages quiet_world src 5 "f0"
              (new_exporter plain_config []) 2 (fun i => [JStr (pretty (1 + i))]))
    as (e' & Heq & _).
  - intros i Hi. split; [|done]. simpl.
    destruct i as [|[|i]]; [reflexivity|reflexivity|lia].
  - reflexivity.
  - lia.
  - exists e'. exact Heq.
Defined.

(** When the first request for the photo metadata of a form fails, or
    brings nothing, [get_photos_metadata_batch] answers with an empty batch
    all the same; to the orphan scan every photo has then lost its
    metadata, and it reports every dotted file of the photos folder as an
    orphan. *)
Theorem failed_metadata_query_orphans_all w src fuel form folder e :
  (forall photos,
     source_photos src form 1 (tick (remote e)) = FetchOk photos -> photos = []) ->
  exists e1,
    get_photos_metadata_batch w src (S fuel) form e = Some (∅, e1)
    /\ drive (remote e1) = drive (remote e)
    /\ forall f,
         f ∈ (identify_orphaned_photos w folder ∅ e1).1
         <-> f ∈ (_list_drive_folder_contents w folder true e1).1
             /\ has_char "." f = true.
Proof.
  intros Hnone. exists (query w e). split; [|split].
  - unfold get_photos_metadata_batch. simpl.
    destruct (source_photos src form 1 (tick (remote e))) as [photos| |]; [|done..].
    by rewrite (Hnone photos eq_refl).
  - done.
  - intros f. rewrite identify_orphaned_photos_spec, dom_empty_L.
    split; [by intros (? & ? & _)|]. intros [? ?]. split; [done|]. split; [done|].
    apply not_elem_of_empty.
Qed.

Lemma failed_metadata_query_orphans_all_witness :
  let e1 := query quiet_world (new_exporter plain_config abc_drive) in
  "A.jpg" ∈ (identify_orphaned_photos quiet_world "P" ∅ e1).1.
Proof.
  intros e1.
  destruct (failed_metadata_query_orphans_all quiet_world failing_photos_source 0 "f0" "P"
              (new_exporter plain_config abc_drive)) as (e1' & Heq & _ & Horphans).
  { intros photos H. discriminate H. }
  change (get_photos_metadata_batch quiet_world failing_photos_source 1 "f0"
            (new_exporter plain_config abc_drive)) with (Some (∅ : gmap string PhotoData, e1))
    in Heq.
  injection Heq as <-. apply Horphans. split; [|reflexivity].
  apply (bool_decide_unpack _). by vm_compute.
Defined.

(** ** A form without records *)

Lemma get_or_create_folder_quiet w name parent e :
  exists evs,
    emits e (_get_or_create_folder w name parent e).2 evs
    /\ Forall (fun ev => match ev with
                         | EvQueryFolder _ _ | EvCreateFolder _ _ _ => True
                         | _ => False
                         end) evs
    /\ stats (_get_or_create_folder w name parent e).2 = stats e.
Proof.
  unfold _get_or_create_folder. destruct (folder_cache e !! _).
  { exists []. split; [apply emits_nil|done]. }
  destruct (List.filter _ _).
  - eexists [_; _]. split; [do 2 apply (emits_cons w); emits_none|].
    split; [by repeat constructor|done].
  - eexists [_]. split; [apply (emits_cons w); emits_none|].
    split; [by repeat constructor|done].
Qed.

Lemma clear_items_quiet w (clear : string -> Exporter -> option (nat * Exporter)) :
  (forall folder e n e',
     clear folder e = Some (n, e') ->
     exists evs, emits e e' evs
                 /\ Forall (fun ev => is_slack ev = false /\ is_create_call ev = false) evs
                 /\ stats e' = stats e) ->
  forall items deleted e n e',
    clear_items w clear items deleted e = Some (n, e') ->
    exists evs, emits e e' evs
                /\ Forall (fun ev => is_slack ev = false /\ is_create_call ev = false) evs
                /\ stats e' = stats e.
Proof.
  intros Hclear. induction items as [|f items IH]; intros deleted e n e'; simpl.
  { intros [= <- <-]. exists []. split; [apply emits_nil|done]. }
  assert (Hinner : forall inner e1,
            (if String.eqb (item_mime f) folder_mime then clear (item_id f) e
             else Some (0, e)) = Some (inner, e1) ->
            exists evs, emits e e1 evs
                        /\ Forall (fun ev => is_slack ev = false /\ is_create_call ev = false)
                             evs
                        /\ stats e1 = stats e).
  { intros inner e1. case_if; [apply Hclear|].
    intros [= <- <-]. exists []. split; [apply emits_nil|done]. }
  destruct (if String.eqb (item_mime f) folder_mime then clear (item_id f) e
            else Some (0, e)) as [[inner e1]|]; [|done].
  destruct (Hinner inner e1 eq_refl) as (evs1 & Hem1 & Hall1 & Hst1).
  destruct (drive_delete_ok w (tick (remote e1))) eqn:Hok; intros Hrest;
    apply IH in Hrest as (evs2 & Hem2 & Hall2 & Hst2);
    (eexists (evs1 ++ EvDelete (item_id f) (item_name f) _ :: evs2);
     split; [eapply emits_app; [exact Hem1|]; apply (emits_cons w); exact Hem2|];
     split; [apply Forall_app; split; [done|]; by constructor|];
     by rewrite Hst2).
Qed.

Lemma clear_folder_contents_quiet w fuel :
  forall folder e n e',
    _clear_folder_contents w fuel folder e = Some (n, e') ->
    exists evs, emits e e' evs
                /\ Forall (fun ev => is_slack ev = false /\ is_create_call ev = false) evs
                /\ stats e' = stats e.
Proof.
  induction fuel as [|fuel IH]; intros folder e n e'; simpl; [done|].
  destruct (clear_items w (_clear_folder_contents w fuel) _ 0 _) as [[k e2]|] eqn:Hitems;
    [|done].
  intros [= <- <-].
  apply (clear_items_quiet w _ IH) in Hitems as (evs & Hem & Hall & Hst).
  exists (EvList folder :: evs). split; [apply (emits_cons w); exact Hem|].
  split; [by constructor|done].
Qed.

(** An upload with tries left makes at least one call, and ends with the
    first call that Drive accepts. *)
Lemma upload_attempts_tries w remaining attempt max_retries content name parent mime e :
  let '(ok, e') :=
    upload_attempts w (S remaining) attempt max_retries content name parent mime e in
  (exists ev evs, emits e e' (ev :: evs))
  /\ (drive_create_outcome w (tick (remote e)) = Created -> ok = true).
Proof.
  cbn [upload_attempts].
  assert (Hrest : forall a s,
            exists evs,
              emits s (upload_attempts w remaining a max_retries content name parent
                         mime s).2 evs).
  { intros a s.
    pose proof (upload_attempts_events w remaining a max_retries content name parent
                  mime s) as H.
    destruct (upload_attempts w remaining a max_retries content name parent mime s).
    destruct H as (evs & Hem & _). by exists evs. }
  destruct (drive_create_outcome w (tick (remote e))) as [|status|] eqn:Hout.
  - split; [|done]. eexists _, []. emits_none.
  - case_if; [|split; [|done]; eexists _, []; emits_none].
    match goal with |- context [upload_attempts w remaining ?a _ _ _ _ _ ?s] =>
      destruct (Hrest a s) as (evs & Hem);
      destruct (upload_attempts w remaining a max_retries content name parent mime s)
        as [ok e'] end.
    split; [|done]. eexists _, evs. apply (emits_cons w). exact Hem.
  - case_if; [|split; [|done]; eexists _, []; emits_none].
    match goal with |- context [upload_attempts w remaining ?a _ _ _ _ _ ?s] =>
      destruct (Hrest a s) as (evs & Hem);
      destruct (upload_attempts w remaining a max_retries content name parent mime s)
        as [ok e'] end.
    split; [|done]. eexists _, evs. apply (emits_cons w). exact Hem.
Qed.

(** A form for which Fulcrum returns no records has its whole Drive folder
    emptied and a note uploaded to it, and counts as processed.  Nobody is
    asked: the deletion policies and the approval gate have no part in it
    and Slack sees no traffic.  The run ends with the upload of the note,
    one to three creation calls for "NO_RECORDS.txt" in the folder of the
    form, and makes no other creation call.  When one of them succeeds,
    as the first does when Drive accepts it, the note is in the folder
    afterwards; when Drive also grants every deletion, the folder holds the
    note and nothing else, and nothing at all when the upload has
    failed. *)
Theorem form_without_records_is_cleared w src fuel form e :
  let parent :=
    if form_is_active form then active_forms_id (config e)
    else inactive_forms_id (config e) in
  let folder := (_get_or_create_folder w (safe_name form) parent e).1 in
  let e1 := (_get_or_create_folder w (safe_name form) parent e).2 in
  source_records src (form_id form) 1 (tick (remote e1)) = FetchOk [] ->
  nesting_below fuel folder (drive (remote e1)) = true ->
  exists result e' before uploads,
    export_form_start w src fuel form e = Some (NoRecords result, e')
    /\ count_events is_slack (emitted e e') = 0
    /\ stats e' !! "forms_processed"
       = Some (default 0 (stats e !! "forms_processed") + 1)
    /\ emitted e e' = before ++ uploads
    /\ Forall (fun ev => is_create_call ev = false) before
    /\ 1 <= length uploads <= 3
    /\ Forall (fun ev => exists rs o,
                 ev = EvCreate folder "NO_RECORDS.txt" "text/plain" rs o) uploads
    /\ ((forall t, drive_create_outcome w t = Created) ->
        count_events is_created uploads = 1)
    /\ (count_events is_created uploads = 1 ->
        exists id,
          new_file id "NO_RECORDS.txt" "text/plain" folder ∈ drive (remote e')
          /\ ((forall t, drive_delete_ok w t = true) ->
              children folder (drive (remote e'))
              = [new_file id "NO_RECORDS.txt" "text/plain" folder]))
    /\ (count_events is_created uploads <> 1 ->
        (forall t, drive_delete_ok w t = true) ->
        children folder (drive (remote e')) = []).
Proof.
  intros parent folder e1 Hnone Hdepth. unfold export_form_start. fold parent.
  pose proof (get_or_create_folder_quiet w (safe_name form) parent e)
    as (evs0 & Hem0 & Hall0 & Hst0).
  fold e1 in Hem0, Hst0. subst folder e1.
  destruct (_get_or_create_folder w (safe_name form) parent e) as [folder e1].
  simpl in *.
  destruct fuel as [|fuel]; [done|].
  unfold get_records. cbn [record_pages]. rewrite Hnone.
  set (e2 := query w e1).
  destruct (clear_folder_contents_total w (S fuel) folder e2 Hdepth)
    as (n & e3 & Hclear & Hsub & Hempty).
  rewrite Hclear.
  pose proof (clear_folder_contents_quiet w (S fuel) folder e2 n e3 Hclear)
    as (evs3 & Hem3 & Hall3 & Hst3).
  set (content := String.list_byte_of_string "This form has no records in Fulcrum.").
  pose proof (upload_attempts_drive w 3 0 3 content "NO_RECORDS.txt" folder "text/plain" e3)
    as Hup.
  pose proof (upload_attempts_events w 3 0 3 content "NO_RECORDS.txt" folder "text/plain" e3)
    as Hev.
  pose proof (upload_attempts_tries w 2 0 3 content "NO_RECORDS.txt" folder "text/plain" e3)
    as Htry.
  pose proof (upload_attempts_local w 3 0 3 content "NO_RECORDS.txt" folder "text/plain" e3)
    as (_ & _ & _ & Hst4 & _).
  unfold _upload_to_drive.
  destruct (upload_attempts w 3 0 3 content "NO_RECORDS.txt" folder "text/plain" e3)
    as [ok e4].
  destruct Hup as (evs4 & Hem4 & Hlen4 & _ & Hdrive).
  destruct Hev as (evs4' & Hem4' & Hshape & Hcount).
  assert (evs4' = evs4) as ->.
  { unfold emits in Hem4, Hem4'. rewrite Hem4 in Hem4'. by apply app_inv_head in Hem4'. }
  destruct Htry as [(ev & evs & Hem4'') Hfirst].
  assert (Hpos : 1 <= length evs4).
  { unfold emits in Hem4, Hem4''. rewrite Hem4 in Hem4''.
    apply app_inv_head in Hem4''. subst evs4. simpl. lia. }
  assert (Hem : emits e (stats_add "forms_processed" 1 e4) ((evs0 ++ evs3) ++ evs4)).
  { eapply emits_same; [|done]. rewrite <- app_assoc.
    eapply emits_app; [exact Hem0|]. eapply emits_app; [|exact Hem4].
    eapply emits_same in Hem3; [exact Hem3|done]. }
  exists {| fr_form := form_name form; fr_photos_uploaded := 0; fr_photos_skipped := 0;
            fr_photos_failed := 0; fr_photos_deleted := 0; fr_export_ended := false |},
         (stats_add "forms_processed" 1 e4), (evs0 ++ evs3), evs4.
  split; [reflexivity|]. rewrite (emitted_emits _ _ _ Hem).
  split; [|split; [|split; [done|split; [|split; [lia|split; [done|split; [|split]]]]]]].
  - apply count_events_none. rewrite !Forall_app. split; [split|].
    + eapply Forall_impl; [exact Hall0|]. by intros [].
    + eapply Forall_impl; [exact Hall3|]. by intros ev' [? _].
    + eapply Forall_impl; [exact Hshape|]. by intros ev' (rs & o & ->).
  - simpl in *. rewrite lookup_insert_eq. by rewrite Hst4, Hst3, Hst0.
  - apply Forall_app. split.
    + eapply Forall_impl; [exact Hall0|]. by intros [].
    + eapply Forall_impl; [exact Hall3|]. by intros ev' [_ ?].
  - intros Haccept. rewrite Hcount. by rewrite (Hfirst (Haccept _)).
  - intros Hone. rewrite Hcount in Hone. destruct ok; [|done].
    destruct Hdrive as [id Hdrive]. exists id. simpl. rewrite Hdrive. split.
    + apply elem_of_app. right. apply list_elem_of_here.
    + intros Hgrant. destruct (Hempty Hgrant) as [_ Hnil].
      unfold children in *. rewrite filter_app, Hnil. simpl.
      rewrite filter_cons, decide_True by done. done.
  - intros Hzero Hgrant. rewrite Hcount in Hzero. destruct ok; [done|].
    destruct (Hempty Hgrant) as [_ Hnil]. simpl. by rewrite Hdrive.
Qed.

Lemma form_without_records_is_cleared_witness :
  let cfg := {| skip_deletions := true; auto_delete := false; quick_check := false;
                slack_enabled := true; pre_approved_forms := ∅;
                active_forms_id := "active"; inactive_forms_id := "inactive" |} in
  let form := {| form_id := "f0"; form_name := "Form"; form_is_active := true |} in
  let e := set_folder_cache {[ "active/Form_f0" := "F" ]}
             (new_exporter cfg exported_form_drive) in
  exists result e' id,
    export_form_start quiet_world empty_source 2 form e = Some (NoRecords result, e')
    /\ children "F" (drive (remote e')) = [new_file id "NO_RECORDS.txt" "text/plain" "F"].
Proof.
  intros cfg form e.
  destruct (form_without_records_is_cleared quiet_world empty_source 2 form e
              eq_refl eq_refl)
    as (result & e' & before & uploads & Heq & _ & _ & _ & _ & _ & _ & Hone & Hnote & _).
  destruct (Hnote (Hone (fun _ => eq_refl))) as (id & _ & Hleft).
  exists result, e', id. split; [exact Heq|]. exact (Hleft (fun _ => eq_refl)).
Defined.

(** ** Layers *)

Lemma delete_found_events w name files e :
  exists evs,
    emits e (delete_found w name files e).2 evs
    /\ Forall (fun ev => exists id ok, ev = EvDelete id name ok) evs.
Proof.
  revert e. induction files as [|f files IH]; intros e; simpl.
  { exists []. split; [apply emits_nil|done]. }
  destruct (drive_delete_ok w (tick (remote e))).
  - match goal with |- context [delete_found w name files ?s] =>
      destruct (IH s) as (evs & Hem & Hall) end.
    eexists (_ :: evs). split; [apply (emits_cons w); exact Hem|].
    constructor; [by eexists _, _|done].
  - eexists [_]. split; [emits_none|]. repeat constructor. by eexists _, _.
Qed.

(** The events of a replacement: the query, deletions of files of that
    name, and creation calls for that name. *)
Lemma replace_file_events w content name parent mime e :
  exists evs,
    emits e (replace_file w content name parent mime e).2 (EvList parent :: evs)
    /\ Forall (fun ev => (exists id ok, ev = EvDelete id name ok)
                         \/ exists rs o, ev = EvCreate parent name mime rs o) evs.
Proof.
  unfold replace_file, _delete_file_if_exists.
  set (e0 := call w (EvList parent) e).
  set (files := filter _ _).
  pose proof (delete_found_events w name files e0) as (evs1 & Hem1 & Hall1).
  destruct (delete_found w name files e0) as [deleted e1]. simpl in Hem1.
  pose proof (upload_attempts_events w 3 0 3 content name parent mime e1) as Hup.
  unfold _upload_to_drive.
  destruct (upload_attempts w 3 0 3 content name parent mime e1) as [ok e2].
  destruct Hup as (evs2 & Hem2 & Hall2 & _). simpl.
  exists (evs1 ++ evs2). split.
  - apply (emits_cons w). by eapply emits_app.
  - apply Forall_app. split; (eapply Forall_impl; [eassumption|]); simpl; auto.
Qed.

Lemma upload_layers_events w layers (existing : gset string) folder uploaded e :
  exists evs,
    emits e (Collaborators.upload_layers w layers existing folder uploaded e).2 evs
    /\ Forall (fun ev => exists layer mime rs o,
                 layer ∈ layers /\ (Collaborators.layer_filename layer ∉ existing)
                 /\ ev = EvCreate folder (Collaborators.layer_filename layer) mime rs o) evs
    /\ (Collaborators.upload_layers w layers existing folder uploaded e).1
       <= uploaded + length (filter (fun l => Collaborators.layer_filename l ∉ existing) layers).
Proof.
  revert uploaded e. induction layers as [|layer layers IH]; intros uploaded e; simpl.
  { exists []. split; [apply emits_nil|]. split; [done|lia]. }
  rewrite filter_cons.
  destruct (decide (Collaborators.layer_filename layer ∈ existing)) as [Hin|Hout].
  - destruct (IH uploaded e) as (evs & Hem & Hall & Hlen).
    rewrite decide_False by (by intros H).
    exists evs. split; [done|]. split; [|done].
    eapply Forall_impl; [exact Hall|]. intros ev (l & mime & rs & o & Hl & Hn & ->).
    exists l, mime, rs, o. split; [by apply list_elem_of_further|done].
  - rewrite decide_True by done.
    pose proof (upload_attempts_events w 3 0 3 (layer_json layer) (Collaborators.layer_filename layer)
                  folder "application/json" e) as Hup.
    unfold _upload_to_drive.
    destruct (upload_attempts w 3 0 3 (layer_json layer) (Collaborators.layer_filename layer) folder
                "application/json" e) as [ok e1].
    destruct Hup as (evs1 & Hem1 & Hall1 & _).
    destruct (IH (if ok then S uploaded else uploaded) e1) as (evs & Hem & Hall & Hlen).
    exists (evs1 ++ evs). split; [by eapply emits_app|]. split.
    + apply Forall_app. split.
      * eapply Forall_impl; [exact Hall1|]. intros ev (rs & o & ->).
        exists layer, "application/json", rs, o. split; [apply list_elem_of_here|done].
      * eapply Forall_impl; [exact Hall|]. intros ev (l & mime & rs & o & Hl & Hn & ->).
        exists l, mime, rs, o. split; [by apply list_elem_of_further|done].
    + simpl. destruct ok; lia.
Qed.

(** [export_layers] uploads no layer whose file the layers folder already
    lists: its creation calls are for the manifest and for layer files that
    were not listed, its deletions are of the old manifest, and the count
    it returns is at most the number of layers that were not listed.  In
    particular a second export of the same layers re-creates the manifest
    and nothing else.  When Fulcrum returns no layers, or the request
    fails, it does nothing at all. *)
Theorem export_layers_skips_listed w src root manifest e :
  let layers := (Collaborators.get_layers w src e).1 in
  let e1 := (Collaborators.get_layers w src e).2 in
  let folder := (_get_or_create_folder w "layers" root e1).1 in
  let existing :=
    (_list_drive_folder_contents w folder true
       (_get_or_create_folder w "layers" root e1).2).1 in
  let run := Collaborators.export_layers w src root manifest e in
  Forall
    (fun ev =>
       match ev with
       | EvCreate parent name _ _ _ =>
           parent = folder
           /\ (name = "LAYERS_MANIFEST.json"
               \/ ((name ∉ existing)
                   /\ exists layer, layer ∈ layers /\ name = Collaborators.layer_filename layer))
       | EvDelete _ name _ => name = "LAYERS_MANIFEST.json"
       | _ => True
       end)
    (emitted e run.2)
  /\ run.1 <= length (filter (fun l => Collaborators.layer_filename l ∉ existing) layers)
  /\ (layers = [] -> run = (0, e1)).
Proof.
  intros layers e1 folder existing run. subst run. unfold Collaborators.export_layers.
  assert (Hem0 : emits e e1 [])
    by (subst e1; unfold Collaborators.get_layers; destruct (source_layers src _); emits_none).
  subst layers e1 folder existing.
  destruct (Collaborators.get_layers w src e) as [layers e1]. cbn [fst snd] in *.
  destruct layers as [|l ls].
  { cbn [fst snd]. split; [|done]. by rewrite (emitted_emits _ _ _ Hem0). }
  set (layers := l :: ls).
  pose proof (get_or_create_folder_quiet w "layers" root e1) as (evs1 & Hem1 & Hall1 & _).
  destruct (_get_or_create_folder w "layers" root e1) as [folder e2]. cbn [fst snd] in *.
  pose proof (list_drive_folder_contents_emits w folder true e2) as (evs2 & Hem2 & Hall2).
  destruct (_list_drive_folder_contents w folder true e2) as [existing e3].
  cbn [fst snd] in *.
  pose proof (upload_layers_events w layers existing folder 0 e3)
    as (evs3 & Hem3 & Hall3 & Hlen).
  destruct (Collaborators.upload_layers w layers existing folder 0 e3) as [uploaded e4].
  cbn [fst snd] in *.
  pose proof (replace_file_events w (manifest layers (now (remote e4)))
                "LAYERS_MANIFEST.json" folder "application/json" e4)
    as (evs4 & Hem4 & Hall4).
  destruct (replace_file w _ "LAYERS_MANIFEST.json" folder "application/json" e4)
    as [ok e5].
  cbn [fst snd] in *. split; [|split; [lia|done]].
  assert (Hem : emits e (set_stats (<["layers_uploaded" := uploaded]> (stats e5)) e5)
                  ([] ++ evs1 ++ evs2 ++ evs3 ++ EvList folder :: evs4)).
  { eapply emits_same; [|done]. repeat (eapply emits_app; [eassumption|]). done. }
  rewrite (emitted_emits _ _ _ Hem). rewrite app_nil_l.
  rewrite !Forall_app. split; [|split; [|split]].
  - eapply Forall_impl; [exact Hall1|]. by intros [].
  - eapply Forall_impl; [exact Hall2|]. by intros ev ->.
  - eapply Forall_impl; [exact Hall3|].
    intros ev (layer & mime & rs & o & Hl & Hn & ->). split; [done|]. right.
    split; [done|]. by exists layer.
  - constructor; [done|]. eapply Forall_impl; [exact Hall4|].
    intros ev [(id & ok' & ->)|(rs & o & ->)]; [done|]. split; [done|]. by left.
Qed.

(** ** The folder preload *)

Lemma preload_fold_is_Some parent (folders : list DriveItem) (cache : gmap string string) key :
  is_Some (cache !! key)
  \/ (exists f, f ∈ folders /\ key = parent +:+ "/" +:+ item_name f) ->
  is_Some
    (fold_left (fun c f => <[parent +:+ "/" +:+ item_name f := item_id f]> c) folders cache
     !! key).
Proof.
  revert cache. induction folders as [|f folders IH]; intros cache; simpl.
  { intros [H|(f & Hf & _)]; [done|]. by apply not_elem_of_nil in Hf. }
  intros [H|(g & Hg & Hkey)]; apply IH.
  - left. destruct (decide (parent +:+ "/" +:+ item_name f = key)) as [<-|Hne].
    + rewrite lookup_insert_eq. by eexists.
    + by rewrite lookup_insert_ne.
  - apply elem_of_cons in Hg as [->|Hg].
    + left. rewrite Hkey, lookup_insert_eq. by eexists.
    + right. by exists g.
Qed.

Lemma preload_fold_Some parent (folders : list DriveItem) (cache : gmap string string) key id :
  fold_left (fun c f => <[parent +:+ "/" +:+ item_name f := item_id f]> c) folders cache
  !! key = Some id ->
  cache !! key = Some id
  \/ exists f, f ∈ folders /\ key = parent +:+ "/" +:+ item_name f /\ id = item_id f.
Proof.
  revert cache. induction folders as [|f folders IH]; intros cache; simpl; [by left|].
  intros H. apply IH in H as [H|(g & Hg & Hkey & Hid)].
  - apply lookup_insert_Some in H as [[<- <-]|[_ H]]; [|by left].
    right. exists f. split; [apply list_elem_of_here|done].
  - right. exists g. split; [by apply list_elem_of_further|done].
Qed.

Lemma preload_parent_spec w parent e :
  let e' := Collaborators.preload_parent w parent e in
  config e' = config e
  /\ drive (remote e') = drive (remote e)
  /\ (forall key, is_Some (folder_cache e !! key) -> is_Some (folder_cache e' !! key))
  /\ (forall it,
        it ∈ drive (remote e) -> item_mime it = folder_mime ->
        item_parent it = parent -> parent <> "" ->
        is_Some (folder_cache e' !! (parent +:+ "/" +:+ item_name it)))
  /\ (forall key id,
        folder_cache e' !! key = Some id ->
        folder_cache e !! key = Some id
        \/ exists it, it ∈ drive (remote e) /\ item_mime it = folder_mime
                      /\ key = item_parent it +:+ "/" +:+ item_name it
                      /\ id = item_id it).
Proof.
  unfold Collaborators.preload_parent. destruct (String.eqb parent "") eqn:Hp.
  { apply String.eqb_eq in Hp. simpl. split; [done|]. split; [done|].
    split; [done|]. split.
    - intros it _ _ _ Hne. by destruct Hne.
    - intros key id H. by left. }
  simpl. split; [done|]. split; [done|]. split; [|split].
  - intros key H. apply preload_fold_is_Some. by left.
  - intros it Hit Hmime Hparent _. apply preload_fold_is_Some. right.
    exists it. split; [|done]. apply list_elem_of_filter. split; [done|].
    unfold children. by apply list_elem_of_filter.
  - intros key id H. apply preload_fold_Some in H as [H|(f & Hf & Hkey & Hid)]; [by left|].
    right. exists f. apply list_elem_of_filter in Hf as [Hmime Hf].
    unfold children in Hf. apply list_elem_of_filter in Hf as [Hparent Hf].
    by rewrite Hparent.
Qed.

(** After the preload every folder that lies directly under the folder of
    the active forms or under that of the inactive forms has its entry in
    the folder cache, so that looking it up costs no call and changes
    nothing, and [quick_check] finds it; the entries the preload adds are
    ids of folders that exist, and Drive is left as it was. *)
Theorem preload_caches_existing_folders w e :
  let e' := Collaborators._preload_existing_folders w e in
  (forall it,
     it ∈ drive (remote e) -> item_mime it = folder_mime -> item_parent it <> "" ->
     item_parent it = active_forms_id (config e)
     \/ item_parent it = inactive_forms_id (config e) ->
     is_Some (folder_cache e' !! (item_parent it +:+ "/" +:+ item_name it))
     /\ (_get_or_create_folder w (item_name it) (item_parent it) e').2 = e')
  /\ (forall key id,
        folder_cache e' !! key = Some id ->
        folder_cache e !! key = Some id
        \/ exists it, it ∈ drive (remote e) /\ item_mime it = folder_mime
                      /\ key = item_parent it +:+ "/" +:+ item_name it
                      /\ id = item_id it)
  /\ drive (remote e') = drive (remote e).
Proof.
  intros e'. subst e'. unfold Collaborators._preload_existing_folders.
  pose proof (preload_parent_spec w (active_forms_id (config e)) e)
    as (Hcfg1 & Hd1 & Hkeep1 & Hin1 & Hout1).
  set (e1 := Collaborators.preload_parent w (active_forms_id (config e)) e) in *.
  pose proof (preload_parent_spec w (inactive_forms_id (config e)) e1)
    as (Hcfg2 & Hd2 & Hkeep2 & Hin2 & Hout2).
  set (e2 := Collaborators.preload_parent w (inactive_forms_id (config e)) e1) in *.
  cbv zeta in *. split; [|split].
  - intros it Hit Hmime Hne Hparent.
    assert (Hsome : is_Some (folder_cache e2 !! (item_parent it +:+ "/" +:+ item_name it))).
    { destruct Hparent as [Hp|Hp].
      - apply Hkeep2. rewrite Hp. apply Hin1; [done|done|done|by rewrite <- Hp].
      - rewrite Hp. apply Hin2; [by rewrite Hd1|done|done|by rewrite <- Hp]. }
    split; [done|]. destruct Hsome as [id Hid].
    unfold _get_or_create_folder. by rewrite Hid.
  - intros key id H. apply Hout2 in H as [H|H].
    + by apply Hout1.
    + right. by rewrite Hd1 in H.
  - by rewrite Hd2.
Qed.

(** ** The photo tables *)

Lemma photo_rows_spec results :
  let '(all_rows, before_rows, completed_rows) := photo_rows results in
  all_rows = List.filter (fun r => succeeded r && bool_decide (is_Some (photo_data r))) results
  /\ before_rows = List.filter is_before all_rows
  /\ completed_rows = List.filter (fun r => negb (is_before r) && is_completed r) all_rows.
Proof.
  induction results as [|r results IH]; simpl; [done|].
  destruct (photo_rows results) as [[all_rows before_rows] completed_rows].
  destruct IH as (Hall & Hbefore & Hcompleted).
  destruct (succeeded r); simpl; [|done].
  destruct (photo_data r); simpl; [|done].
  split; [by rewrite Hall|].
  destruct (is_before r); simpl; [by rewrite Hbefore|].
  split; [done|]. destruct (is_completed r); by rewrite Hcompleted.
Qed.

Lemma filter_split_length {A} (P Q : A -> bool) (l : list A) :
  (forall x, P x = true -> Q x = true -> False) ->
  length (List.filter P l) + length (List.filter Q l) <= length l.
Proof.
  intros Hdisj. induction l as [|x l IH]; simpl; [done|].
  destruct (P x) eqn:HP, (Q x) eqn:HQ; simpl; try lia. by destruct (Hdisj x).
Qed.

(** The two smaller photo tables never share a row: a photo whose field
    path mentions "before" goes to the "before" table even when the path
    also mentions "after" or "complete", and together the two tables have
    at most the rows of the table of all photos.  The summary counts
    differently: while every successful result carries its metadata, its
    number of "before" photos is the number of rows of that table, but its
    number of "completed" photos also counts the rows of the "before" table
    whose path mentions "completed", "after" or "complete". *)
Theorem photo_tables_and_summary_counts results :
  let '(all_rows, before_rows, completed_rows) := photo_rows results in
  (forall r, r ∈ before_rows -> r ∉ completed_rows)
  /\ length before_rows + length completed_rows <= length all_rows
  /\ (Forall (fun r => succeeded r = true -> is_Some (photo_data r)) results ->
      before_count results = length before_rows
      /\ completed_count results
         = length completed_rows + length (List.filter is_completed before_rows)).
Proof.
  pose proof (photo_rows_spec results) as H.
  destruct (photo_rows results) as [[all_rows before_rows] completed_rows].
  destruct H as (Hall & -> & ->). split; [|split].
  - intros r Hb Hc. apply list_elem_of_In, List.filter_In in Hb as [_ Hb].
    apply list_elem_of_In, List.filter_In in Hc as [_ Hc]. by rewrite Hb in Hc.
  - apply filter_split_length. intros r Hb Hc. by rewrite Hb in Hc.
  - intros Hdata. unfold before_count, completed_count.
    assert (Hrows : all_rows = List.filter succeeded results).
    { rewrite Hall. clear Hall. induction results as [|r results IH]; simpl; [done|].
      apply Forall_cons in Hdata as [Hr Hdata]. rewrite (IH Hdata).
      destruct (succeeded r); simpl; [|done].
      by rewrite bool_decide_eq_true_2 by auto. }
    rewrite Hrows. clear. induction results as [|r results [IH1 IH2]]; simpl; [done|].
    destruct (succeeded r); simpl; [|done].
    destruct (is_before r); simpl; rewrite ?IH1, ?IH2;
      destruct (is_completed r); simpl; rewrite ?IH1, ?IH2; split; lia.
Qed.

(** ** Deletion by policy *)

Lemma send_slack_message_emits w note e :
  exists evs,
    emits e (send_slack_message w note e).2 evs
    /\ Forall (fun ev => is_poll ev = false) evs
    /\ undisturbed e (send_slack_message w note e).2.
Proof.
  unfold send_slack_message. case_if.
  - eexists [_]. split; [emits_none|]. split; [by repeat constructor|done].
  - exists []. split; [apply emits_nil|done].
Qed.

(** When [auto_delete] is set or the form is pre-approved (and
    [skip_deletions] is not set), the cleanup never waits for an answer:
    it asks Slack for no history, reports the deletion as approved,
    records no skipped form and does not end the run; every orphan that a
    file of the folder bears gets its deletion request. *)
Theorem policy_approval_never_waits w folder cache form e :
  skip_deletions (config e) = false ->
  auto_delete (config e) = true \/ form ∈ pre_approved_forms (config e) ->
  let orphans := (identify_orphaned_photos w folder cache e).1 in
  let run := cleanup_deleted_photos w folder cache form e in
  run.1.2 = Approved
  /\ count_events is_poll (emitted e run.2) = 0
  /\ skipped_forms run.2 = skipped_forms e
  /\ export_cancelled run.2 = export_cancelled e
  /\ forall f,
       f ∈ orphans ->
       f ∈ item_name <$> children folder (drive (remote e)) ->
       exists id ok, EvDelete id f ok ∈ emitted e run.2.
Proof.
  intros Hskip Hpolicy orphans run.
  pose proof (identify_orphaned_photos_undisturbed w folder cache e)
    as (Hcfg & Hsk & Hcan & Hdrive).
  pose proof (list_drive_folder_contents_emits w folder true e) as (pre & Hpre & Hlist).
  rewrite <- (identify_orphaned_photos_state w folder cache e) in Hpre.
  subst orphans run. unfold cleanup_deleted_photos.
  destruct (identify_orphaned_photos w folder cache e) as [orphans e1].
  cbn [fst snd] in *.
  destruct orphans as [|f0 fs].
  { cbn [fst snd]. rewrite (emitted_emits _ _ _ Hpre).
    split; [done|]. split.
    - apply count_events_none. eapply Forall_impl; [exact Hlist|]. by intros ev ->.
    - split; [done|]. split; [done|]. intros f Hf. by apply not_elem_of_nil in Hf. }
  set (orphans := f0 :: fs).
  match goal with |- context [if skip_deletions (config e1) then ?a else ?b] =>
    assert (Hgo : exists note,
              (if skip_deletions (config e1) then a else b)
              = delete_approved w orphans folder (send_slack_message w note e1).2)
  end.
  { rewrite Hcfg, Hskip. destruct (auto_delete (config e)); [by eexists|].
    destruct Hpolicy as [?|Hin]; [done|]. rewrite decide_True by done. by eexists. }
  destruct Hgo as [note Hgo]. rewrite Hgo. clear Hgo.
  pose proof (send_slack_message_emits w note e1) as (evs1 & Hem1 & Hall1 & Hund1).
  set (e2 := (send_slack_message w note e1).2) in *.
  destruct Hund1 as (_ & Hsk1 & Hcan1 & Hdrive1).
  pose proof (delete_photos_from_drive_emits w orphans folder e2) as (evs2 & Hem2 & Hall2).
  pose proof (delete_photos_from_drive_requests w orphans folder e2) as Hreq.
  unfold delete_approved.
  pose proof (delete_photos_from_drive_keeps w orphans folder e2) as (Hsk2 & Hcan2 & _).
  destruct (delete_photos_from_drive w orphans folder e2) as [n e3].
  cbn [fst snd] in *.
  split; [done|]. split; [|split; [|split]].
  - pose proof (emits_app _ _ _ _ _ Hpre (emits_app _ _ _ _ _ Hem1 Hem2)) as Hem.
    rewrite (emitted_emits _ _ _ Hem). apply count_events_none.
    rewrite !Forall_app. split; [|split; [done|]].
    + eapply Forall_impl; [exact Hlist|]. by intros ev ->.
    + constructor; [done|]. eapply Forall_impl; [exact Hall2|]. by intros [].
  - congruence.
  - congruence.
  - intros f Hf Hin. rewrite <- Hdrive, <- Hdrive1 in Hin.
    destruct (Hreq f Hf Hin) as (id & ok & Hev). exists id, ok.
    eapply emitted_later; [|exact Hem2|exact Hev]. by eapply emits_app.
Qed.

Lemma policy_approval_never_waits_witness :
  let e := new_exporter pre_approving_config abc_drive in
  (cleanup_deleted_photos quiet_world "P" abc_metadata "Form" e).1.2 = Approved
  /\ count_events is_poll
       (emitted e (cleanup_deleted_photos quiet_world "P" abc_metadata "Form" e).2) = 0.
Proof.
  intros e.
  destruct (policy_approval_never_waits quiet_world "P" abc_metadata "Form" e eq_refl)
    as (Haction & Hpolls & _).
  { right. change ("Form" ∈ ({["Form"]} : gset string)). by apply elem_of_singleton. }
  by split.
Defined.

(** ** Network budget of a photo *)

Lemma direct_download_length w remaining attempt max_retries last id ext data e :
  exists evs,
    emits e (direct_download_attempts w remaining attempt max_retries last id ext data e).2
      evs
    /\ length evs <= remaining.
Proof.
  revert attempt last e. induction remaining as [|remaining IH]; intros attempt last e;
    simpl.
  { exists []. split; [apply emits_nil|done]. }
  destruct (source_photo w id (tick (remote e))) as [c|msg|msg].
  - eexists [_]. split; [emits_none|simpl; lia].
  - match goal with |- context [direct_download_attempts w remaining ?a _ ?l _ _ _ ?s] =>
      destruct (IH a l s) as (evs & Hem & Hlen) end.
    exists (EvFetchPhoto id :: evs). split; [|simpl; lia].
    apply (emits_cons w). eapply emits_same in Hem; [|reflexivity].
    revert Hem. unfold emits. by case_if.
  - eexists [_]. split; [emits_none|simpl; lia].
Qed.

Lemma fallback_download_length w remaining attempt max_retries last id e :
  exists evs,
    emits e (fallback_download_attempts w remaining attempt max_retries last id e).2 evs
    /\ length evs <= 2 * remaining.
Proof.
  revert attempt last e. induction remaining as [|remaining IH]; intros attempt last e;
    simpl.
  { exists []. split; [apply emits_nil|done]. }
  destruct (source_meta w id (tick (remote e))) as [data|msg|msg].
  - destruct (validate_photo data).
    { eexists [_]. split; [emits_none|simpl; lia]. }
    destruct (source_photo w id _) as [c|msg|msg].
    + eexists [_; _]. split; [do 2 apply (emits_cons w); emits_none|simpl; lia].
    + match goal with |- context [fallback_download_attempts w remaining ?a _ ?l _ ?s] =>
        destruct (IH a l s) as (evs & Hem & Hlen) end.
      exists (EvFetchMeta id :: EvFetchPhoto id :: evs). split; [|simpl; lia].
      do 2 apply (emits_cons w). revert Hem. unfold emits. by case_if.
    + eexists [_; _]. split; [do 2 apply (emits_cons w); emits_none|simpl; lia].
  - match goal with |- context [fallback_download_attempts w remaining ?a _ ?l _ ?s] =>
      destruct (IH a l s) as (evs & Hem & Hlen) end.
    exists (EvFetchMeta id :: evs). split; [|simpl; lia].
    apply (emits_cons w). revert Hem. unfold emits. by case_if.
  - eexists [_]. split; [emits_none|simpl; lia].
Qed.

(** One attempt at a photo makes at most nine network calls: with batch
    metadata at most three fetches of the bytes and three creation calls,
    without it up to three more requests for the metadata. *)
Theorem process_single_photo_call_budget w photo folder cache e :
  length (emitted e (_process_single_photo w photo folder cache e).2)
  <= match cache !! photo_id photo with
     | Some _ => 6
     | None => 9
     end.
Proof.
  unfold _process_single_photo.
  set (id := photo_id photo).
  assert (Hdl : exists evs,
            emits e (match cache !! id with
                     | Some cached => download_photo_with_metadata w id cached 3 e
                     | None => download_photo_to_memory w id 3 e
                     end).2 evs
            /\ length evs + 3 <= match cache !! id with Some _ => 6 | None => 9 end).
  { destruct (cache !! id) as [cached|].
    - unfold download_photo_with_metadata. destruct (validate_photo cached).
      + exists []. split; [apply emits_nil|simpl; lia].
      + destruct (direct_download_length w 3 0 3 None id (ext_of (content_type cached))
                    cached e) as (evs & Hem & Hlen).
        exists evs. split; [done|lia].
    - destruct (fallback_download_length w 3 0 3 None id e) as (evs & Hem & Hlen).
      exists evs. split; [done|lia]. }
  destruct (match cache !! id with
            | Some cached => download_photo_with_metadata w id cached 3 e
            | None => download_photo_to_memory w id 3 e
            end) as [[[[content ext] error_text] data] e1].
  destruct Hdl as (evs1 & Hem1 & Hlen1). cbn [snd] in Hem1.
  assert (Hfail : forall msg,
            length (emitted e (mark_failed msg photo, e1).2)
            <= match cache !! id with Some _ => 6 | None => 9 end).
  { intros msg. cbn [snd]. rewrite (emitted_emits _ _ _ Hem1). lia. }
  case_if; [apply Hfail|].
  destruct content as [content|]; [|apply Hfail]. destruct ext as [ext|]; [|apply Hfail].
  pose proof (upload_attempts_drive w 3 0 3 content (id +:+ "." +:+ ext) folder
                (if String.eqb ext "png" then "image/png" else "image/jpeg") e1) as Hup.
  unfold _upload_to_drive.
  destruct (upload_attempts w 3 0 3 content _ folder _ e1) as [ok e2].
  destruct Hup as (evs2 & Hem2 & Hlen2 & _).
  pose proof (emits_app _ _ _ _ _ Hem1 Hem2) as Hem.
  destruct ok; cbn [snd].
  - assert (Hem' : emits e (_record_photo_uploaded id e2) (evs1 ++ evs2)).
    { eapply emits_same; [exact Hem|]. by rewrite record_photo_uploaded_remote. }
    rewrite (emitted_emits _ _ _ Hem'), length_app. lia.
  - rewrite (emitted_emits _ _ _ Hem), length_app. lia.
Qed.

(** ** The progress file *)

Lemma record_photo_uploaded_in_step id e :
  progress_in_step e -> progress_in_step (_record_photo_uploaded id e).
Proof.
  intros (saved & Hfile & Hsub & Hlag). unfold _record_photo_uploaded.
  set (e1 := set_uploaded_photos ({[id]} ∪ uploaded_photos e) e).
  destruct (size (uploaded_photos e1) mod 100 =? 0) eqn:Hmod.
  - exists (uploaded_photos e1). split; [done|]. split; [done|].
    change (uploaded_photos (_save_photo_progress e1)) with (uploaded_photos e1).
    rewrite Nat.sub_diag. apply Nat.le_0_l.
  - apply Nat.eqb_neq in Hmod. exists saved. split; [done|].
    change (uploaded_photos e1) with ({[id]} ∪ uploaded_photos e) in *.
    split; [by apply union_subseteq_r'|].
    destruct (decide (id ∈ uploaded_photos e)) as [Hin|Hout].
    + assert ({[id]} ∪ uploaded_photos e = uploaded_photos e) as ->; [|done].
      apply subseteq_union_1_L. by apply singleton_subseteq_l.
    + rewrite size_union in * by (by apply disjoint_singleton_l). rewrite size_singleton in *.
      pose proof (subseteq_size _ _ Hsub).
      assert (Hstep : (1 + size (uploaded_photos e)) mod 100
                      = size (uploaded_photos e) mod 100 + 1).
      { pose proof (Nat.div_mod_eq (size (uploaded_photos e)) 100).
        pose proof (Nat.mod_upper_bound (size (uploaded_photos e)) 100).
        pose proof (Nat.div_mod_eq (1 + size (uploaded_photos e)) 100).
        pose proof (Nat.mod_upper_bound (1 + size (uploaded_photos e)) 100).
        assert ((1 + size (uploaded_photos e)) / 100 = size (uploaded_photos e) / 100
                \/ (1 + size (uploaded_photos e)) / 100
                   = S (size (uploaded_photos e) / 100)) as [Hq|Hq]; [|lia|lia].
        pose proof (Nat.Div0.div_le_mono (size (uploaded_photos e))
                      (1 + size (uploaded_photos e)) 100).
        lia. }
      lia.
Qed.

Lemma record_uploads_in_step ids e :
  progress_in_step e -> progress_in_step (record_uploads ids e).
Proof.
  unfold record_uploads. revert e. induction ids as [|id ids IH]; intros e H; simpl;
    [done|].
  by apply IH, record_photo_uploaded_in_step.
Qed.

(** The progress file is written whenever the uploaded set counts a
    multiple of 100.  So once the file is in step with the set, as it is
    after a load or a save, it stays within 99 photos of it however many
    uploads are recorded: what it names was uploaded, and it misses fewer
    than 100 of the uploaded photos. *)
Theorem progress_file_lags_by_less_than_100 ids e :
  progress_file e = Some (uploaded_photos e) ->
  exists saved,
    progress_file (record_uploads ids e) = Some saved
    /\ saved ⊆ uploaded_photos (record_uploads ids e)
    /\ size (uploaded_photos (record_uploads ids e)) - size saved < 100.
Proof.
  intros Hsync.
  assert (H : progress_in_step (record_uploads ids e)).
  { apply record_uploads_in_step. exists (uploaded_photos e).
    split; [done|]. split; [done|]. lia. }
  destruct H as (saved & Hfile & Hsub & Hlag). exists saved.
  split; [done|]. split; [done|].
  pose proof (Nat.mod_upper_bound (size (uploaded_photos (record_uploads ids e))) 100).
  lia.
Qed.

Lemma progress_file_lags_by_less_than_100_witness :
  let e := _save_photo_progress (new_exporter plain_config []) in
  exists saved,
    progress_file (record_uploads ["a"; "b"; "a"] e) = Some saved
    /\ size (uploaded_photos (record_uploads ["a"; "b"; "a"] e)) - size saved < 100.
Proof.
  intros e.
  destruct (progress_file_lags_by_less_than_100 ["a"; "b"; "a"] e eq_refl)
    as (saved & Hfile & _ & Hlag).
  by exists saved.
Defined.

(** ** Columns of the data table *)

Lemma sorted_elem x l : x ∈ sorted l <-> x ∈ l.
Proof. unfold sorted. by rewrite merge_sort_Permutation. Qed.

Lemma sorted_NoDup l : NoDup l -> NoDup (sorted l).
Proof. unfold sorted. by rewrite merge_sort_Permutation. Qed.

Lemma system_fields_NoDup : NoDup system_fields.
Proof. apply (bool_decide_unpack _). by vm_compute. Qed.

Lemma fieldnames_elem (all_keys : gset string) k :
  k ∈ fieldnames all_keys <-> k ∈ all_keys.
Proof.
  unfold fieldnames. rewrite !elem_of_app, !sorted_elem, !list_elem_of_filter.
  rewrite sorted_elem, !list_elem_of_filter, !elem_of_elements.
  destruct (decide (k ∈ system_fields)); destruct (is_photo_field k) eqn:Hp; split;
    try tauto.
  all: try (intros H; right; tauto).
  all: try (intros H; right; left; split; [|tauto]; by intros (? & _)).
Qed.

Lemma sorted_Sorted l : Sorted str_le (sorted l).
Proof.
  assert (Htotal : Total str_le) by (intros s t; apply String.leb_total).
  unfold sorted. apply (Sorted_merge_sort str_le).
Qed.

(** The header of the data CSV has every key exactly once: no column is
    lost and none is doubled.  It is made of three runs: system fields,
    then the fields whose name mentions neither "photo" nor "image", then
    the fields whose name does, the last two in alphabetical order. *)
Theorem fieldnames_is_permutation (all_keys : gset string) :
  fieldnames all_keys ≡ₚ elements all_keys
  /\ NoDup (fieldnames all_keys)
  /\ exists system others photos,
       fieldnames all_keys = system ++ others ++ photos
       /\ Forall (fun k => k ∈ system_fields) system
       /\ Forall (fun k => (k ∉ system_fields) /\ is_photo_field k = false) others
       /\ Forall (fun k => (k ∉ system_fields) /\ is_photo_field k = true) photos
       /\ Sorted str_le others /\ Sorted str_le photos.
Proof.
  assert (Hnd : NoDup (fieldnames all_keys)).
  { unfold fieldnames. apply NoDup_app. split; [|split].
    - apply NoDup_filter, system_fields_NoDup.
    - intros k Hk Hin. apply list_elem_of_filter in Hk as [_ Hsys].
      apply elem_of_app in Hin as [Hin|Hin]; rewrite sorted_elem in Hin;
        apply list_elem_of_filter in Hin as [_ Hin];
        by apply list_elem_of_filter in Hin as [? _].
    - apply NoDup_app. split; [|split].
      + apply sorted_NoDup. do 2 apply NoDup_filter. apply NoDup_elements.
      + intros k Hk Hin. rewrite sorted_elem in Hk.
        by apply list_elem_of_filter in Hk as [? _].
      + apply sorted_NoDup. do 2 apply NoDup_filter. apply NoDup_elements. }
  split; [|split; [done|]].
  - apply NoDup_Permutation; [done|apply NoDup_elements|].
    intros k. by rewrite fieldnames_elem, elem_of_elements.
  - eexists _, _, _. split; [reflexivity|]. split; [|split; [|split]].
    4: { split; apply sorted_Sorted. }
    + apply Forall_forall. intros k Hk. by apply list_elem_of_filter in Hk as [_ ?].
    + apply Forall_forall. intros k Hk. rewrite sorted_elem in Hk.
      apply list_elem_of_filter in Hk as [Hno Hk].
      apply list_elem_of_filter in Hk as [Hsys Hk]. split; [done|].
      destruct (is_photo_field k) eqn:Hp; [|done]. destruct Hno.
      apply sorted_elem. apply list_elem_of_filter. split; [done|].
      by apply list_elem_of_filter.
    + apply Forall_forall. intros k Hk. rewrite sorted_elem in Hk.
      apply list_elem_of_filter in Hk as [Hp Hk].
      by apply list_elem_of_filter in Hk as [Hsys Hk].
Qed.

(** ** Forms with failed photos *)

Lemma delete_file_if_exists_gone w name parent e :
  (forall t, drive_delete_ok w t = true) ->
  filter (fun it => item_name it = name)
    (children parent (drive (remote (_delete_file_if_exists w name parent e).2))) = [].
Proof.
  intros Hgrant. unfold _delete_file_if_exists.
  set (e0 := call w (EvList parent) e).
  set (files := filter (fun it => item_name it = name) (children parent (drive (remote e0)))).
  pose proof (delete_found_drive w name files e0) as (Hsub & _ & Hall).
  destruct (Hall Hgrant) as [_ Hgone]. clear Hall.
  set (d' := drive (remote (delete_found w name files e0).2)) in *.
  destruct (filter _ (children parent d')) as [|it rest] eqn:Hf; [done|].
  assert (Hit : it ∈ it :: rest) by apply list_elem_of_here.
  rewrite <- Hf in Hit.
  apply list_elem_of_filter in Hit as [Hname Hit]. unfold children in Hit.
  apply list_elem_of_filter in Hit as [Hparent Hit].
  destruct (Hgone it Hit). apply list_elem_of_fmap_2.
  unfold files, children. apply list_elem_of_filter. split; [done|].
  apply list_elem_of_filter. split; [done|]. by apply Hsub.
Qed.

(** The list of forms with failed photos follows the latest export of
    each form: a form whose export has just ended is listed exactly when
    photos of it have failed, the other forms keep their entries, and no
    form is listed twice.  The summary file follows the list: when Drive
    grants every deletion, the target folder holds no summary after the
    update if the list is empty, and at most one otherwise. *)
Theorem failed_forms_follow_latest_export w root summary form in_fulcrum in_drive failed
    failed_forms e :
  let failed_forms' := track_failed_form form in_fulcrum in_drive failed failed_forms in
  let e' := update_failed_downloads_summary w root summary failed_forms' e in
  (form_name form ∈ ff_name <$> failed_forms' <-> 0 < failed)
  /\ (forall f, ff_name f <> form_name form -> f ∈ failed_forms' <-> f ∈ failed_forms)
  /\ (NoDup (ff_name <$> failed_forms) -> NoDup (ff_name <$> failed_forms'))
  /\ ((forall t, drive_delete_ok w t = true) ->
      length (filter (fun it => item_name it = "FAILED_DOWNLOADS_SUMMARY.txt")
                (children root (drive (remote e'))))
      <= (if decide (failed_forms' = []) then 0 else 1)).
Proof.
  intros failed_forms' e'.
  set (others := filter (fun f => ff_name f <> form_name form) failed_forms).
  assert (Hothers : form_name form ∉ ff_name <$> others).
  { intros H. apply list_elem_of_fmap in H as (f & Hf & Hin).
    by apply list_elem_of_filter in Hin as [? _]. }
  split; [|split; [|split]].
  - subst failed_forms'. unfold track_failed_form. fold others.
    destruct (failed =? 0) eqn:Hz.
    + apply Nat.eqb_eq in Hz. split; [done|lia].
    + apply Nat.eqb_neq in Hz. split; [lia|]. intros _.
      rewrite fmap_app. apply elem_of_app. right. apply list_elem_of_here.
  - intros f Hf. subst failed_forms'. unfold track_failed_form. fold others.
    assert (Hin : f ∈ others <-> f ∈ failed_forms).
    { unfold others. rewrite list_elem_of_filter. tauto. }
    destruct (failed =? 0); [done|].
    rewrite elem_of_app, list_elem_of_singleton, Hin. split; [|tauto].
    intros [?|Heq]; [done|]. subst f. by destruct Hf.
  - intros Hnd. subst failed_forms'. unfold track_failed_form. fold others.
    assert (Hnd' : NoDup (ff_name <$> others)).
    { unfold others. clear Hothers. induction failed_forms as [|f l IH]; [done|].
      simpl in Hnd. apply NoDup_cons in Hnd as [Hf Hnd]. rewrite filter_cons.
      case_decide; [|by apply IH]. rewrite fmap_cons. apply NoDup_cons.
      split; [|by apply IH]. intros Hdup. apply Hf.
      apply list_elem_of_fmap in Hdup as (g & -> & Hg).
      apply list_elem_of_filter in Hg as [_ Hg]. by apply list_elem_of_fmap_2. }
    destruct (failed =? 0); [done|].
    rewrite fmap_app. apply NoDup_app. split; [done|]. split.
    + intros x Hx Hin. apply list_elem_of_singleton in Hin. simpl in Hin. by subst x.
    + apply NoDup_singleton.
  - intros Hgrant. subst e'. unfold update_failed_downloads_summary.
    destruct failed_forms' as [|f l].
    + rewrite delete_file_if_exists_gone by done. simpl. lia.
    + rewrite decide_False by done.
      unfold replace_file.
      pose proof (delete_file_if_exists_gone w "FAILED_DOWNLOADS_SUMMARY.txt" root e
                    Hgrant) as Hgone.
      destruct (_delete_file_if_exists w "FAILED_DOWNLOADS_SUMMARY.txt" root e)
        as [ok e1]. cbn [snd] in Hgone.
      pose proof (upload_attempts_drive w 3 0 3 (summary (f :: l) (now (remote e)))
                    "FAILED_DOWNLOADS_SUMMARY.txt" root "text/plain" e1) as Hup.
      unfold _upload_to_drive.
      destruct (upload_attempts w 3 0 3 _ "FAILED_DOWNLOADS_SUMMARY.txt" root
                  "text/plain" e1) as [ok' e2].
      destruct Hup as (_ & _ & _ & _ & Hdrive). cbn [snd].
      destruct ok'.
      * destruct Hdrive as [id ->]. unfold children in *.
        rewrite !filter_app, Hgone, length_app. simpl.
        repeat (rewrite filter_cons; case_decide); simpl; lia.
      * rewrite Hdrive, Hgone. simpl. lia.
Qed.

(** ** Record files *)

Lemma collect_geojson_events w id_text record_json record folder uploaded e :
  exists evs,
    emits e (collect_geojson w id_text record_json record folder uploaded e).2 evs
    /\ Forall (fun ev => exists rs o,
                 ev = EvCreate folder (geojson_filename id_text record)
                        "application/json" rs o) evs
    /\ (collect_geojson w id_text record_json record folder uploaded e).1
       <= uploaded + count_events is_created evs
    /\ (collect_geojson w id_text record_json record folder uploaded e).1 <= S uploaded
    /\ uploaded <= (collect_geojson w id_text record_json record folder uploaded e).1.
Proof.
  unfold collect_geojson, _upload_single_geojson, _upload_to_drive.
  set (e0 := set_remote (next_job (remote e)) e).
  pose proof (upload_attempts_events w 3 0 3 (record_json record)
                (geojson_filename id_text record) folder "application/json" e0) as Hup.
  destruct (upload_attempts w 3 0 3 (record_json record) _ folder "application/json" e0)
    as [ok e1].
  destruct Hup as (evs & Hem & Hall & Hcount).
  destruct (pool_dispatch w (jobs (remote e))); cbn [fst snd].
  - exists evs. split; [exact Hem|]. split; [done|]. rewrite Hcount. destruct ok; lia.
  - exists evs. split; [exact Hem|]. split; [done|]. lia.
  - exists []. split; [emits_none|]. split; [done|]. unfold count_events. simpl. lia.
Qed.

Lemma upload_geojson_jobs_events w id_text record_json to_upload folder uploaded e :
  exists evs,
    emits e (upload_geojson_jobs w id_text record_json to_upload folder uploaded e).2 evs
    /\ Forall (fun ev => exists record rs o,
                 record ∈ to_upload
                 /\ ev = EvCreate folder (geojson_filename id_text record)
                           "application/json" rs o) evs
    /\ (upload_geojson_jobs w id_text record_json to_upload folder uploaded e).1
       <= uploaded + count_events is_created evs
    /\ (upload_geojson_jobs w id_text record_json to_upload folder uploaded e).1
       <= uploaded + length to_upload.
Proof.
  revert uploaded e. induction to_upload as [|record rest IH]; intros uploaded e; simpl.
  { exists []. split; [apply emits_nil|]. split; [done|]. unfold count_events. simpl. lia. }
  pose proof (collect_geojson_events w id_text record_json record folder uploaded e)
    as (evs1 & Hem1 & Hall1 & Hcount1 & Hle1 & _).
  destruct (collect_geojson w id_text record_json record folder uploaded e)
    as [uploaded1 e1]. cbn [fst snd] in *.
  destruct (IH uploaded1 e1) as (evs2 & Hem2 & Hall2 & Hcount2 & Hle2).
  exists (evs1 ++ evs2). split; [by eapply emits_app|]. split; [|split].
  - apply Forall_app. split.
    + eapply Forall_impl; [exact Hall1|]. intros ev (rs & o & ->).
      exists record, rs, o. split; [apply list_elem_of_here|done].
    + eapply Forall_impl; [exact Hall2|]. intros ev (r & rs & o & Hr & ->).
      exists r, rs, o. split; [by apply list_elem_of_further|done].
  - rewrite count_events_app. lia.
  - lia.
Qed.

(** A record whose file the folder already lists is never uploaded again:
    every call [_upload_geojson_concurrent] makes is a creation call for
    the file of a record that was not listed.  The count it returns is at
    most the number of such records and at most the number of files
    created; a job that was still running at the deadline can make the
    second number the larger. *)
Theorem upload_geojson_skips_listed w id_text record_json records folder
    (existing : gset string) e :
  let run := _upload_geojson_concurrent w id_text record_json records folder existing e in
  Forall
    (fun ev =>
       exists record rs o,
         record ∈ records
         /\ (geojson_filename id_text record ∉ existing)
         /\ ev = EvCreate folder (geojson_filename id_text record) "application/json" rs o)
    (emitted e run.2)
  /\ run.1 <= length (filter (fun r => geojson_filename id_text r ∉ existing) records)
  /\ run.1 <= count_events is_created (emitted e run.2).
Proof.
  intros run. subst run. unfold _upload_geojson_concurrent.
  set (to_upload := filter (fun r => geojson_filename id_text r ∉ existing) records).
  pose proof (upload_geojson_jobs_events w id_text record_json to_upload folder 0 e)
    as (evs & Hem & Hall & Hcount & Hlen).
  assert (Hall' : Forall
            (fun ev =>
               exists record rs o,
                 record ∈ records
                 /\ (geojson_filename id_text record ∉ existing)
                 /\ ev = EvCreate folder (geojson_filename id_text record)
                           "application/json" rs o) evs).
  { eapply Forall_impl; [exact Hall|]. intros ev (r & rs & o & Hr & ->).
    apply list_elem_of_filter in Hr as [Hnot Hr]. by exists r, rs, o. }
  destruct to_upload as [|r l] eqn:Hto.
  - cbn [fst snd]. rewrite (emitted_emits _ _ _ (emits_nil e)).
    split; [done|]. split; lia.
  - rewrite (emitted_emits _ _ _ Hem). split; [done|]. split; lia.
Qed.

(** ** Photo references of a record *)

Lemma recurse_photo_list rid path (photos : list (Json * option Json)) k :
  (fix at_index (idx : nat) (items : list Json) : list PhotoRef :=
     match items with
     | [] => []
     | item :: rest =>
         recurse rid item (path +:+ "[" +:+ pretty idx +:+ "]") ++ at_index (S idx) rest
     end) k ((fun p => photo_value p.1 p.2) <$> photos)
  = imap (fun i p =>
            {| ref_photo_id := p.1; ref_record_id := rid;
               ref_field_path := path +:+ "[" +:+ pretty (k + i) +:+ "]";
               ref_caption := default (JStr "") p.2 |}) photos.
Proof.
  revert k. induction photos as [|[pid cap] photos IH]; intros k; [done|].
  rewrite fmap_cons. cbn [imap]. rewrite IH, Nat.add_0_r.
  cbn [fst snd photo_value recurse dict_get List.find String.eqb Ascii.eqb Bool.eqb fmap
       option_fmap option_map app].
  f_equal.
  - by destruct cap.
  - apply imap_ext. intros i p _. simpl. by rewrite Nat.add_succ_r.
Qed.

Lemma dict_get_cons_ne key k v fields :
  k <> key -> dict_get key ((k, v) :: fields) = dict_get key fields.
Proof.
  intros Hne. unfold dict_get. cbn [List.find fst].
  apply String.eqb_neq in Hne. by rewrite Hne.
Qed.

Lemma recurse_dict_no_photo rid fields path :
  dict_get "photo_id" fields = None ->
  recurse rid (JDict fields) path
  = flat_map
      (fun kv =>
         recurse rid (snd kv)
           (if String.eqb path "" then fst kv else path +:+ "." +:+ fst kv))
      fields.
Proof. intros H. cbn [recurse]. by rewrite H. Qed.

Lemma recurse_scalars rid (fields : list (string * Json)) :
  Forall (fun kv => match kv.2 with JDict _ | JList _ => False | _ => True end) fields ->
  flat_map (fun kv => recurse rid (snd kv) (fst kv)) fields = [].
Proof.
  induction 1 as [|[k v] fields Hv _ IH]; [done|].
  cbn [flat_map fst snd]. rewrite IH, app_nil_r. by destruct v.
Qed.

(** A photo field is a list of photo values under the key of the field.
    From a record whose other fields are plain values [extract_photo_ids]
    returns one reference per photo of the field, in order, each with the
    id of the record, the caption of the photo or the empty string, and as
    its field path the key followed by the index of the photo in
    brackets. *)
Theorem extract_photo_ids_of_photo_field record rid before key after
    (photos : list (Json * option Json)) :
  let plain (kv : string * Json) :=
    match kv.2 with JDict _ | JList _ => False | _ => True end in
  let fields :=
    before ++ (key, JList ((fun p => photo_value p.1 p.2) <$> photos)) :: after in
  dict_get "id" record = Some rid ->
  dict_get "form_values" record = Some (JDict fields) ->
  dict_get "photo_id" fields = None ->
  Forall plain before -> Forall plain after ->
  extract_photo_ids record
  = Some (imap (fun i p =>
                  {| ref_photo_id := p.1; ref_record_id := rid;
                     ref_field_path := key +:+ "[" +:+ pretty i +:+ "]";
                     ref_caption := default (JStr "") p.2 |}) photos).
Proof.
  intros plain fields Hid Hvalues Hphoto Hbefore Hafter. unfold extract_photo_ids.
  rewrite Hid, Hvalues. cbn [default from_option id]. f_equal. unfold id.
  rewrite recurse_dict_no_photo by done.
  cbn [String.eqb]. unfold fields. rewrite flat_map_app. cbn [flat_map fst snd].
  rewrite !recurse_scalars by done. rewrite app_nil_r. cbn [app].
  apply (recurse_photo_list rid key photos 0).
Qed.

Lemma extract_photo_ids_of_photo_field_witness :
  extract_photo_ids
    [("id", JStr "r1"); ("status", JStr "open");
     ("form_values",
      JDict [("site", JStr "Lot 4");
             ("before_photos",
              JList [photo_value (JStr "p1") (Some (JStr "gate"));
                     photo_value (JStr "p2") None]);
             ("depth", JNum "3.5")])]
  = Some [{| ref_photo_id := JStr "p1"; ref_record_id := JStr "r1";
             ref_field_path := "before_photos[0]"; ref_caption := JStr "gate" |};
          {| ref_photo_id := JStr "p2"; ref_record_id := JStr "r1";
             ref_field_path := "before_photos[1]"; ref_caption := JStr "" |}].
Proof.
  apply (extract_photo_ids_of_photo_field _ (JStr "r1") [("site", JStr "Lot 4")]
           "before_photos" [("depth", JNum "3.5")]
           [(JStr "p1", Some (JStr "gate")); (JStr "p2", None)]).
  - reflexivity.
  - reflexivity.
  - reflexivity.
  - by repeat constructor.
  - by repeat constructor.
Defined.
